(** * Sidenotes of gwern.net (js/sidenotes.js)

    A shallow embedding of the sidenote code: the construction of the
    two sidenote columns, the reclassification of sidenotes whose
    citation sits in a collapsed block, the placement loop of
    [updateSidenotePositions], the expansion of collapse blocks to reveal
    an element, the identifiers, links and URL hashes of citations and
    sidenotes, the zero-width spaces inserted in the sidenotes, the mouse
    listeners of citations and sidenotes, and the targets of the popups
    (popups.js).

    Conventions of the embedding.
    - A sidenote is named by its position [i] in [GW.sidenotes.sidenoteDivs]
      (0-based, as in the source; the sidenote's id is [sn(i+1)]).
    - The three containers (left column, right column, hidden storage) are
      the lists of their children, in DOM order.
    - Lengths are in [Z], counted in a length unit of which [layoutUnit]
      make a CSS pixel, so that the fractions of a pixel that the browser
      measures are whole numbers; [Math.round] and [parseInt] give whole
      pixels. The halfway points, which the source obtains by a division
      by two, are rationals.
    - A [.collapse] block is given by the [checked] state of its
      disclosure button: the pages of the embedding are those whose
      collapse blocks each have their button. On a block without one
      [isCollapsed] raises a TypeError, which the embedding leaves out.
    - The browser's measurements that the code only reads (bounding
      rectangles, [clientHeight], [offsetTop] of the columns, the state of
      the disclosure buttons) are gathered in the record [Geometry].
    - A URL hash, an identifier or a link is a [string]; the text of a
      node is the list of its UTF-16 code units, in [N].
    - A function object is told from the others by a number or a
      constructor: listeners are compared by identity, as the DOM does. *)

From Stdlib Require Import Strings.String Strings.Ascii DecimalString DecimalNat.
From Stdlib Require Import List ZArith NArith Lia Bool Arith PeanoNat QArith Sorted.
Import ListNotations.

Open Scope Z_scope.

(** ** Data *)

Inductive Side := ColumnLeft | ColumnRight.

(** A vertical band: a bounding rectangle reduced to its [top] and
    [bottom], or an entry of [proscribedVerticalRanges]. *)
Record Range := mkRange { top : Z; bottom : Z }.

Record Room := mkRoom { ceiling : Z; floor : Z }.

(** What the layout reads from the browser. *)
Record Geometry := mkGeometry {
  (** [GW.sidenotes.footnoteRefs.length] *)
  footnoteRefs_length : nat;
  (** for citation [i], the [.collapse] blocks around it, innermost first,
      each given by the [checked] state of its disclosure button (every
      block is supposed to have one) *)
  collapseBlocksAround : nat -> list bool;
  (** [GW.sidenotes.mediaQueries.viewportWidthBreakpoint.matches] *)
  viewportWidthBreakpoint_matches : bool;
  (** [offsetTop] of the first child of [#markdownBody] as wide as it,
      [None] when no child is *)
  firstFullWidthBlock_offsetTop : option Z;
  (** the number of length units to the CSS pixel: every length below is
      a whole number of units, which are a common denominator of what
      the browser measures (1 when it measures whole pixels, 64 where it
      lays the page out on 1/64 of a pixel) *)
  layoutUnit : positive;
  (** [GW.sidenotes.footnoteRefs[i].getBoundingClientRect().top] *)
  footnoteRef_rectTop : nat -> Z;
  (** [side.getBoundingClientRect().top] *)
  side_rectTop : Side -> Z;
  (** [side.offsetTop] *)
  side_offsetTop : Side -> Z;
  (** [side.clientHeight] *)
  side_clientHeight : Side -> Z;
  (** [sidenote.clientHeight] *)
  clientHeight : nat -> Z;
  (** bounding rectangles of the elements matching
      [potentiallyOverlappingElementsSelector], in document order *)
  potentiallyOverlappingElements : list Range
}.

(** The part of the page that the layout writes. *)
Record Page := mkPage {
  sidenoteColumnLeft : list nat;
  sidenoteColumnRight : list nat;
  hiddenSidenoteStorage : list nat;
  (** [sidenote.style.top], in length units *)
  styleTop : nat -> Z;
  (** [style.visibility] of a column is the empty string (shown) rather
      than [hidden] *)
  leftColumnShown : bool;
  rightColumnShown : bool
}.

(** How a call ends. *)
Inductive Completion := Normal | Exception.

(** ** Helpers on containers *)

Definition children (d : Page) (s : Side) : list nat :=
  match s with
  | ColumnLeft => sidenoteColumnLeft d
  | ColumnRight => sidenoteColumnRight d
  end.

Definition inb (x : nat) (l : list nat) : bool := existsb (Nat.eqb x) l.

(** [sidenote.parentElement == GW.sidenotes.hiddenSidenoteStorage] *)
Definition inHiddenStorage (d : Page) (i : nat) : bool :=
  inb i (hiddenSidenoteStorage d).

(** A node has one parent: inserting it somewhere first takes it out of
    where it was. *)
Definition detach (x : nat) (d : Page) : Page :=
  mkPage (remove Nat.eq_dec x (sidenoteColumnLeft d))
         (remove Nat.eq_dec x (sidenoteColumnRight d))
         (remove Nat.eq_dec x (hiddenSidenoteStorage d))
         (styleTop d) (leftColumnShown d) (rightColumnShown d).

Definition withChildren (d : Page) (s : Side) (l : list nat) : Page :=
  match s with
  | ColumnLeft =>
      mkPage l (sidenoteColumnRight d) (hiddenSidenoteStorage d)
             (styleTop d) (leftColumnShown d) (rightColumnShown d)
  | ColumnRight =>
      mkPage (sidenoteColumnLeft d) l (hiddenSidenoteStorage d)
             (styleTop d) (leftColumnShown d) (rightColumnShown d)
  end.

(** [side.appendChild(sidenote)] *)
Definition appendChild (s : Side) (x : nat) (d : Page) : Page :=
  let d' := detach x d in withChildren d' s (children d' s ++ [x]).

(** [GW.sidenotes.hiddenSidenoteStorage.appendChild(sidenote)] *)
Definition appendToHiddenStorage (x : nat) (d : Page) : Page :=
  let d' := detach x d in
  mkPage (sidenoteColumnLeft d') (sidenoteColumnRight d')
         (hiddenSidenoteStorage d' ++ [x])
         (styleTop d') (leftColumnShown d') (rightColumnShown d').

Fixpoint insertBeforeIn (x ref : nat) (l : list nat) : option (list nat) :=
  match l with
  | [] => None
  | y :: l' =>
      if Nat.eqb y ref then Some (x :: y :: l')
      else option_map (cons y) (insertBeforeIn x ref l')
  end.

(** [side.insertBefore(sidenote, reference)]: the DOM refuses
    (NotFoundError, nothing changed) when [reference] is not a child of
    [side]. *)
Definition insertBefore (s : Side) (x ref : nat) (d : Page) : Completion * Page :=
  if inb ref (children d s) then
    let d' := detach x d in
    match insertBeforeIn x ref (children d' s) with
    | Some l => (Normal, withChildren d' s l)
    | None => (Exception, d)
    end
  else (Exception, d).

(** [for (var i = 0; i < length; i++) body], for a body that does not
    touch [i]; an exception leaves the loop. *)
Fixpoint forEach (body : nat -> Page -> Completion * Page)
         (indices : list nat) (d : Page) : Completion * Page :=
  match indices with
  | [] => (Normal, d)
  | i :: rest =>
      match body i d with
      | (Normal, d') => forEach body rest d'
      | thrown => thrown
      end
  end.

(** ** Collapse blocks *)

(** [isCollapsed(collapseBlock)], on a block that has its disclosure
    button, of which [checked] is the state:
    [collapseCheckbox.checked == false]. Where [querySelector] finds no
    button the source raises a TypeError on this line; such a block is
    not a block of the embedding. *)
Definition isCollapsed (checked : bool) : bool := negb checked.

(** [isWithinCollapsedBlock(element)], on the chain of [.collapse] blocks
    around the element. *)
Fixpoint isWithinCollapsedBlock (around : list bool) : bool :=
  match around with
  | [] => false
  | collapseParent :: outer =>
      if isCollapsed collapseParent then true
      else isWithinCollapsedBlock outer
  end.

(** ** Which side *)

(** [(i % 2) ? GW.sidenotes.sidenoteColumnLeft : GW.sidenotes.sidenoteColumnRight] *)
Definition sideOf (i : nat) : Side :=
  if Nat.eqb (i mod 2) 0 then ColumnRight else ColumnLeft.

(** ** constructSidenotes *)

(** The loop that creates the sidenotes and appends each to its side;
    the columns are created hidden and the storage empty. *)
Definition emptyPage : Page :=
  mkPage [] [] [] (fun _ => 0) false false.

Definition constructSidenotes (footnoteRefs : nat) : Page :=
  fold_left (fun d i => appendChild (sideOf i) i d) (seq 0 footnoteRefs) emptyPage.

(** ** updateSidenotesInCollapseBlocks *)

(** The [while] loop that looks for the next displayed sidenote of the
    same side; [steps] bounds the number of turns. *)
Fixpoint nextDisplayedFrom (steps : nat) (d : Page) (length nextSidenoteIndex : nat) : nat :=
  match steps with
  | O => nextSidenoteIndex
  | S steps' =>
      if Nat.ltb nextSidenoteIndex length && inHiddenStorage d nextSidenoteIndex
      then nextDisplayedFrom steps' d length (nextSidenoteIndex + 2)
      else nextSidenoteIndex
  end.

Definition collapseBlocksBody (g : Geometry) (i : nat) (d : Page) : Completion * Page :=
  if isWithinCollapsedBlock (collapseBlocksAround g i) then
    (Normal, appendToHiddenStorage i d)
  else
    let side := sideOf i in
    let nextSidenoteIndex :=
      nextDisplayedFrom (footnoteRefs_length g) d (footnoteRefs_length g) (i + 2) in
    if Nat.leb (footnoteRefs_length g) nextSidenoteIndex then
      (Normal, appendChild side i d)
    else
      insertBefore side i nextSidenoteIndex d.

Definition updateSidenotesInCollapseBlocks (g : Geometry) (d : Page) : Completion * Page :=
  forEach (collapseBlocksBody g) (seq 0 (footnoteRefs_length g)) d.

(** ** updateSidenotePositions *)

(** A number of CSS pixels, in length units. *)
Definition px (g : Geometry) (pixels : Z) : Z := pixels * Z.pos (layoutUnit g).

(** [GW.sidenotes.sidenoteSpacing]: 60 pixels. *)
Definition sidenoteSpacing (g : Geometry) : Z := px g 60.

(** [Math.round(x)]: the nearest whole number of pixels, a half going
    up. *)
Definition Math_round (g : Geometry) (x : Z) : Z :=
  px g ((2 * x + Z.pos (layoutUnit g)) / (2 * Z.pos (layoutUnit g))).

(** [parseInt(sidenote.style.top)], for the [style.top] that the layout
    has assigned, a number of pixels in decimal notation followed by
    [px]: the whole pixels of that number, its fraction dropped (towards
    zero). *)
Definition parseInt (g : Geometry) (x : Z) : Z :=
  px g (Z.quot x (Z.pos (layoutUnit g))).

(** Modelled from the spec: the style sheet that positions the sidenotes
    is not part of the sources. The spec gives a sidenote one vertical
    position, [currentTop], which the engine both reads and writes: the
    sidenotes are positioned inside their column, so that the
    [sidenote.offsetTop] the browser reports is the [style.top] last
    assigned. *)
Definition offsetTop (d : Page) (i : nat) : Z := styleTop d i.

(** [sidenote.style.top = v + "px"] *)
Definition setStyleTop (i : nat) (v : Z) (d : Page) : Page :=
  mkPage (sidenoteColumnLeft d) (sidenoteColumnRight d) (hiddenSidenoteStorage d)
         (fun j => if Nat.eqb j i then v else styleTop d j)
         (leftColumnShown d) (rightColumnShown d).

(** The container a sidenote is a child of, as the list of its children. *)
Definition siblingsOf (d : Page) (i : nat) : list nat :=
  if inb i (sidenoteColumnLeft d) then sidenoteColumnLeft d
  else if inb i (sidenoteColumnRight d) then sidenoteColumnRight d
  else if inb i (hiddenSidenoteStorage d) then hiddenSidenoteStorage d
  else [].

Fixpoint nextIn (i : nat) (l : list nat) : option nat :=
  match l with
  | [] => None
  | x :: l' =>
      if Nat.eqb x i then hd_error l' else nextIn i l'
  end.

Fixpoint previousIn (i : nat) (l : list nat) : option nat :=
  match l with
  | [] => None
  | x :: l' =>
      match l' with
      | [] => None
      | y :: _ => if Nat.eqb y i then Some x else previousIn i l'
      end
  end.

(** [sidenote.nextElementSibling] *)
Definition nextElementSibling (d : Page) (i : nat) : option nat :=
  nextIn i (siblingsOf d i).

(** [sidenote.previousElementSibling] *)
Definition previousElementSibling (d : Page) (i : nat) : option nat :=
  previousIn i (siblingsOf d i).

(** The default position: level with the citation.
    [Math.round((fnref.getBoundingClientRect().top - side.getBoundingClientRect().top) + 4)] *)
Definition defaultTop (g : Geometry) (i : nat) : Z :=
  Math_round g ((footnoteRef_rectTop g i - side_rectTop g (sideOf i)) + px g 4).

(** Body of the first loop ("Initial layout"). *)
Definition initialLayoutBody (g : Geometry) (d : Page) (i : nat) : Page :=
  if inHiddenStorage d i then d
  else setStyleTop i (defaultTop g i) d.

Definition initialLayout (g : Geometry) (d : Page) : Page :=
  fold_left (initialLayoutBody g) (seq 0 (footnoteRefs_length g)) d.

(** [proscribedVerticalRanges]: the overlapping elements, relative to the
    top of the right column, then the bottom of the right column. *)
Definition proscribedVerticalRanges (g : Geometry) : list Range :=
  map (fun elementBoundingRect =>
         mkRange (top elementBoundingRect - side_rectTop g ColumnRight)
                 (bottom elementBoundingRect - side_rectTop g ColumnRight))
      (potentiallyOverlappingElements g)
  ++ [mkRange (side_clientHeight g ColumnRight) (side_clientHeight g ColumnRight)].

(** [(x.top + x.bottom) / 2] *)
Definition halfwayPoint (r : Range) : Q := (inject_Z (top r + bottom r) / 2)%Q.

Definition Qltb (x y : Q) : bool := negb (Qle_bool y x).

(** A proscribed range in the coordinates of a column:
    [{ top: range.top - side.offsetTop, bottom: range.bottom - side.offsetTop }] *)
Definition relativeTo (sideOffsetTop : Z) (r : Range) : Range :=
  mkRange (top r - sideOffsetTop) (bottom r - sideOffsetTop).

(** The loop over [j] that narrows the room from both sides;
    [nextProscribedRangeAfterSidenote] is [None] for the source's [-1]. *)
Fixpoint narrowRoom (ranges : list Range) (sideOffsetTop : Z)
         (sidenoteFootprintHalfwayPoint : Q) (turns j : nat)
         (room : Room) (nextProscribedRangeAfterSidenote : option nat)
  : Room * option nat :=
  match turns with
  | O => (room, nextProscribedRangeAfterSidenote)
  | S turns' =>
      let room1 :=
        match nth_error ranges j with
        | Some r =>
            let rangeCountingUp := relativeTo sideOffsetTop r in
            if Qltb (halfwayPoint rangeCountingUp) sidenoteFootprintHalfwayPoint
            then mkRoom (bottom rangeCountingUp) (floor room)
            else room
        | None => room
        end in
      let indexCountingDown := (length ranges - j - 1)%nat in
      let '(room2, next2) :=
        match nth_error ranges indexCountingDown with
        | Some r =>
            let rangeCountingDown := relativeTo sideOffsetTop r in
            if Qltb sidenoteFootprintHalfwayPoint (halfwayPoint rangeCountingDown)
            then (mkRoom (ceiling room1) (top rangeCountingDown), Some indexCountingDown)
            else (room1, nextProscribedRangeAfterSidenote)
        | None => (room1, nextProscribedRangeAfterSidenote)
        end in
      narrowRoom ranges sideOffsetTop sidenoteFootprintHalfwayPoint turns' (S j) room2 next2
  end.

(** The room of a sidenote of the given footprint, on a side. *)
Definition roomFor (g : Geometry) (ranges : list Range) (side : Side)
           (sidenoteFootprint : Range) : Room * option nat :=
  narrowRoom ranges (side_offsetTop g side) (halfwayPoint sidenoteFootprint)
             (length ranges) 0
             (mkRoom 0 (side_clientHeight g side)) None.

(** [sidenoteFootprint], for a sidenote whose [offsetTop] is [t]. *)
Definition footprintAt (g : Geometry) (i : nat) (t : Z) : Range :=
  mkRange (t - sidenoteSpacing g) (t + clientHeight g i + sidenoteSpacing g).

(** How one turn of the second loop ("Correct for overlap") ends. *)
Inductive Disposition :=
| InStorage          (** the sidenote is in the hidden storage: skipped *)
| GivingUp           (** does not fit, no range below: [return] *)
| MovedPastRange     (** does not fit: moved below the next range, same [i] again *)
| NeedsNoAdjustment  (** [overlapBelow <= 0] *)
| MovedUp            (** enough headroom *)
| MovedToNextSpace   (** overlaps the floor beyond the headroom: moved below the next range, same [i] again *)
| LeftInPlace        (** the next sidenote would not fit in this room: not disturbed *)
| MovedUpAndPushedNext
| TypeError.         (** a property of [undefined] or [null] is read *)

(** The second half of the body of the second loop, from "Does this
    sidenote overlap its room's floor?" on: [d] and [sidenoteFootprint]
    are the page and the footprint after the correction for the ceiling. *)
Definition resolveOverlapBelow (g : Geometry) (ranges : list Range) (i : nat)
           (room : Room) (nextProscribedRangeAfterSidenote : option nat)
           (nextSidenote : option nat) (sidenoteFootprint : Range) (d : Page)
  : Disposition * Page :=
  let overlapWithFloor := bottom sidenoteFootprint - floor room in
  let overlapWithNextSidenote :=
    match nextSidenote with
    | Some next => bottom sidenoteFootprint - offsetTop d next
    | None => -1
    end in
  let overlapBelow := Z.max overlapWithNextSidenote overlapWithFloor in
  if overlapBelow <=? 0 then (NeedsNoAdjustment, d) else
  let previousSidenote := previousElementSibling d i in
  let maxHeadroom := top sidenoteFootprint - ceiling room in
  let headroom :=
    match previousSidenote with
    | Some previous =>
        Z.min maxHeadroom
              (top sidenoteFootprint - (offsetTop d previous + clientHeight g previous))
    | None => maxHeadroom
    end in
  if headroom >=? overlapBelow then
    (MovedUp, setStyleTop i (parseInt g (styleTop d i) - overlapBelow) d)
  else
  if headroom <? overlapWithFloor then
    match nextProscribedRangeAfterSidenote with
    | Some k =>
        match nth_error ranges k with
        | Some r => (MovedToNextSpace, setStyleTop i (bottom r + sidenoteSpacing g) d)
        | None => (TypeError, d)
        end
    | None => (TypeError, d)
    end
  else
  match nextSidenote, nextProscribedRangeAfterSidenote with
  | Some next, Some k =>
      match nth_error ranges k with
      | Some r =>
          if bottom sidenoteFootprint + clientHeight g next + sidenoteSpacing g - headroom
             >? top r
          then (LeftInPlace, d)
          else
            let d' := setStyleTop i (parseInt g (styleTop d i) - headroom) d in
            let overlapWithNextSidenote' := overlapWithNextSidenote - headroom in
            (MovedUpAndPushedNext,
             setStyleTop next (parseInt g (styleTop d' next) + overlapWithNextSidenote') d')
      | None => (TypeError, d)
      end
  | _, _ => (TypeError, d)
  end.

(** The body of the second loop, for sidenote [i]. *)
Definition correctOverlap (g : Geometry) (ranges : list Range) (i : nat) (d : Page)
  : Disposition * Page :=
  let nextSidenote := nextElementSibling d i in
  if inHiddenStorage d i then (InStorage, d) else
  let side := sideOf i in
  let sidenoteFootprint := footprintAt g i (offsetTop d i) in
  let '(room, nextProscribedRangeAfterSidenote) := roomFor g ranges side sidenoteFootprint in
  if bottom sidenoteFootprint - top sidenoteFootprint >? floor room - ceiling room then
    match nextProscribedRangeAfterSidenote with
    | None => (GivingUp, d)
    | Some k =>
        match nth_error ranges k with
        | Some r => (MovedPastRange, setStyleTop i (bottom r + sidenoteSpacing g) d)
        | None => (TypeError, d)
        end
    end
  else
  let overlapWithCeiling := ceiling room - top sidenoteFootprint in
  if overlapWithCeiling >? 0 then
    resolveOverlapBelow g ranges i room nextProscribedRangeAfterSidenote nextSidenote
      (mkRange (top sidenoteFootprint + overlapWithCeiling)
               (bottom sidenoteFootprint + overlapWithCeiling))
      (setStyleTop i (parseInt g (styleTop d i) + overlapWithCeiling) d)
  else
    resolveOverlapBelow g ranges i room nextProscribedRangeAfterSidenote nextSidenote
      sidenoteFootprint d.

(** How a call of [updateSidenotePositions] ends. *)
Inductive Outcome :=
| FootnotesMode   (** the viewport is narrow: nothing done *)
| Success         (** the loop ran to its end, the columns are shown *)
| GaveUp          (** the [return] of "TOO MUCH SIDENOTES. GIVING UP." *)
| Threw           (** an uncaught exception *)
| StillRunning.   (** the bound on the number of turns was reached *)

(** The second loop. [for (var i = 0; i < length; i++)] whose body may
    end in [i--; continue], which makes the next turn treat the same
    sidenote: [turns] bounds the number of turns. The list is the record
    of the turns taken, latest first: the sidenote treated, its
    [offsetTop] on entry and how the turn ended. *)
Fixpoint correctOverlapsFrom (g : Geometry) (ranges : list Range) (turns : nat)
         (i : nat) (d : Page) (log : list (nat * Z * Disposition))
  : Outcome * Page * list (nat * Z * Disposition) :=
  if Nat.leb (footnoteRefs_length g) i then (Success, d, log) else
  match turns with
  | O => (StillRunning, d, log)
  | S turns' =>
      let '(how, d') := correctOverlap g ranges i d in
      let log' := (i, offsetTop d i, how) :: log in
      match how with
      | GivingUp => (GaveUp, d', log')
      | TypeError => (Threw, d', log')
      | MovedPastRange | MovedToNextSpace =>
          correctOverlapsFrom g ranges turns' i d' log'
      | _ => correctOverlapsFrom g ranges turns' (S i) d' log'
      end
  end.

(** "Show the sidenote columns." *)
Definition showColumns (d : Page) : Page :=
  mkPage (sidenoteColumnLeft d) (sidenoteColumnRight d) (hiddenSidenoteStorage d)
         (styleTop d) true true.

(** The page after the reclassification and the first loop, when both
    are reached and complete. *)
Definition prepared (g : Geometry) (d : Page) : Page :=
  initialLayout g (snd (updateSidenotesInCollapseBlocks g d)).

(** [updateSidenotePositions()]. The re-homing of the left column only
    changes what the browser measures afterwards, which is what
    [Geometry] holds; it fails when no block is full-width. *)
Definition updateSidenotePositions (g : Geometry) (turns : nat) (d : Page)
  : Outcome * Page * list (nat * Z * Disposition) :=
  if viewportWidthBreakpoint_matches g then (FootnotesMode, d, []) else
  match firstFullWidthBlock_offsetTop g with
  | None => (Threw, d, [])
  | Some _ =>
      match updateSidenotesInCollapseBlocks g d with
      | (Exception, d1) => (Threw, d1, [])
      | (Normal, d1) =>
          let d2 := initialLayout g d1 in
          match correctOverlapsFrom g (proscribedVerticalRanges g) turns 0 d2 [] with
          | (Success, d3, log) => (Success, showColumns d3, log)
          | stopped => stopped
          end
      end
  end.

(** ** expandCollapseBlocksToReveal *)

(** A [.collapse] block, as this function reads and writes it: the
    [checked] state of its disclosure button and whether its class list
    holds [expanded]. *)
Record CollapseBlock := mkCollapseBlock {
  disclosureButton_checked : bool;
  classList_expanded : bool
}.

(** [expandCollapseBlocksToReveal(element)], on the chain of [.collapse]
    blocks around the element, innermost first (the element itself when
    it is one). The result is the value returned, the blocks as the call
    leaves them, and the number of times
    [setTimeout(updateSidenotePositions)] was called. An element within
    a collapsed block has a block around it: the chain is not empty where
    the function looks for the nearest block. *)
Fixpoint expandCollapseBlocksToReveal (around : list CollapseBlock)
  : bool * list CollapseBlock * nat :=
  if negb (isWithinCollapsedBlock (map disclosureButton_checked around)) then
    (false, around, 0%nat)
  else
    match around with
    | [] => (false, around, 0%nat)
    | collapseParent :: outer =>
        let expansionOccurred := Bool.eqb (disclosureButton_checked collapseParent) false in
        let collapseParent' := mkCollapseBlock true true in
        let '(expandedFurther, outer', scheduled) := expandCollapseBlocksToReveal outer in
        (expansionOccurred, collapseParent' :: outer',
         if negb expandedFurther && expansionOccurred then S scheduled else scheduled)
    end.

(** ** Identifiers, links and the URL hash *)

(** The string that JavaScript gives for a number when it concatenates it
    to a string: for the natural numbers below [2^32] that index an
    array, their decimal digits. *)
Definition numberToString (n : nat) : string :=
  NilEmpty.string_of_uint (Nat.to_uint n).

(** [s.substr(n)] *)
Fixpoint substr (n : nat) (s : string) : string :=
  match n, s with
  | S n', String _ s' => substr n' s'
  | _, _ => s
  end.

(** [[0-9]] *)
Definition isDigit (c : ascii) : bool :=
  (Nat.leb 48 (nat_of_ascii c) && Nat.leb (nat_of_ascii c) 57)%bool.

(** The regular expression [/p[0-9]/], for a literal [p], matches at the
    start of [s]. *)
Definition matchesAtStart (p s : string) : bool :=
  (String.prefix p s
   && match substr (String.length p) s with
      | String c _ => isDigit c
      | EmptyString => false
      end)%bool.

(** [s.match(/p[0-9]/)] is not [null]: the expression is not anchored,
    and matches anywhere in [s]. *)
Fixpoint hash_match (p s : string) : bool :=
  (matchesAtStart p s
   || match s with
      | String _ s' => hash_match p s'
      | EmptyString => false
      end)%bool.

(** [sidenote.id = "sn" + (i + 1)] *)
Definition sidenote_id (i : nat) : string := ("sn" ++ numberToString (i + 1))%string.

(** [sidenoteSelfLink.href = "#sn" + (i + 1)] *)
Definition sidenoteSelfLink_href (i : nat) : string :=
  ("#sn" ++ numberToString (i + 1))%string.

(** The body of the loop of [updateFootnoteReferenceLinks]: the value
    assigned to [fnref.href] for citation [i]. [matches] is
    [GW.sidenotes.mediaQueries.viewportWidthBreakpoint.matches]: the
    viewport is too narrow for sidenotes (footnotes mode). *)
Definition fnref_href (matches : bool) (i : nat) : string :=
  if Bool.eqb matches false
  then ("#sn" ++ numberToString (i + 1))%string
  else ("#fn" ++ numberToString (i + 1))%string.

(** [updateFootnoteReferenceLinks()]: the links of the citations, in the
    order of [GW.sidenotes.footnoteRefs]. *)
Definition updateFootnoteReferenceLinks (matches : bool)
           (footnoteRefs : nat) : list string :=
  map (fnref_href matches) (seq 0 footnoteRefs).

(** [updateTargetCounterpart()]: the selector of the counterpart that the
    function looks up with [document.querySelector], or [None] when it
    looks none up. *)
Definition targetCounterpart (location_hash : string) (matches : bool)
  : option string :=
  if hash_match "#sn" location_hash then
    Some ("#fnref" ++ substr 3 location_hash)%string
  else if (hash_match "#fnref" location_hash
           && Bool.eqb matches false)%bool then
    Some ("#sn" ++ substr 6 location_hash)%string
  else None.

(** [sidenotesSetup()], "rewrite the hash in accordance with the current
    mode": the value assigned to [location.hash], or [None] when the hash
    is left alone (and [realignHashIfNeeded] requested). *)
Definition rewrittenHash (location_hash : string) (matches : bool)
  : option string :=
  if (hash_match "#sn" location_hash && Bool.eqb matches true)%bool then
    Some ("#fn" ++ substr 3 location_hash)%string
  else if (hash_match "#fn" location_hash
           && Bool.eqb matches false)%bool then
    Some ("#sn" ++ substr 3 location_hash)%string
  else None.

(** [realignHashIfNeeded()]: whether [realignHash] is called. *)
Definition realignHashIfNeeded (location_hash : string) : bool :=
  (hash_match "#sn" location_hash || hash_match "#fnref" location_hash)%bool.

(** [location.hash.startsWith("#sn") || location.hash.startsWith("#fnref")] *)
Definition targetsSidenoteOrCitation (location_hash : string) : bool :=
  (String.prefix "#sn" location_hash || String.prefix "#fnref" location_hash)%bool.

(** [sidenotesSetup()], "Save the hash, if need be": the first value of
    [GW.sidenotes.hashBeforeSidenoteWasFocused]. *)
Definition savedHash (location_hash : string) : string :=
  if targetsSidenoteOrCitation location_hash then ""%string else location_hash.

(** A click, as the two listeners read it. *)
Inductive Click :=
| OnSidenote (i : nat) (target_tagName : string)
    (** the listener of sidenote [i] is called; [event.target.tagName] *)
| OnBody (withinLinkOrSidenote : bool).
    (** the listener of the body is called;
        [event.target.closest("a") || event.target.closest(".sidenote")] *)

Section Clicks.

(** The two functions of the platform that [sidenoteClicked] calls.
    [decodeURIComponent] gives [None] when it throws [URIError]. *)
Variable decodeURIComponent : string -> option string.
Variable encodeURIComponent : string -> string.

(** [GW.sidenotes.sidenoteClicked], for sidenote [i]: the new value of
    [hashBeforeSidenoteWasFocused] and the argument with which
    [setHashWithoutScrolling] is called, if it is. An exception leaves
    the listener before it has changed anything. *)
Definition sidenoteClicked (i : nat) (target_tagName : string)
           (location_hash hashBeforeSidenoteWasFocused : string) : string * option string :=
  match decodeURIComponent location_hash with
  | None => (hashBeforeSidenoteWasFocused, None)
  | Some decoded =>
      if (String.eqb decoded (sidenote_id i)
          || String.eqb target_tagName "A" || String.eqb target_tagName "IMG")%bool
      then (hashBeforeSidenoteWasFocused, None)
      else
        (if negb (targetsSidenoteOrCitation location_hash)
         then location_hash else hashBeforeSidenoteWasFocused,
         Some (encodeURIComponent (sidenote_id i)))
  end.

(** [GW.sidenotes.bodyClicked] *)
Definition bodyClicked (withinLinkOrSidenote : bool)
           (location_hash hashBeforeSidenoteWasFocused : string) : string * option string :=
  if (negb withinLinkOrSidenote && targetsSidenoteOrCitation location_hash)%bool
  then (hashBeforeSidenoteWasFocused, Some hashBeforeSidenoteWasFocused)
  else (hashBeforeSidenoteWasFocused, None).

Definition clicked (c : Click) (location_hash hashBeforeSidenoteWasFocused : string)
  : string * option string :=
  match c with
  | OnSidenote i target_tagName =>
      sidenoteClicked i target_tagName location_hash hashBeforeSidenoteWasFocused
  | OnBody withinLinkOrSidenote =>
      bodyClicked withinLinkOrSidenote location_hash hashBeforeSidenoteWasFocused
  end.

(** The value of [hashBeforeSidenoteWasFocused] after a series of clicks,
    each with the [location.hash] that its listener reads. *)
Definition hashSavedAfter (clicks : list (string * Click)) (hashBeforeSidenoteWasFocused : string)
  : string :=
  fold_left (fun saved hc => fst (clicked (snd hc) (fst hc) saved))
            clicks hashBeforeSidenoteWasFocused.

End Clicks.

(** ** Zero-width spaces in the sidenotes *)

(** The text of a node is the list of its UTF-16 code units. *)

(** [\w], in a regular expression without the [u] and [i] flags: a
    letter of the basic Latin alphabet, a digit or the underscore. *)
Definition isWordCharacter (c : N) : bool :=
  ((N.leb 48 c && N.leb c 57)          (* 0-9 *)
   || (N.leb 65 c && N.leb c 90)       (* A-Z *)
   || (N.leb 97 c && N.leb c 122)      (* a-z *)
   || N.eqb c 95)%bool.                (* _ *)

(** One of [GW.sidenotes.problematicCharacters]: the solidus, the equals
    sign, or the not-equal sign (U+2260). *)
Definition isProblematicCharacter (c : N) : bool :=
  (N.eqb c 47 || N.eqb c 61 || N.eqb c 8800)%bool.

(** U+200B. *)
Definition zeroWidthSpace : N := 8203%N.

(** [textContent.replace(new RegExp("(\\w[" + problematicCharacters + "])(\\w)", 'g'),
    "$1\u{200B}$2")]: the matches are taken from left to right, each
    search starting where the previous match ended. *)
Fixpoint insertZeroWidthSpaces (textContent : list N) : list N :=
  match textContent with
  | [] => []
  | a :: rest =>
      match rest with
      | b :: c :: rest' =>
          if (isWordCharacter a && isProblematicCharacter b && isWordCharacter c)%bool
          then a :: b :: zeroWidthSpace :: c :: insertZeroWidthSpaces rest'
          else a :: insertZeroWidthSpaces rest
      | _ => a :: insertZeroWidthSpaces rest
      end
  end.

(** ** Mouse events of the citations and the sidenotes *)

(** What a listener of [bindSidenoteMouseEvents] does when it is called:
    it sets or removes the class [highlighted] of a sidenote or of a
    citation. *)
Inductive Highlighting :=
| HighlightSidenote (i : nat)      (** [sidenote.classList.toggle("highlighted", true)] *)
| UnhighlightSidenote (i : nat)    (** [sidenote.classList.remove("highlighted")] *)
| HighlightCitation (i : nat)      (** [fnref.classList.toggle("highlighted", true)] *)
| UnhighlightCitation (i : nat).   (** [fnref.classList.remove("highlighted")] *)

(** A function object: each evaluation of an arrow function makes a new
    one, told from the others by [created], its rank among the functions
    created. *)
Record Closure := mkClosure { created : nat; body : Highlighting }.

(** A citation or a sidenote as an event target: its listeners for the
    two events, in the order in which they are called, and the two
    properties in which the code keeps the functions it has bound
    ([footnoteover] and [footnoteout] of a citation, [sidenoteover] and
    [sidenoteout] of a sidenote; [None] for [null] or [undefined]). *)
Record EventTarget := mkEventTarget {
  mouseover : list Closure;
  mouseout : list Closure;
  over : option Closure;
  out : option Closure
}.

Record Listeners := mkListeners {
  fnref : nat -> EventTarget;
  sidenote : nat -> EventTarget;
  (** the number of functions created so far *)
  closures : nat
}.

(** [target.addEventListener(type, callback)]: nothing is added when the
    same function is already a listener for the event. *)
Definition addEventListener (callback : Closure) (listeners : list Closure) : list Closure :=
  if existsb (fun c => Nat.eqb (created c) (created callback)) listeners
  then listeners else listeners ++ [callback].

(** [target.removeEventListener(type, callback)]: nothing is removed
    when [callback] is [null]. *)
Definition removeEventListener (callback : option Closure) (listeners : list Closure)
  : list Closure :=
  match callback with
  | None => listeners
  | Some callback =>
      filter (fun c => negb (Nat.eqb (created c) (created callback))) listeners
  end.

Definition setTarget (i : nat) (t : EventTarget) (targets : nat -> EventTarget)
  : nat -> EventTarget :=
  fun j => if Nat.eqb j i then t else targets j.

(** The body of the loop of [bindSidenoteMouseEvents]. *)
Definition bindBody (st : Listeners) (i : nat) : Listeners :=
  let footnoteover := mkClosure (closures st) (HighlightSidenote i) in
  let footnoteout := mkClosure (closures st + 1) (UnhighlightSidenote i) in
  let sidenoteover := mkClosure (closures st + 2) (HighlightCitation i) in
  let sidenoteout := mkClosure (closures st + 3) (UnhighlightCitation i) in
  let f := fnref st i in
  let s := sidenote st i in
  mkListeners
    (setTarget i (mkEventTarget (addEventListener footnoteover (mouseover f))
                                (addEventListener footnoteout (mouseout f))
                                (Some footnoteover) (Some footnoteout))
               (fnref st))
    (setTarget i (mkEventTarget (addEventListener sidenoteover (mouseover s))
                                (addEventListener sidenoteout (mouseout s))
                                (Some sidenoteover) (Some sidenoteout))
               (sidenote st))
    (closures st + 4).

(** [bindSidenoteMouseEvents()] *)
Definition bindSidenoteMouseEvents (footnoteRefs : nat) (st : Listeners) : Listeners :=
  fold_left bindBody (seq 0 footnoteRefs) st.

(** The body of the loop of [unbindSidenoteMouseEvents]. *)
Definition unbindBody (st : Listeners) (i : nat) : Listeners :=
  let f := fnref st i in
  let s := sidenote st i in
  mkListeners
    (setTarget i (mkEventTarget (removeEventListener (over f) (mouseover f))
                                (removeEventListener (out f) (mouseout f))
                                None None)
               (fnref st))
    (setTarget i (mkEventTarget (removeEventListener (over s) (mouseover s))
                                (removeEventListener (out s) (mouseout s))
                                None None)
               (sidenote st))
    (closures st).

(** [unbindSidenoteMouseEvents()] *)
Definition unbindSidenoteMouseEvents (footnoteRefs : nat) (st : Listeners) : Listeners :=
  fold_left unbindBody (seq 0 footnoteRefs) st.

(** [updateEventListeners()]; [matches] is
    [GW.sidenotes.mediaQueries.viewportWidthBreakpoint.matches]. *)
Definition updateEventListeners (footnoteRefs : nat) (st : Listeners) (matches : bool)
  : Listeners :=
  let st' := unbindSidenoteMouseEvents footnoteRefs st in
  if negb matches then bindSidenoteMouseEvents footnoteRefs st' else st'.

(** ** Targets of the popups (popups.js) *)

(** The function objects that are listeners of a target: the two of
    [Popups], and any other, told apart by a number. *)
Inductive TargetListener :=
| Popups_targetMouseenter
| Popups_targetMouseleave
| OtherFunction (n : nat).

Definition sameFunction (f f' : TargetListener) : bool :=
  match f, f' with
  | Popups_targetMouseenter, Popups_targetMouseenter => true
  | Popups_targetMouseleave, Popups_targetMouseleave => true
  | OtherFunction n, OtherFunction n' => Nat.eqb n n'
  | _, _ => false
  end.

(** An element that matches [targetSelectors.targetElementsSelector]. *)
Record PopupTarget := mkPopupTarget {
  (** [target.closest(targetSelectors.excludedElementsSelector) == target
      || target.closest(targetSelectors.excludedContainerElementsSelector) != null] *)
  excluded : bool;
  mouseenter : list TargetListener;
  mouseleave : list TargetListener;
  (** [target.popupPrepareFunction], [None] for [null] or [undefined] *)
  popupPrepareFunction : option nat
}.

(** [target.addEventListener(type, f)] *)
Definition addListener (f : TargetListener) (listeners : list TargetListener)
  : list TargetListener :=
  if existsb (sameFunction f) listeners then listeners else listeners ++ [f].

(** [target.removeEventListener(type, f)]; [None] is [undefined]. *)
Definition removeListener (f : option TargetListener) (listeners : list TargetListener)
  : list TargetListener :=
  match f with
  | None => listeners
  | Some f => filter (fun f' => negb (sameFunction f f')) listeners
  end.

(** [Popups.addTargets(targetSelectors, prepareFunction, targetPrepareFunction)],
    on the elements that match the selector, in document order. *)
Definition addTargets (targets : list PopupTarget) (prepareFunction : nat)
           (targetPrepareFunction : option (PopupTarget -> PopupTarget)) : list PopupTarget :=
  map (fun target =>
         if excluded target then target else
         let target' :=
           mkPopupTarget (excluded target)
                         (addListener Popups_targetMouseenter (mouseenter target))
                         (addListener Popups_targetMouseleave (mouseleave target))
                         (Some prepareFunction) in
         match targetPrepareFunction with
         | Some prepare => prepare target'
         | None => target'
         end)
      targets.

(** [Popups.removeTargets(targetSelectors)]. The listeners it removes
    are [Footnotes.targetMouseenter] and [Footnotes.targetMouseleave]:
    [Footnotes] is [None] when no such variable is declared, which makes
    the first target that is not excluded raise [ReferenceError];
    otherwise it gives the two properties. *)
Fixpoint removeTargets (Footnotes : option (option TargetListener * option TargetListener))
         (targets : list PopupTarget) : Completion * list PopupTarget :=
  match targets with
  | [] => (Normal, [])
  | target :: rest =>
      if excluded target then
        let '(c, rest') := removeTargets Footnotes rest in (c, target :: rest')
      else
        match Footnotes with
        | None => (Exception, targets)
        | Some (Footnotes_targetMouseenter, Footnotes_targetMouseleave) =>
            let target' :=
              mkPopupTarget (excluded target)
                            (removeListener Footnotes_targetMouseenter (mouseenter target))
                            (removeListener Footnotes_targetMouseleave (mouseleave target))
                            None in
            let '(c, rest') := removeTargets Footnotes rest in (c, target' :: rest')
        end
  end.

(** ** Vocabulary of the statements *)

(** The citation of sidenote [i] is within a collapsed block. *)
Definition collapsed (g : Geometry) (i : nat) : bool :=
  isWithinCollapsedBlock (collapseBlocksAround g i).

Definition onSide (s : Side) (i : nat) : bool :=
  match s, sideOf i with
  | ColumnLeft, ColumnLeft | ColumnRight, ColumnRight => true
  | _, _ => false
  end.

(** The sidenotes below [k] that are displayed on side [s], and those
    that are stored, in the order of their indices. *)
Definition displayedOn (g : Geometry) (s : Side) (k : nat) : list nat :=
  filter (fun i => negb (collapsed g i) && onSide s i) (seq 0 k).

Definition storedBelow (g : Geometry) (k : nat) : list nat :=
  filter (collapsed g) (seq 0 k).

(** The state of the containers that [constructSidenotes] sets up and the
    layout keeps: every sidenote below [n] is a child of the column of
    its parity or of the hidden storage, of one of them only and once,
    and the columns are in the order of the indices. *)
Record wellFormed (n : nat) (d : Page) : Prop := mkWellFormed {
  wf_sorted : forall s, StronglySorted lt (children d s);
  wf_side : forall s i, In i (children d s) -> sideOf i = s;
  wf_stored_once : NoDup (hiddenSidenoteStorage d);
  wf_one_parent : forall s i, In i (children d s) -> ~ In i (hiddenSidenoteStorage d);
  wf_all : forall i, (i < n)%nat <->
             In i (sidenoteColumnLeft d) \/ In i (sidenoteColumnRight d)
             \/ In i (hiddenSidenoteStorage d)
}.

(** Sidenote [i] is one of the sidenotes of the page and is not stored. *)
Definition displayed (g : Geometry) (d : Page) (i : nat) : Prop :=
  (i < footnoteRefs_length g)%nat /\ inHiddenStorage d i = false.

(** What the loop of [updateSidenotesInCollapseBlocks] has reached when
    it has treated the sidenotes below [k], from the page [d0]. *)
Definition reclassifiedBelow (g : Geometry) (d0 : Page) (k : nat) (d : Page) : Prop :=
  (forall s, children d s
             = displayedOn g s k ++ filter (fun x => Nat.leb k x) (children d0 s))
  /\ hiddenSidenoteStorage d
     = filter (fun x => Nat.leb k x) (hiddenSidenoteStorage d0) ++ storedBelow g k
  /\ styleTop d = styleTop d0
  /\ leftColumnShown d = leftColumnShown d0
  /\ rightColumnShown d = rightColumnShown d0.

(** The same containers: the turns of the second loop only assign
    [style.top]. *)
Definition sameContainers (d d' : Page) : Prop :=
  sidenoteColumnLeft d' = sidenoteColumnLeft d
  /\ sidenoteColumnRight d' = sidenoteColumnRight d
  /\ hiddenSidenoteStorage d' = hiddenSidenoteStorage d
  /\ leftColumnShown d' = leftColumnShown d
  /\ rightColumnShown d' = rightColumnShown d.

(** The columns are shown or hidden as they were. *)
Definition sameVisibility (d d' : Page) : Prop :=
  leftColumnShown d' = leftColumnShown d /\ rightColumnShown d' = rightColumnShown d.

(** All positions but those of [i] and of the sidenote [next] are kept. *)
Definition othersKept (i : nat) (next : option nat) (d d' : Page) : Prop :=
  forall j, j <> i -> next <> Some j -> styleTop d' j = styleTop d j.

(** Two pages with the same containers and the same positions for the
    sidenotes in [V]; the other positions and the visibility of the
    columns may differ. *)
Definition agreeOn (V : nat -> Prop) (d e : Page) : Prop :=
  sidenoteColumnLeft e = sidenoteColumnLeft d
  /\ sidenoteColumnRight e = sidenoteColumnRight d
  /\ hiddenSidenoteStorage e = hiddenSidenoteStorage d
  /\ forall i, V i -> styleTop e i = styleTop d i.

(** What a turn of the second loop does to a displayed sidenote [i],
    disposition by disposition: whether the sidenote, with its spacing,
    fits in its room, which positions the turn keeps, and where a
    relocation puts the sidenote. *)
Definition turnOutcome (g : Geometry) (ranges : list Range) (i : nat) (d : Page)
           (how : Disposition) (d' : Page) : Prop :=
  let t := styleTop d i in
  let h := clientHeight g i in
  let room := fst (roomFor g ranges (sideOf i) (footprintAt g i t)) in
  let nx := snd (roomFor g ranges (sideOf i) (footprintAt g i t)) in
  let fits := h + 2 * sidenoteSpacing g <= floor room - ceiling room in
  let relocated :=
    othersKept i None d d'
    /\ exists k r, nx = Some k /\ nth_error ranges k = Some r
                   /\ styleTop d' i = bottom r + sidenoteSpacing g in
  match how with
  | InStorage => False
  | GivingUp => ~ fits /\ nx = None /\ d' = d
  | MovedPastRange => ~ fits /\ relocated
  | MovedToNextSpace => fits /\ relocated
  | NeedsNoAdjustment | MovedUp | LeftInPlace => fits /\ othersKept i None d d'
  | MovedUpAndPushedNext => fits /\ othersKept i (nextElementSibling d i) d d'
  | TypeError => othersKept i None d d'
  end.

(** The two tests of the loop that narrows the room. *)
Definition halfwayAbove (sideOffsetTop : Z) (half : Q) (r : Range) : bool :=
  Qltb (halfwayPoint (relativeTo sideOffsetTop r)) half.

Definition halfwayBelow (sideOffsetTop : Z) (half : Q) (r : Range) : bool :=
  Qltb half (halfwayPoint (relativeTo sideOffsetTop r)).

(** The last range of the list that passes the first test, and the first
    that passes the second, with its index. *)
Fixpoint lastAbove (sideOffsetTop : Z) (half : Q) (ranges : list Range) : option Range :=
  match ranges with
  | [] => None
  | r :: rest =>
      match lastAbove sideOffsetTop half rest with
      | Some r' => Some r'
      | None => if halfwayAbove sideOffsetTop half r then Some r else None
      end
  end.

Fixpoint firstBelowFrom (base : nat) (sideOffsetTop : Z) (half : Q) (ranges : list Range)
  : option (nat * Range) :=
  match ranges with
  | [] => None
  | r :: rest =>
      if halfwayBelow sideOffsetTop half r then Some (base, r)
      else firstBelowFrom (S base) sideOffsetTop half rest
  end.

(** The ranges of a list are each the right way up, and each ends before
    the ones listed after it begin: the order of the list is the order
    down the page, and no two ranges overlap. *)
Definition inVerticalOrder (ranges : list Range) : Prop :=
  Forall (fun r => top r <= bottom r) ranges
  /\ StronglySorted (fun r1 r2 => bottom r1 <= top r2) ranges.

(** A range [r], in the coordinates of the column, leaves the open
    interval between the ceiling and the floor of a room alone. *)
Definition clearOf (sideOffsetTop : Z) (room : Room) (r : Range) : Prop :=
  bottom r - sideOffsetTop <= ceiling room \/ floor room <= top r - sideOffsetTop.

(** What the browser guarantees of its measurements, and what the
    conversion of the ranges to the coordinates of a column supposes:
    heights are not negative, a bounding rectangle has its top above its
    bottom, and no column starts above its offset parent. *)
Definition plausible (g : Geometry) : Prop :=
  (forall s, 0 <= side_offsetTop g s)
  /\ (forall i, 0 <= clientHeight g i)
  /\ Forall (fun r => top r <= bottom r) (potentiallyOverlappingElements g).

(** The ranges that the loop still finds below sidenote [i] placed at [t]. *)
Definition pending (g : Geometry) (ranges : list Range) (i : nat) (t : Z) : nat :=
  length (filter (halfwayBelow (side_offsetTop g (sideOf i))
                               (halfwayPoint (footprintAt g i t))) ranges).

(** The runs of collapsed blocks of a chain: the collapsed blocks whose
    next block outwards is not collapsed, or that have none. *)
Fixpoint collapsedRuns (around : list bool) : nat :=
  match around with
  | [] => 0
  | block :: outer =>
      (if isCollapsed block
          && negb (match outer with next :: _ => isCollapsed next | [] => false end)
       then 1 else 0)
      + collapsedRuns outer
  end.

(** The text without its zero-width spaces: what is displayed. *)
Definition displayedText (textContent : list N) : list N :=
  filter (fun c => negb (N.eqb c zeroWidthSpace)) textContent.

(** Somewhere in the text a problematic character stands between two
    word characters. *)
Fixpoint hasBreakPoint (textContent : list N) : bool :=
  match textContent with
  | [] => false
  | a :: rest =>
      (match rest with
       | b :: c :: _ => isWordCharacter a && isProblematicCharacter b && isWordCharacter c
       | _ => false
       end
       || hasBreakPoint rest)%bool
  end.

(** Elements to which nothing has been bound yet. *)
Definition noListeners : Listeners :=
  mkListeners (fun _ => mkEventTarget [] [] None None)
              (fun _ => mkEventTarget [] [] None None) 0.

(** The listeners of a target are the functions held in its two
    properties, and no other. *)
Definition boundAsRecorded (t : EventTarget) : Prop :=
  mouseover t = match over t with Some c => [c] | None => [] end
  /\ mouseout t = match out t with Some c => [c] | None => [] end.



(** While the second loop has not passed sidenote [i], the displayed
    sidenotes of its column that are still to come are where the first
    loop put them. *)
Definition atDefaultFrom (g : Geometry) (i j : nat) (p : Page) : Prop :=
  styleTop p i = defaultTop g i
  /\ ((j <= i)%nat ->
      forall a, (j <= a)%nat -> (a < footnoteRefs_length g)%nat -> sideOf a = sideOf i ->
                collapsed g a = false -> styleTop p a = defaultTop g a).

(** A displayed sidenote whose footprint, at the default position, is
    within its room and ends at or above the default position of its next
    sibling. *)
Definition unconstrainedAtDefault (g : Geometry) (d : Page) (a : nat) : Prop :=
  let fp := footprintAt g a (defaultTop g a) in
  let room := fst (roomFor g (proscribedVerticalRanges g) (sideOf a) fp) in
  ceiling room <= top fp
  /\ bottom fp <= floor room
  /\ forall b, nextElementSibling (prepared g d) a = Some b -> bottom fp <= defaultTop g b.

(** ** Pages of the examples *)

(** Scenario A of the specification: two sidenotes of the right column
    (the first and the third), 100 high, whose citations are 40 apart. *)
Definition scenarioA : Geometry :=
  mkGeometry 3 (fun _ => []) false (Some 0) 1%positive
             (fun i => match i with 0%nat => 96 | 1%nat => 96 | _ => 136 end)
             (fun _ => 0) (fun _ => 0) (fun _ => 5000) (fun _ => 100) [].

(** Scenario B of the specification: one sidenote, 300 high, in columns
    200 high, nothing else in the margins; the citation is anywhere. *)
Definition scenarioB (citationTop : Z) : Geometry :=
  mkGeometry 1 (fun _ => []) false (Some 0) 1%positive
             (fun _ => citationTop) (fun _ => 0) (fun _ => 0) (fun _ => 200)
             (fun _ => 300) [].

(** A page of five citations, 400 apart, with sidenotes 100 high, columns
    5000 high and a full-width figure between 900 and 1100: all blocks
    expanded, or with the third citation (sidenote [sn3]) within a
    collapsed block. *)
Definition sampleGeometry (thirdCollapsed : bool) : Geometry :=
  mkGeometry 5
             (fun i => if Nat.eqb i 2 then [true; negb thirdCollapsed] else [])
             false (Some 0) 1%positive
             (fun i => 400 * Z.of_nat i + 96) (fun _ => 0) (fun _ => 0) (fun _ => 5000)
             (fun _ => 100) [mkRange 900 1100].

(** The sample page once laid out with all blocks expanded. *)
Definition samplePage : Page :=
  snd (fst (updateSidenotePositions (sampleGeometry false) 30 (constructSidenotes 5))).

(** The sample page, all blocks expanded, once its second sidenote has
    grown to 6000, more than the height of the columns. *)
Definition tallSidenoteGeometry : Geometry :=
  mkGeometry 5 (fun _ => []) false (Some 0) 1%positive
             (fun i => 400 * Z.of_nat i + 96) (fun _ => 0) (fun _ => 0) (fun _ => 5000)
             (fun i => if Nat.eqb i 1 then 6000 else 100) [mkRange 900 1100].

(** One sidenote, 100 high, alone in columns 5000 high, with nothing else
    in the margins; the citation is at [citationTop] from the top of the
    column. *)
Definition loneSidenoteGeometry (citationTop : Z) : Geometry :=
  mkGeometry 1 (fun _ => []) false (Some 0) 1%positive
             (fun _ => citationTop) (fun _ => 0) (fun _ => 0) (fun _ => 5000)
             (fun _ => 100) [].

(** The same page measured in half pixels, with the citation 96.5 pixels
    from the top of the column. *)
Definition halfPixelGeometry : Geometry :=
  mkGeometry 1 (fun _ => []) false (Some 0) 2%positive
             (fun _ => 193) (fun _ => 0) (fun _ => 0) (fun _ => 10000)
             (fun _ => 200) [].

(** A page whose overlapping elements are listed out of vertical order:
    a figure between 300 and 400 comes in the document before a margin
    note between 100 and 200; columns 1000 high. *)
Definition unorderedGeometry : Geometry :=
  mkGeometry 1 (fun _ => []) false (Some 0) 1%positive
             (fun _ => 386) (fun _ => 0) (fun _ => 0) (fun _ => 1000)
             (fun _ => 100) [mkRange 300 400; mkRange 100 200].

(** A page whose columns start 1000 above the top of their offset parent
    ([offsetTop] is -1000): one sidenote, 1000 high, whose citation is 196
    below the top of the column; a figure between 100 and 200; columns
    2000 high. *)
Definition raisedColumnGeometry : Geometry :=
  mkGeometry 1 (fun _ => []) false (Some 0) 1%positive
             (fun _ => 196) (fun _ => 0) (fun _ => -1000) (fun _ => 2000)
             (fun _ => 1000) [mkRange 100 200].

(** Two sidenotes of the right column: the first, 500 high, at the top;
    the third, 400 high, with its citation 396 down columns 1000 high. *)
Definition crowdedGeometry : Geometry :=
  mkGeometry 3 (fun _ => []) false (Some 0) 1%positive
             (fun i => match i with 0%nat => 56 | 1%nat => 56 | _ => 396 end)
             (fun _ => 0) (fun _ => 0) (fun _ => 1000)
             (fun i => match i with 0%nat => 500 | 1%nat => 10 | _ => 400 end) [].

(** Two sidenotes of the right column, in columns 1000 high: the first,
    300 high, at 500; the third, 200 high, at 900, reaching past the end
    of the column. *)
Definition lowSidenoteGeometry : Geometry :=
  mkGeometry 3 (fun _ => []) false (Some 0) 1%positive
             (fun i => match i with 0%nat => 496 | 1%nat => 96 | _ => 896 end)
             (fun _ => 0) (fun _ => 0) (fun _ => 1000)
             (fun i => match i with 0%nat => 300 | 1%nat => 10 | _ => 200 end) [].


(** ** Properties *)

(** *** Sides and parity *)

Lemma sideOf_cases (i : nat) :
  (Nat.even i = true /\ sideOf i = ColumnRight) \/
  (Nat.odd i = true /\ sideOf i = ColumnLeft).
Proof.
  unfold sideOf.
  destruct (Nat.eqb_spec (i mod 2) 0) as [E|E].
  - left. split; [|reflexivity].
    apply Nat.even_spec. apply Nat.Div0.mod_divides in E.
    destruct E as [c ->]. exists c. reflexivity.
  - right. split; [|reflexivity].
    rewrite <- Nat.negb_even. destruct (Nat.even i) eqn:Ev; [|reflexivity].
    exfalso. apply E. apply Nat.even_spec in Ev. destruct Ev as [c ->].
    rewrite Nat.mul_comm. apply Nat.Div0.mod_mul.
Qed.

Lemma sideOf_even (i : nat) : Nat.even i = true -> sideOf i = ColumnRight.
Proof.
  intros Ev. destruct (sideOf_cases i) as [[_ H]|[Od _]]; [exact H|].
  rewrite <- Nat.negb_even, Ev in Od. discriminate.
Qed.

Lemma sideOf_odd (i : nat) : Nat.odd i = true -> sideOf i = ColumnLeft.
Proof.
  intros Od. destruct (sideOf_cases i) as [[Ev _]|[_ H]]; [|exact H].
  rewrite <- Nat.negb_even, Ev in Od. discriminate.
Qed.

Lemma sideOf_plus2 (i : nat) : sideOf (i + 2) = sideOf i.
Proof.
  unfold sideOf. replace (i + 2)%nat with (i + 1 * 2)%nat by lia.
  rewrite Nat.Div0.mod_add. reflexivity.
Qed.

Lemma onSide_iff (s : Side) (i : nat) : onSide s i = true <-> sideOf i = s.
Proof. unfold onSide. destruct s, (sideOf i); split; congruence. Qed.

Lemma onSide_sideOf (i : nat) : onSide (sideOf i) i = true.
Proof. apply onSide_iff. reflexivity. Qed.

Lemma onSide_other (s : Side) (i : nat) : sideOf i <> s -> onSide s i = false.
Proof.
  intros H. destruct (onSide s i) eqn:E; [|reflexivity].
  apply onSide_iff in E. contradiction.
Qed.

(** *** Containers *)

Lemma inb_In (x : nat) (l : list nat) : inb x l = true <-> In x l.
Proof.
  unfold inb. rewrite existsb_exists. split.
  - intros [y [Hy E]]. apply Nat.eqb_eq in E. subst. exact Hy.
  - intros H. exists x. split; [exact H | apply Nat.eqb_refl].
Qed.

Lemma inb_not_In (x : nat) (l : list nat) : inb x l = false <-> ~ In x l.
Proof.
  rewrite <- inb_In. destruct (inb x l); split; congruence.
Qed.

Lemma remove_filter_from (k : nat) (l : list nat) :
  remove Nat.eq_dec k (filter (fun x => Nat.leb k x) l)
  = filter (fun x => Nat.ltb k x) l.
Proof.
  induction l as [|a l IH]; cbn [filter remove]; [reflexivity|].
  destruct (Nat.leb_spec k a) as [Hka|Hka]; cbn [remove].
  - destruct (Nat.eq_dec k a) as [->|Hne].
    + rewrite IH, Nat.ltb_irrefl. reflexivity.
    + rewrite IH. destruct (Nat.ltb_spec k a); [reflexivity|lia].
  - rewrite IH. destruct (Nat.ltb_spec k a); [lia|reflexivity].
Qed.

Lemma remove_below (k : nat) (l : list nat) :
  (forall x, In x l -> (x < k)%nat) -> remove Nat.eq_dec k l = l.
Proof.
  intros H. apply notin_remove. intros Hin. apply H in Hin. lia.
Qed.

Lemma filter_seq_below (f : nat -> bool) (k x : nat) :
  In x (filter f (seq 0 k)) -> (x < k)%nat.
Proof.
  intros H. apply filter_In in H. destruct H as [H _].
  apply in_seq in H. lia.
Qed.

Lemma filter_seq_S (f : nat -> bool) (k : nat) :
  filter f (seq 0 (S k)) = filter f (seq 0 k) ++ (if f k then [k] else []).
Proof.
  rewrite seq_S, filter_app. simpl. destruct (f k); reflexivity.
Qed.

Lemma filter_seq_sorted (f : nat -> bool) (a k : nat) :
  StronglySorted lt (filter f (seq a k)).
Proof.
  revert a. induction k as [|k IH]; intros a; simpl; [constructor|].
  destruct (f a).
  - constructor; [apply IH|].
    apply Forall_forall. intros x Hx. apply filter_In in Hx.
    destruct Hx as [Hx _]. apply in_seq in Hx. lia.
  - apply IH.
Qed.

Lemma insertBeforeIn_app (x ref : nat) (l1 l2 : list nat) :
  ~ In ref l1 ->
  insertBeforeIn x ref (l1 ++ ref :: l2) = Some (l1 ++ x :: ref :: l2).
Proof.
  induction l1 as [|a l1 IH]; intros Hn; cbn [app insertBeforeIn].
  - rewrite Nat.eqb_refl. reflexivity.
  - destruct (Nat.eqb_spec a ref) as [->|_].
    + exfalso. apply Hn. left. reflexivity.
    + rewrite IH; [reflexivity|]. intros H. apply Hn. right. exact H.
Qed.

Lemma sorted_filter_from (k r : nat) (l : list nat) :
  StronglySorted lt l -> In r l -> (k < r)%nat ->
  (forall x, In x l -> (k < x)%nat -> (r <= x)%nat) ->
  filter (fun x => Nat.ltb k x) l = r :: filter (fun x => Nat.ltb r x) l.
Proof.
  intros Hs. induction Hs as [|a l Hs IH Ha]; intros Hin Hkr Hmin; [contradiction|].
  rewrite Forall_forall in Ha. cbn [filter].
  destruct Hin as [->|Hin].
  - destruct (Nat.ltb_spec k r); [|lia]. rewrite Nat.ltb_irrefl. f_equal.
    apply filter_ext_in. intros x Hx. specialize (Ha x Hx).
    destruct (Nat.ltb_spec k x), (Nat.ltb_spec r x); reflexivity || lia.
  - assert (a < r)%nat by (apply Ha; exact Hin).
    destruct (Nat.ltb_spec k a) as [Hka|Hka].
    + specialize (Hmin a (or_introl eq_refl) Hka). lia.
    + destruct (Nat.ltb_spec r a); [lia|].
      apply IH; auto. intros x Hx. apply Hmin. right. exact Hx.
Qed.

Lemma filter_none (f : nat -> bool) (l : list nat) :
  (forall x, In x l -> f x = false) -> filter f l = [].
Proof.
  induction l as [|a l IH]; intros H; cbn [filter]; [reflexivity|].
  rewrite (H a (or_introl eq_refl)). apply IH. intros x Hx. apply H. right. exact Hx.
Qed.

Lemma same_side_step (k x : nat) :
  sideOf x = sideOf k -> (k < x)%nat -> exists m, x = (k + 2 + 2 * m)%nat.
Proof.
  intros Hs Hlt.
  destruct (sideOf_cases x) as [[Ex Sx]|[Ox Sx]], (sideOf_cases k) as [[Ek Sk]|[Ok Sk]];
    try congruence.
  - apply Nat.even_spec in Ex, Ek. destruct Ex as [a ->], Ek as [b ->].
    exists (a - b - 1)%nat. lia.
  - apply Nat.odd_spec in Ox, Ok. destruct Ox as [a ->], Ok as [b ->].
    exists (a - b - 1)%nat. lia.
Qed.

Lemma sideOf_steps (k m : nat) : sideOf (k + 2 * m) = sideOf k.
Proof.
  induction m as [|m IH].
  - f_equal. lia.
  - replace (k + 2 * S m)%nat with ((k + 2 * m) + 2)%nat by lia.
    rewrite sideOf_plus2. exact IH.
Qed.

(** The [while] loop stops on the first index of the same parity that is
    past the end or not stored. *)
Lemma nextDisplayedFrom_spec (steps : nat) (d : Page) (n j : nat) :
  (n <= j + 2 * steps)%nat ->
  let r := nextDisplayedFrom steps d n j in
  (exists m, r = (j + 2 * m)%nat)
  /\ (forall m', (j + 2 * m' < r)%nat ->
        (j + 2 * m' < n)%nat /\ inHiddenStorage d (j + 2 * m') = true)
  /\ ((r < n)%nat -> inHiddenStorage d r = false).
Proof.
  revert j. induction steps as [|steps IH]; intros j Hb; cbn [nextDisplayedFrom].
  - cbn zeta. split; [exists 0%nat; lia|]. split; intros; lia.
  - destruct (Nat.ltb_spec j n) as [Hjn|Hjn]; cbn [andb].
    + destruct (inHiddenStorage d j) eqn:Hh.
      * destruct (IH (j + 2)%nat ltac:(lia)) as [[m Hm] [Hbetween Hr]].
        cbn zeta in *. split; [exists (S m); lia|]. split; [|exact Hr].
        intros m' Hm'. destruct m' as [|m'].
        -- replace (j + 2 * 0)%nat with j by lia. auto.
        -- replace (j + 2 * S m')%nat with (j + 2 + 2 * m')%nat in * by lia.
           apply Hbetween. exact Hm'.
      * cbn zeta. split; [exists 0%nat; lia|]. split; intros; [lia|exact Hh].
    + cbn zeta. split; [exists 0%nat; lia|]. split; intros; lia.
Qed.

Lemma displayedOn_below (g : Geometry) (s : Side) (k x : nat) :
  In x (displayedOn g s k) -> (x < k)%nat.
Proof. apply filter_seq_below. Qed.

Lemma storedBelow_below (g : Geometry) (k x : nat) :
  In x (storedBelow g k) -> (x < k)%nat.
Proof. apply filter_seq_below. Qed.

Lemma children_detach (x : nat) (d : Page) (s : Side) :
  children (detach x d) s = remove Nat.eq_dec x (children d s).
Proof. destruct s; reflexivity. Qed.

Lemma Side_eq_dec (s s' : Side) : {s = s'} + {s <> s'}.
Proof. decide equality. Defined.

Lemma children_withChildren_same (d : Page) (s : Side) (l : list nat) :
  children (withChildren d s l) s = l.
Proof. destruct s; reflexivity. Qed.

Lemma children_withChildren_other (d : Page) (s s' : Side) (l : list nat) :
  s' <> s -> children (withChildren d s l) s' = children d s'.
Proof. destruct s, s'; intros H; congruence || reflexivity. Qed.

Lemma hidden_withChildren (d : Page) (s : Side) (l : list nat) :
  hiddenSidenoteStorage (withChildren d s l) = hiddenSidenoteStorage d.
Proof. destruct s; reflexivity. Qed.

Lemma styleTop_withChildren (d : Page) (s : Side) (l : list nat) :
  styleTop (withChildren d s l) = styleTop d.
Proof. destruct s; reflexivity. Qed.

Lemma shown_withChildren (d : Page) (s : Side) (l : list nat) :
  leftColumnShown (withChildren d s l) = leftColumnShown d
  /\ rightColumnShown (withChildren d s l) = rightColumnShown d.
Proof. destruct s; split; reflexivity. Qed.

Section Reclassification.

Variable g : Geometry.
Variable d0 : Page.
Hypothesis wf0 : wellFormed (footnoteRefs_length g) d0.

Lemma remove_treated (s : Side) (k : nat) :
  remove Nat.eq_dec k
         (displayedOn g s k ++ filter (fun x => Nat.leb k x) (children d0 s))
  = displayedOn g s k ++ filter (fun x => Nat.ltb k x) (children d0 s).
Proof.
  rewrite remove_app, remove_filter_from.
  rewrite (remove_below k (displayedOn g s k)); [reflexivity|].
  intros x. apply displayedOn_below.
Qed.

Lemma stored_later (k x : nat) (d : Page) :
  reclassifiedBelow g d0 k d -> (k < x)%nat ->
  inHiddenStorage d x = true -> In x (hiddenSidenoteStorage d0).
Proof.
  intros (_ & Hh & _) Hlt Hin. unfold inHiddenStorage in Hin.
  apply inb_In in Hin. rewrite Hh in Hin. apply in_app_or in Hin.
  destruct Hin as [Hin|Hin].
  - apply filter_In in Hin. tauto.
  - apply storedBelow_below in Hin. lia.
Qed.

Lemma not_stored_later (k x : nat) (d : Page) :
  reclassifiedBelow g d0 k d -> (k < x)%nat ->
  inHiddenStorage d x = false -> ~ In x (hiddenSidenoteStorage d0).
Proof.
  intros (_ & Hh & _) Hlt Hin Hx. unfold inHiddenStorage in Hin.
  apply inb_not_In in Hin. apply Hin. rewrite Hh. apply in_or_app. left.
  apply filter_In. split; [exact Hx|]. apply Nat.leb_le. lia.
Qed.

Lemma collapseBlocksBody_step (k : nat) (d : Page) :
  (k < footnoteRefs_length g)%nat ->
  reclassifiedBelow g d0 k d ->
  exists d', collapseBlocksBody g k d = (Normal, d')
             /\ reclassifiedBelow g d0 (S k) d'.
Proof.
  intros Hk Inv. pose proof Inv as (Hc & Hh & Ht & Hl & Hr).
  unfold collapseBlocksBody. fold (collapsed g k).
  destruct (collapsed g k) eqn:Hcol.
  - (* moved to the storage *)
    eexists. split; [reflexivity|].
    split; [|split; [|auto]].
    + intros s. unfold displayedOn. rewrite filter_seq_S, Hcol. cbn [negb andb].
      rewrite app_nil_r. fold (displayedOn g s k).
      transitivity (remove Nat.eq_dec k (children d s)); [destruct s; reflexivity|].
      rewrite Hc. apply remove_treated.
    + unfold storedBelow. rewrite filter_seq_S, Hcol. fold (storedBelow g k).
      cbn [appendToHiddenStorage detach hiddenSidenoteStorage].
      rewrite Hh, remove_app, remove_filter_from.
      rewrite (remove_below k (storedBelow g k)) by (intros x; apply storedBelow_below).
      rewrite app_assoc. reflexivity.
  - (* displayed: put back in its column *)
    set (n := footnoteRefs_length g) in *.
    destruct (nextDisplayedFrom_spec n d n (k + 2) ltac:(lia)) as [[m Hm] [Hbetween Hstop]].
    set (r := nextDisplayedFrom n d n (k + 2)) in *. cbn zeta in *.
    set (s := sideOf k).
    (* no child of the column of [k] in the original page lies between [k] and [r] *)
    assert (Hgap : forall x, In x (children d0 s) -> (k < x)%nat -> (r <= x)%nat).
    { intros x Hx Hkx.
      destruct (same_side_step k x (wf_side _ _ wf0 s x Hx) Hkx) as [m' ->].
      destruct (Nat.le_gt_cases r (k + 2 + 2 * m')) as [|Hlt]; [assumption|].
      destruct (Hbetween m' Hlt) as [_ Hst].
      apply (stored_later k _ d Inv) in Hst; [|lia].
      exfalso. exact (wf_one_parent _ _ wf0 s _ Hx Hst). }
    assert (Hstored : hiddenSidenoteStorage (detach k d)
                      = filter (fun x => Nat.leb (S k) x) (hiddenSidenoteStorage d0)
                        ++ storedBelow g (S k)).
    { cbn [detach hiddenSidenoteStorage].
      rewrite Hh, remove_app, remove_filter_from.
      rewrite (remove_below k (storedBelow g k)) by (intros x; apply storedBelow_below).
      unfold storedBelow at 2. rewrite filter_seq_S, Hcol, app_nil_r. reflexivity. }
    assert (Hother : forall s', s' <> s ->
              children (detach k d) s'
              = displayedOn g s' (S k) ++ filter (fun x => Nat.leb (S k) x) (children d0 s')).
    { intros s' Hne. rewrite children_detach, Hc, remove_treated.
      unfold displayedOn at 2. rewrite filter_seq_S, Hcol.
      rewrite (onSide_other s' k) by (fold s; congruence).
      cbn [negb andb]. rewrite app_nil_r. reflexivity. }
    assert (Hdisp : displayedOn g s (S k) = displayedOn g s k ++ [k]).
    { unfold displayedOn. rewrite filter_seq_S, Hcol. unfold s.
      rewrite onSide_sideOf. reflexivity. }
    destruct (Nat.leb_spec n r) as [Hend|Hfound].
    + (* appended *)
      eexists. split; [reflexivity|].
      assert (Hnone : filter (fun x => Nat.ltb k x) (children d0 s) = []).
      { apply filter_none. intros x Hx. apply Nat.ltb_ge.
        destruct (Nat.le_gt_cases x k) as [|Hkx]; [assumption|].
        specialize (Hgap x Hx Hkx).
        assert (x < n)%nat; [|lia].
        apply (wf_all _ _ wf0). destruct s; [left|right; left]; exact Hx. }
      split; [|split; [|split; [|split]]].
      * intros s'. unfold appendChild. fold s.
        destruct (Side_eq_dec s' s) as [->|Hne].
        -- rewrite children_withChildren_same, children_detach, Hc, remove_treated.
           rewrite Hnone, app_nil_r, Hdisp.
           change (fun x => Nat.leb (S k) x) with (fun x => Nat.ltb k x).
           rewrite Hnone, app_nil_r. reflexivity.
        -- rewrite children_withChildren_other by exact Hne. apply Hother, Hne.
      * unfold appendChild. rewrite hidden_withChildren. exact Hstored.
      * unfold appendChild. rewrite styleTop_withChildren. exact Ht.
      * unfold appendChild. rewrite (proj1 (shown_withChildren _ _ _)). exact Hl.
      * unfold appendChild. rewrite (proj2 (shown_withChildren _ _ _)). exact Hr.
    + (* inserted before [r] *)
      assert (Hkr : (k < r)%nat) by lia.
      assert (Hrin : In r (children d0 s)).
      { pose proof (not_stored_later k r d Inv Hkr (Hstop Hfound)) as Hns.
        assert (Hsr : sideOf r = s).
        { rewrite Hm. replace (k + 2 + 2 * m)%nat with (k + 2 * (S m))%nat by lia.
          apply sideOf_steps. }
        destruct (proj1 (wf_all _ _ wf0 r) Hfound) as [Hx|[Hx|Hx]]; [| |contradiction].
        - pose proof (wf_side _ _ wf0 ColumnLeft r Hx) as E. rewrite <- Hsr, E. exact Hx.
        - pose proof (wf_side _ _ wf0 ColumnRight r Hx) as E. rewrite <- Hsr, E. exact Hx. }
      pose proof (sorted_filter_from k r (children d0 s) (wf_sorted _ _ wf0 s) Hrin Hkr Hgap)
        as Hfrom.
      unfold insertBefore. fold s.
      assert (Hin : inb r (children d s) = true).
      { apply inb_In. rewrite Hc. apply in_or_app. right. apply filter_In.
        split; [exact Hrin|]. apply Nat.leb_le. lia. }
      rewrite Hin. cbv zeta.
      rewrite children_detach, Hc, remove_treated, Hfrom.
      rewrite insertBeforeIn_app
        by (intros Hx; apply displayedOn_below in Hx; lia).
      eexists. split; [reflexivity|].
      split; [|split; [|split; [|split]]].
      * intros s'. destruct (Side_eq_dec s' s) as [->|Hne].
        -- rewrite children_withChildren_same, Hdisp, <- app_assoc. cbn [app].
           change (fun x => Nat.leb (S k) x) with (fun x => Nat.ltb k x).
           rewrite Hfrom. reflexivity.
        -- rewrite children_withChildren_other by exact Hne. apply Hother, Hne.
      * rewrite hidden_withChildren. exact Hstored.
      * rewrite styleTop_withChildren. exact Ht.
      * rewrite (proj1 (shown_withChildren _ _ _)). exact Hl.
      * rewrite (proj2 (shown_withChildren _ _ _)). exact Hr.
Qed.

End Reclassification.

Lemma forEach_reclassifies (g : Geometry) (d0 : Page) :
  wellFormed (footnoteRefs_length g) d0 ->
  forall m k d,
    (k + m = footnoteRefs_length g)%nat ->
    reclassifiedBelow g d0 k d ->
    exists d', forEach (collapseBlocksBody g) (seq k m) d = (Normal, d')
               /\ reclassifiedBelow g d0 (footnoteRefs_length g) d'.
Proof.
  intros wf0. induction m as [|m IH]; intros k d Hkm Inv; cbn [seq forEach].
  - exists d. split; [reflexivity|]. replace (footnoteRefs_length g) with k by lia.
    exact Inv.
  - destruct (collapseBlocksBody_step g d0 wf0 k d ltac:(lia) Inv) as [d1 [E Inv1]].
    rewrite E. apply IH; [lia|exact Inv1].
Qed.

Lemma filter_all (f : nat -> bool) (l : list nat) :
  (forall x, In x l -> f x = true) -> filter f l = l.
Proof.
  induction l as [|a l IH]; intros H; cbn [filter]; [reflexivity|].
  rewrite (H a (or_introl eq_refl)). f_equal. apply IH. intros x Hx. apply H. right. exact Hx.
Qed.

Lemma wellFormed_below (n : nat) (d : Page) :
  wellFormed n d ->
  (forall s x, In x (children d s) -> (x < n)%nat)
  /\ (forall x, In x (hiddenSidenoteStorage d) -> (x < n)%nat).
Proof.
  intros wf. split.
  - intros s x Hx. apply (wf_all _ _ wf). destruct s; [left|right; left]; exact Hx.
  - intros x Hx. apply (wf_all _ _ wf). right; right. exact Hx.
Qed.

(** The reclassification, on a well-formed page: it completes, leaves in
    each column the displayed sidenotes of its parity and in the storage
    the others, in the order of the indices, and touches nothing else. *)
Lemma updateSidenotesInCollapseBlocks_spec (g : Geometry) (d0 : Page) :
  wellFormed (footnoteRefs_length g) d0 ->
  exists d, updateSidenotesInCollapseBlocks g d0 = (Normal, d)
    /\ (forall s, children d s = displayedOn g s (footnoteRefs_length g))
    /\ hiddenSidenoteStorage d = storedBelow g (footnoteRefs_length g)
    /\ styleTop d = styleTop d0
    /\ leftColumnShown d = leftColumnShown d0
    /\ rightColumnShown d = rightColumnShown d0.
Proof.
  intros wf0. destruct (wellFormed_below _ _ wf0) as [Hc0 Hh0].
  destruct (forEach_reclassifies g d0 wf0 (footnoteRefs_length g) 0%nat d0 eq_refl)
    as [d [E (Hc & Hh & Ht & Hl & Hr)]].
  - split; [|split; [|auto]].
    + intros s. cbn [displayedOn seq filter app]. symmetry. apply filter_all. reflexivity.
    + cbn [storedBelow seq filter]. rewrite app_nil_r. symmetry. apply filter_all. reflexivity.
  - exists d. split; [exact E|]. split; [|split; [|auto]].
    + intros s. rewrite Hc, filter_none, app_nil_r; [reflexivity|].
      intros x Hx. apply Nat.leb_gt. eapply Hc0, Hx.
    + rewrite Hh, filter_none; [reflexivity|].
      intros x Hx. apply Nat.leb_gt. apply Hh0, Hx.
Qed.

Lemma wellFormed_of_lists (g : Geometry) (d : Page) :
  (forall s, children d s = displayedOn g s (footnoteRefs_length g)) ->
  hiddenSidenoteStorage d = storedBelow g (footnoteRefs_length g) ->
  wellFormed (footnoteRefs_length g) d.
Proof.
  intros Hc Hh. constructor.
  - intros s. rewrite Hc. apply filter_seq_sorted.
  - intros s i. rewrite Hc. intros Hi. apply filter_In in Hi.
    destruct Hi as [_ Hi]. apply andb_true_iff in Hi. apply onSide_iff. tauto.
  - rewrite Hh. apply NoDup_filter, seq_NoDup.
  - intros s i. rewrite Hc, Hh. intros Hi Hs.
    apply filter_In in Hi, Hs. destruct Hi as [_ Hi], Hs as [_ Hs].
    rewrite Hs in Hi. discriminate.
  - intros i. change (sidenoteColumnLeft d) with (children d ColumnLeft).
    change (sidenoteColumnRight d) with (children d ColumnRight).
    rewrite !Hc, Hh. unfold displayedOn, storedBelow. rewrite !filter_In, !in_seq.
    split.
    + intros Hi. destruct (collapsed g i) eqn:Hcol.
      * right; right. split; [lia|reflexivity].
      * destruct (sideOf i) eqn:Hs.
        -- left. split; [lia|]. unfold onSide. rewrite Hs. reflexivity.
        -- right; left. split; [lia|]. unfold onSide. rewrite Hs. reflexivity.
    + intros [[H _]|[[H _]|[H _]]]; lia.
Qed.

(** *** constructSidenotes *)

Lemma constructSidenotes_spec (n : nat) :
  constructSidenotes n
  = mkPage (filter (onSide ColumnLeft) (seq 0 n)) (filter (onSide ColumnRight) (seq 0 n))
           [] (fun _ => 0) false false.
Proof.
  unfold constructSidenotes. induction n as [|n IH]; [reflexivity|].
  rewrite seq_S, fold_left_app, IH. cbn [fold_left Nat.add].
  unfold appendChild, detach.
  cbn [sidenoteColumnLeft sidenoteColumnRight hiddenSidenoteStorage remove
       styleTop leftColumnShown rightColumnShown].
  rewrite !remove_below by (intros x; apply filter_seq_below).
  rewrite !filter_app. cbn [filter].
  destruct (sideOf n) eqn:Hs; unfold onSide; rewrite Hs; cbn [withChildren children
       sidenoteColumnLeft sidenoteColumnRight hiddenSidenoteStorage
       styleTop leftColumnShown rightColumnShown];
    rewrite ?app_nil_r; reflexivity.
Qed.

Lemma constructSidenotes_wellFormed (n : nat) : wellFormed n (constructSidenotes n).
Proof.
  rewrite constructSidenotes_spec. constructor.
  - intros []; apply filter_seq_sorted.
  - intros [] i Hi; apply filter_In in Hi; apply onSide_iff; tauto.
  - constructor.
  - intros s i _ [].
  - intros i. cbn [sidenoteColumnLeft sidenoteColumnRight hiddenSidenoteStorage].
    rewrite !filter_In, !in_seq. split.
    + intros Hi. destruct (sideOf i) eqn:Hs; [left|right; left];
        (split; [lia|]); unfold onSide; rewrite Hs; reflexivity.
    + intros [[H _]|[[H _]|[]]]; lia.
Qed.

(** *** The first loop *)

Lemma initialLayout_from (g : Geometry) (m a : nat) (d : Page) :
  let d' := fold_left (initialLayoutBody g) (seq a m) d in
  sidenoteColumnLeft d' = sidenoteColumnLeft d
  /\ sidenoteColumnRight d' = sidenoteColumnRight d
  /\ hiddenSidenoteStorage d' = hiddenSidenoteStorage d
  /\ leftColumnShown d' = leftColumnShown d
  /\ rightColumnShown d' = rightColumnShown d
  /\ forall i, styleTop d' i
               = if Nat.leb a i && Nat.ltb i (a + m) && negb (inHiddenStorage d i)
                 then defaultTop g i else styleTop d i.
Proof.
  revert a d. induction m as [|m IH]; intros a d; cbn [seq fold_left].
  - cbn zeta. repeat split; try reflexivity. intros i.
    destruct (Nat.leb_spec a i), (Nat.ltb_spec i (a + 0)); try reflexivity; lia.
  - specialize (IH (S a) (initialLayoutBody g d a)). cbn zeta in *.
    destruct IH as (Hl & Hr & Hh & Hsl & Hsr & Ht).
    assert (Hsame : sidenoteColumnLeft (initialLayoutBody g d a) = sidenoteColumnLeft d
                    /\ sidenoteColumnRight (initialLayoutBody g d a) = sidenoteColumnRight d
                    /\ hiddenSidenoteStorage (initialLayoutBody g d a) = hiddenSidenoteStorage d
                    /\ leftColumnShown (initialLayoutBody g d a) = leftColumnShown d
                    /\ rightColumnShown (initialLayoutBody g d a) = rightColumnShown d).
    { unfold initialLayoutBody. destruct (inHiddenStorage d a); repeat split; reflexivity. }
    destruct Hsame as (El & Er & Eh & Esl & Esr).
    rewrite Hl, Hr, Hh, Hsl, Hsr. repeat split; try assumption.
    intros i. rewrite Ht. unfold inHiddenStorage at 1. rewrite Eh.
    fold (inHiddenStorage d i).
    unfold initialLayoutBody.
    destruct (Nat.eqb_spec i a) as [->|Hne].
    + destruct (Nat.leb_spec (S a) a); [lia|]. cbn [andb].
      destruct (Nat.leb_spec a a); [|lia]. destruct (Nat.ltb_spec a (a + S m)); [|lia].
      cbn [andb]. destruct (inHiddenStorage d a); cbn [negb]; [reflexivity|].
      cbn [setStyleTop styleTop]. rewrite Nat.eqb_refl. reflexivity.
    + assert (E : styleTop (if inHiddenStorage d a then d
                            else setStyleTop a (defaultTop g a) d) i = styleTop d i).
      { destruct (inHiddenStorage d a); [reflexivity|]. cbn [setStyleTop styleTop].
        destruct (Nat.eqb_spec i a); [contradiction|reflexivity]. }
      rewrite E.
      destruct (Nat.leb_spec (S a) i), (Nat.leb_spec a i),
        (Nat.ltb_spec i (S a + m)), (Nat.ltb_spec i (a + S m)); try reflexivity; lia.
Qed.

Lemma initialLayout_spec (g : Geometry) (d : Page) :
  sidenoteColumnLeft (initialLayout g d) = sidenoteColumnLeft d
  /\ sidenoteColumnRight (initialLayout g d) = sidenoteColumnRight d
  /\ hiddenSidenoteStorage (initialLayout g d) = hiddenSidenoteStorage d
  /\ leftColumnShown (initialLayout g d) = leftColumnShown d
  /\ rightColumnShown (initialLayout g d) = rightColumnShown d
  /\ forall i, styleTop (initialLayout g d) i
               = if Nat.ltb i (footnoteRefs_length g) && negb (inHiddenStorage d i)
                 then defaultTop g i else styleTop d i.
Proof.
  pose proof (initialLayout_from g (footnoteRefs_length g) 0 d) as H.
  cbn zeta in H. exact H.
Qed.

(** *** Siblings *)

Lemma nextIn_split (i j : nat) (l : list nat) :
  nextIn i l = Some j ->
  exists l1 l2, l = l1 ++ i :: j :: l2 /\ ~ In i l1.
Proof.
  induction l as [|x l IH]; cbn [nextIn]; [discriminate|].
  destruct (Nat.eqb_spec x i) as [->|Hne].
  - destruct l as [|y l]; cbn [hd_error]; [discriminate|].
    intros E. inversion E; subst. exists [], l. split; [reflexivity|]. intros [].
  - intros E. destruct (IH E) as (l1 & l2 & -> & Hn).
    exists (x :: l1), l2. split; [reflexivity|].
    intros [H|H]; [congruence|contradiction].
Qed.

Lemma previousIn_split (i a : nat) (l : list nat) :
  previousIn i l = Some a ->
  exists l1 l2, l = l1 ++ a :: i :: l2.
Proof.
  induction l as [|x l IH]; cbn [previousIn]; [discriminate|].
  destruct l as [|y l]; [discriminate|].
  destruct (Nat.eqb_spec y i) as [->|Hne].
  - intros E. inversion E; subst. exists [], l. reflexivity.
  - intros E. destruct (IH E) as (l1 & l2 & ->).
    exists (x :: l1), l2. reflexivity.
Qed.

Lemma sorted_adjacent (l1 l2 : list nat) (a b : nat) :
  StronglySorted lt (l1 ++ a :: b :: l2) -> (a < b)%nat.
Proof.
  induction l1 as [|x l1 IH]; cbn [app]; intros Hs.
  - inversion Hs as [|? ? _ Hall]; subst. inversion Hall; subst. assumption.
  - inversion Hs; subst. apply IH. assumption.
Qed.

Lemma nextIn_sorted (i j : nat) (l : list nat) :
  StronglySorted lt l -> nextIn i l = Some j -> (i < j)%nat /\ In j l /\ In i l.
Proof.
  intros Hs E. destruct (nextIn_split i j l E) as (l1 & l2 & -> & _).
  split; [exact (sorted_adjacent _ _ _ _ Hs)|].
  split; apply in_or_app; right; cbn; auto.
Qed.

Lemma previousIn_sorted (i a : nat) (l : list nat) :
  StronglySorted lt l -> previousIn i l = Some a -> (a < i)%nat /\ In a l.
Proof.
  intros Hs E. destruct (previousIn_split i a l E) as (l1 & l2 & ->).
  split; [exact (sorted_adjacent _ _ _ _ Hs)|].
  apply in_or_app; right; cbn; auto.
Qed.

Lemma siblingsOf_displayed (n : nat) (d : Page) (i : nat) :
  wellFormed n d -> (i < n)%nat -> inHiddenStorage d i = false ->
  siblingsOf d i = children d (sideOf i) /\ In i (children d (sideOf i)).
Proof.
  intros wf Hi Hh. unfold inHiddenStorage in Hh. apply inb_not_In in Hh.
  unfold siblingsOf.
  destruct (proj1 (wf_all _ _ wf i) Hi) as [Hx|[Hx|Hx]]; [| |contradiction].
  - rewrite (proj2 (inb_In _ _) Hx).
    rewrite (wf_side _ _ wf ColumnLeft i Hx). split; [reflexivity|exact Hx].
  - destruct (inb i (sidenoteColumnLeft d)) eqn:El.
    + apply inb_In in El.
      pose proof (wf_side _ _ wf ColumnLeft i El). pose proof (wf_side _ _ wf ColumnRight i Hx).
      congruence.
    + rewrite (proj2 (inb_In _ _) Hx).
      rewrite (wf_side _ _ wf ColumnRight i Hx). split; [reflexivity|exact Hx].
Qed.

(** In a well-formed page the siblings of a displayed sidenote are the
    displayed sidenotes of its column next to it in the order of the
    indices. *)
Lemma nextElementSibling_displayed (n : nat) (d : Page) (i j : nat) :
  wellFormed n d -> (i < n)%nat -> inHiddenStorage d i = false ->
  nextElementSibling d i = Some j ->
  (i < j)%nat /\ (j < n)%nat /\ sideOf j = sideOf i /\ inHiddenStorage d j = false.
Proof.
  intros wf Hi Hh E. unfold nextElementSibling in E.
  destruct (siblingsOf_displayed n d i wf Hi Hh) as [Es _]. rewrite Es in E.
  destruct (nextIn_sorted i j _ (wf_sorted _ _ wf _) E) as (Hlt & Hj & _).
  split; [exact Hlt|]. split; [|split].
  - apply (wellFormed_below _ _ wf) in Hj. exact Hj.
  - exact (wf_side _ _ wf _ _ Hj).
  - apply inb_not_In. exact (wf_one_parent _ _ wf _ _ Hj).
Qed.

Lemma previousElementSibling_displayed (n : nat) (d : Page) (i a : nat) :
  wellFormed n d -> (i < n)%nat -> inHiddenStorage d i = false ->
  previousElementSibling d i = Some a ->
  (a < i)%nat /\ sideOf a = sideOf i /\ inHiddenStorage d a = false.
Proof.
  intros wf Hi Hh E. unfold previousElementSibling in E.
  destruct (siblingsOf_displayed n d i wf Hi Hh) as [Es _]. rewrite Es in E.
  destruct (previousIn_sorted i a _ (wf_sorted _ _ wf _) E) as (Hlt & Ha).
  split; [exact Hlt|]. split.
  - exact (wf_side _ _ wf _ _ Ha).
  - apply inb_not_In. exact (wf_one_parent _ _ wf _ _ Ha).
Qed.

Lemma wellFormed_lists (n : nat) (d d' : Page) :
  sidenoteColumnLeft d' = sidenoteColumnLeft d ->
  sidenoteColumnRight d' = sidenoteColumnRight d ->
  hiddenSidenoteStorage d' = hiddenSidenoteStorage d ->
  wellFormed n d -> wellFormed n d'.
Proof.
  intros El Er Eh wf.
  assert (Ec : forall s, children d' s = children d s) by (intros []; assumption).
  constructor.
  - intros s. rewrite Ec. apply wf.
  - intros s i. rewrite Ec. apply wf.
  - rewrite Eh. apply wf.
  - intros s i. rewrite Ec, Eh. apply wf.
  - intros i. rewrite El, Er, Eh. apply wf.
Qed.

Lemma wellFormed_sameContainers (n : nat) (d d' : Page) :
  sameContainers d d' -> wellFormed n d -> wellFormed n d'.
Proof. intros (El & Er & Eh & _). apply wellFormed_lists; assumption. Qed.

Lemma sameContainers_refl (d : Page) : sameContainers d d.
Proof. repeat split. Qed.

Lemma sameContainers_trans (d1 d2 d3 : Page) :
  sameContainers d1 d2 -> sameContainers d2 d3 -> sameContainers d1 d3.
Proof.
  intros (A1 & A2 & A3 & A4 & A5) (B1 & B2 & B3 & B4 & B5).
  repeat split; congruence.
Qed.

Lemma sameContainers_setStyleTop (i : nat) (v : Z) (d : Page) :
  sameContainers d (setStyleTop i v d).
Proof. repeat split. Qed.

Lemma sameContainers_siblings (d d' : Page) (i : nat) :
  sameContainers d d' ->
  nextElementSibling d' i = nextElementSibling d i
  /\ previousElementSibling d' i = previousElementSibling d i
  /\ inHiddenStorage d' i = inHiddenStorage d i.
Proof.
  intros (El & Er & Eh & _).
  unfold nextElementSibling, previousElementSibling, siblingsOf, inHiddenStorage.
  rewrite El, Er, Eh. repeat split.
Qed.
(** *** One turn of the second loop *)

Lemma correctOverlap_hidden (g : Geometry) (ranges : list Range) (i : nat) (d : Page) :
  inHiddenStorage d i = true -> correctOverlap g ranges i d = (InStorage, d).
Proof. intros H. unfold correctOverlap. rewrite H. reflexivity. Qed.

Lemma styleTop_setStyleTop (i : nat) (v : Z) (d : Page) (j : nat) :
  styleTop (setStyleTop i v d) j = if Nat.eqb j i then v else styleTop d j.
Proof. reflexivity. Qed.

Lemma styleTop_setStyleTop_same (i : nat) (v : Z) (d : Page) :
  styleTop (setStyleTop i v d) i = v.
Proof. rewrite styleTop_setStyleTop, Nat.eqb_refl. reflexivity. Qed.

Lemma styleTop_setStyleTop_other (i : nat) (v : Z) (d : Page) (j : nat) :
  j <> i -> styleTop (setStyleTop i v d) j = styleTop d j.
Proof.
  intros H. rewrite styleTop_setStyleTop.
  destruct (Nat.eqb_spec j i); [contradiction|reflexivity].
Qed.

Lemma othersKept_set (i : nat) (v : Z) (d : Page) (nx : option nat) :
  othersKept i nx d (setStyleTop i v d).
Proof. intros j Hj _. apply styleTop_setStyleTop_other, Hj. Qed.

Lemma othersKept_refl (i : nat) (nx : option nat) (d : Page) : othersKept i nx d d.
Proof. intros j _ _. reflexivity. Qed.

Lemma resolveOverlapBelow_cases (g : Geometry) (ranges : list Range) (i : nat)
      (room : Room) (nx next : option nat) (fp : Range) (d : Page)
      (how : Disposition) (d' : Page) :
  (forall b, next = Some b -> b <> i) ->
  resolveOverlapBelow g ranges i room nx next fp d = (how, d') ->
  sameContainers d d' /\
  match how with
  | NeedsNoAdjustment | LeftInPlace | TypeError => d' = d
  | MovedUp => othersKept i None d d'
  | MovedToNextSpace =>
      othersKept i None d d'
      /\ exists k r, nx = Some k /\ nth_error ranges k = Some r
                     /\ styleTop d' i = bottom r + sidenoteSpacing g
  | MovedUpAndPushedNext => othersKept i next d d'
  | _ => False
  end.
Proof.
  intros Hnext. unfold resolveOverlapBelow.
  set (overlapWithNextSidenote :=
         match next with Some b => bottom fp - offsetTop d b | None => -1 end).
  set (overlapBelow := Z.max overlapWithNextSidenote (bottom fp - floor room)).
  set (headroom := match previousElementSibling d i with
                   | Some previous => _
                   | None => _
                   end).
  destruct (overlapBelow <=? 0).
  { intros E. inversion E; subst. split; [apply sameContainers_refl|reflexivity]. }
  destruct (headroom >=? overlapBelow).
  { intros E. inversion E; subst. split; [apply sameContainers_setStyleTop|].
    apply othersKept_set. }
  destruct (headroom <? bottom fp - floor room).
  { destruct nx as [k|].
    - destruct (nth_error ranges k) as [r|] eqn:Hr; intros E; inversion E; subst.
      + split; [apply sameContainers_setStyleTop|].
        split; [apply othersKept_set|].
        exists k, r. split; [reflexivity|]. split; [exact Hr|].
        apply styleTop_setStyleTop_same.
      + split; [apply sameContainers_refl|reflexivity].
    - intros E; inversion E; subst. split; [apply sameContainers_refl|reflexivity]. }
  destruct next as [b|];
    [|intros E; inversion E; subst; split; [apply sameContainers_refl|reflexivity]].
  destruct nx as [k|];
    [|intros E; inversion E; subst; split; [apply sameContainers_refl|reflexivity]].
  destruct (nth_error ranges k) as [r|];
    [|intros E; inversion E; subst; split; [apply sameContainers_refl|reflexivity]].
  destruct (_ >? top r).
  { intros E; inversion E; subst. split; [apply sameContainers_refl|reflexivity]. }
  intros E; inversion E; subst. clear E.
  split.
  { eapply sameContainers_trans; apply sameContainers_setStyleTop. }
  intros j Hj Hjb. rewrite !styleTop_setStyleTop.
  destruct (Nat.eqb_spec j b) as [->|_]; [congruence|].
  destruct (Nat.eqb_spec j i); [contradiction|reflexivity].
Qed.

Lemma correctOverlap_cases (n : nat) (g : Geometry) (ranges : list Range) (i : nat)
      (d : Page) (how : Disposition) (d' : Page) :
  wellFormed n d -> (i < n)%nat -> inHiddenStorage d i = false ->
  correctOverlap g ranges i d = (how, d') ->
  sameContainers d d' /\ turnOutcome g ranges i d how d'.
Proof.
  intros wf Hi Hh E.
  assert (Hnext : forall b, nextElementSibling d i = Some b -> b <> i).
  { intros b Hb. destruct (nextElementSibling_displayed n d i b wf Hi Hh Hb). lia. }
  unfold correctOverlap in E. rewrite Hh in E. unfold offsetTop in E.
  unfold turnOutcome.
  destruct (roomFor g ranges (sideOf i) (footprintAt g i (styleTop d i))) as [room nx] eqn:Hroom.
  cbn [fst snd] in *. cbv zeta in E.
  destruct (Z.gtb_spec (bottom (footprintAt g i (styleTop d i))
                        - top (footprintAt g i (styleTop d i)))
                       (floor room - ceiling room)) as [Hfit|Hfit];
    cbn [footprintAt top bottom] in Hfit.
  { (* does not fit *)
    destruct nx as [k|].
    - destruct (nth_error ranges k) as [r|] eqn:Hr; inversion E; subst.
      + split; [apply sameContainers_setStyleTop|].
        split; [lia|]. split; [apply othersKept_set|].
        exists k, r. split; [reflexivity|]. split; [exact Hr|].
        apply styleTop_setStyleTop_same.
      + split; [apply sameContainers_refl|apply othersKept_refl].
    - inversion E; subst. split; [apply sameContainers_refl|].
      split; [lia|]. split; reflexivity. }
  assert (Hfits : clientHeight g i + 2 * sidenoteSpacing g <= floor room - ceiling room)
    by lia.
  assert (Hend : forall fp d1,
             sameContainers d d1 -> othersKept i None d d1 ->
             resolveOverlapBelow g ranges i room nx (nextElementSibling d i) fp d1
             = (how, d') ->
             sameContainers d d'
             /\ match how with
                | InStorage => False
                | GivingUp => ~ (clientHeight g i + 2 * sidenoteSpacing g
                                 <= floor room - ceiling room)
                              /\ nx = None /\ d' = d
                | MovedPastRange =>
                    ~ (clientHeight g i + 2 * sidenoteSpacing g
                       <= floor room - ceiling room)
                    /\ othersKept i None d d'
                    /\ exists k r, nx = Some k /\ nth_error ranges k = Some r
                                   /\ styleTop d' i = bottom r + sidenoteSpacing g
                | MovedToNextSpace =>
                    clientHeight g i + 2 * sidenoteSpacing g <= floor room - ceiling room
                    /\ othersKept i None d d'
                    /\ exists k r, nx = Some k /\ nth_error ranges k = Some r
                                   /\ styleTop d' i = bottom r + sidenoteSpacing g
                | NeedsNoAdjustment | MovedUp | LeftInPlace =>
                    clientHeight g i + 2 * sidenoteSpacing g <= floor room - ceiling room
                    /\ othersKept i None d d'
                | MovedUpAndPushedNext =>
                    clientHeight g i + 2 * sidenoteSpacing g <= floor room - ceiling room
                    /\ othersKept i (nextElementSibling d i) d d'
                | TypeError => othersKept i None d d'
                end).
  { intros fp d1 Hs Hk E1.
    apply resolveOverlapBelow_cases in E1; [|exact Hnext].
    destruct E1 as [Hs1 E1].
    split; [exact (sameContainers_trans _ _ _ Hs Hs1)|].
    assert (Htrans : forall nxt, othersKept i nxt d1 d' -> othersKept i nxt d d').
    { intros nxt H1 j Hj Hn. rewrite (H1 j Hj Hn). apply Hk; [exact Hj|discriminate]. }
    destruct how; try contradiction.
    - subst d'. split; assumption.
    - split; [exact Hfits|]. apply Htrans, E1.
    - destruct E1 as [Hk1 Hr]. split; [exact Hfits|]. split; [apply Htrans, Hk1|exact Hr].
    - subst d'. split; assumption.
    - split; [exact Hfits|]. apply Htrans, E1.
    - subst d'. exact Hk. }
  destruct (_ >? 0).
  - apply (Hend _ _ (sameContainers_setStyleTop _ _ _) (othersKept_set _ _ _ _) E).
  - apply (Hend _ _ (sameContainers_refl _) (othersKept_refl _ _ _) E).
Qed.

Lemma turnOutcome_kept (g : Geometry) (ranges : list Range) (i : nat) (d : Page)
      (how : Disposition) (d' : Page) :
  turnOutcome g ranges i d how d' ->
  othersKept i (nextElementSibling d i) d d'.
Proof.
  unfold turnOutcome. intros H j Hj Hn.
  destruct how; try contradiction.
  - destruct H as (_ & _ & ->). reflexivity.
  - destruct H as (_ & Hk & _). apply Hk; [exact Hj|discriminate].
  - destruct H as (_ & Hk). apply Hk; [exact Hj|discriminate].
  - destruct H as (_ & Hk). apply Hk; [exact Hj|discriminate].
  - destruct H as (_ & Hk & _). apply Hk; [exact Hj|discriminate].
  - destruct H as (_ & Hk). apply Hk; [exact Hj|discriminate].
  - destruct H as (_ & Hk). apply Hk; [exact Hj|exact Hn].
  - apply H; [exact Hj|discriminate].
Qed.

(** A turn for sidenote [i] assigns no position but that of [i] and of
    its next sibling: the sidenotes before [i], the stored ones and the
    indices past the end keep theirs. *)
Lemma correctOverlap_touches (n : nat) (g : Geometry) (ranges : list Range) (i : nat)
      (d : Page) (how : Disposition) (d' : Page) :
  wellFormed n d -> (i < n)%nat ->
  correctOverlap g ranges i d = (how, d') ->
  sameContainers d d'
  /\ forall j, (j < i)%nat \/ inHiddenStorage d j = true \/ (n <= j)%nat ->
               styleTop d' j = styleTop d j.
Proof.
  intros wf Hi E. destruct (inHiddenStorage d i) eqn:Hh.
  - rewrite correctOverlap_hidden in E by exact Hh. inversion E; subst.
    split; [apply sameContainers_refl|reflexivity].
  - destruct (correctOverlap_cases n g ranges i d how d' wf Hi Hh E) as [Hs Ht].
    split; [exact Hs|]. intros j Hj.
    apply (turnOutcome_kept _ _ _ _ _ _ Ht).
    + intros ->. destruct Hj as [Hj|[Hj|Hj]]; [lia|congruence|lia].
    + intros Hn.
      destruct (nextElementSibling_displayed n d i j wf Hi Hh Hn) as (H1 & H2 & _ & H4).
      destruct Hj as [Hj|[Hj|Hj]]; [lia|congruence|lia].
Qed.

Lemma correctOverlapsFrom_touches (g : Geometry) (ranges : list Range) (turns : nat) :
  forall i d log o d' log',
    wellFormed (footnoteRefs_length g) d ->
    correctOverlapsFrom g ranges turns i d log = (o, d', log') ->
    sameContainers d d'
    /\ (forall j, (j < i)%nat \/ inHiddenStorage d j = true
                  \/ (footnoteRefs_length g <= j)%nat ->
                  styleTop d' j = styleTop d j)
    /\ exists new, log' = new ++ log.
Proof.
  induction turns as [|turns IH]; intros i d log o d' log' wf E; cbn [correctOverlapsFrom] in E.
  - destruct (Nat.leb (footnoteRefs_length g) i); inversion E; subst;
      (split; [apply sameContainers_refl|]; split; [reflexivity|exists []; reflexivity]).
  - destruct (Nat.leb_spec (footnoteRefs_length g) i) as [Hi|Hi].
    { inversion E; subst.
      split; [apply sameContainers_refl|]; split; [reflexivity|exists []; reflexivity]. }
    destruct (correctOverlap g ranges i d) as [how d1] eqn:Eturn.
    destruct (correctOverlap_touches _ g ranges i d how d1 wf Hi Eturn) as [Hs Hk].
    pose proof (wellFormed_sameContainers _ _ _ Hs wf) as wf1.
    assert (Hrec : forall i', (i <= i')%nat ->
              correctOverlapsFrom g ranges turns i' d1 ((i, offsetTop d i, how) :: log)
              = (o, d', log') ->
              sameContainers d d'
              /\ (forall j, (j < i)%nat \/ inHiddenStorage d j = true
                            \/ (footnoteRefs_length g <= j)%nat ->
                            styleTop d' j = styleTop d j)
              /\ exists new, log' = new ++ log).
    { intros i' Hii E'. destruct (IH _ _ _ _ _ _ wf1 E') as (Hs' & Hk' & new & ->).
      split; [eapply sameContainers_trans; eassumption|]. split.
      - intros j Hj. rewrite Hk'.
        + apply Hk. exact Hj.
        + rewrite (proj2 (proj2 (sameContainers_siblings d d1 j Hs))).
          destruct Hj as [Hj|[Hj|Hj]]; [left; lia|right; left; exact Hj|right; right; exact Hj].
      - exists (new ++ [(i, offsetTop d i, how)]). rewrite <- app_assoc. reflexivity. }
    destruct how; try (apply (Hrec (S i)); [lia|exact E]);
      try (apply (Hrec i); [lia|exact E]).
    + inversion E; subst. split; [exact Hs|]. split; [exact Hk|].
      exists [(i, offsetTop d i, GivingUp)]. reflexivity.
    + inversion E; subst. split; [exact Hs|]. split; [exact Hk|].
      exists [(i, offsetTop d i, TypeError)]. reflexivity.
Qed.

(** *** The page on which the second loop starts *)

Lemma inHiddenStorage_stored (g : Geometry) (d : Page) (i : nat) :
  hiddenSidenoteStorage d = storedBelow g (footnoteRefs_length g) ->
  inHiddenStorage d i = Nat.ltb i (footnoteRefs_length g) && collapsed g i.
Proof.
  intros Hh. unfold inHiddenStorage. rewrite Hh.
  destruct (Nat.ltb_spec i (footnoteRefs_length g)) as [Hi|Hi]; cbn [andb].
  - destruct (collapsed g i) eqn:Hc.
    + apply inb_In. apply filter_In. split; [apply in_seq; lia|exact Hc].
    + apply inb_not_In. intros H. apply filter_In in H. destruct H as [_ H]. congruence.
  - apply inb_not_In. intros H. apply storedBelow_below in H. lia.
Qed.

Lemma prepared_spec (g : Geometry) (d : Page) :
  wellFormed (footnoteRefs_length g) d ->
  fst (updateSidenotesInCollapseBlocks g d) = Normal
  /\ (forall s, children (prepared g d) s = displayedOn g s (footnoteRefs_length g))
  /\ hiddenSidenoteStorage (prepared g d) = storedBelow g (footnoteRefs_length g)
  /\ leftColumnShown (prepared g d) = leftColumnShown d
  /\ rightColumnShown (prepared g d) = rightColumnShown d
  /\ (forall i, styleTop (prepared g d) i
                = if Nat.ltb i (footnoteRefs_length g) && negb (collapsed g i)
                  then defaultTop g i else styleTop d i)
  /\ wellFormed (footnoteRefs_length g) (prepared g d).
Proof.
  intros wf. unfold prepared.
  destruct (updateSidenotesInCollapseBlocks_spec g d wf) as (d1 & E & Hc & Hh & Ht & Hl & Hr).
  rewrite E. cbn [fst snd]. split; [reflexivity|].
  destruct (initialLayout_spec g d1) as (El & Er & Eh & Esl & Esr & Et).
  assert (Ec : forall s, children (initialLayout g d1) s
                         = displayedOn g s (footnoteRefs_length g)).
  { intros s. rewrite <- Hc. destruct s; assumption. }
  split; [exact Ec|]. split; [congruence|]. split; [congruence|]. split; [congruence|].
  split.
  - intros i. rewrite Et, Ht, (inHiddenStorage_stored g d1 i Hh).
    destruct (Nat.ltb i (footnoteRefs_length g)); reflexivity.
  - apply wellFormed_of_lists; [exact Ec|congruence].
Qed.

Lemma updateSidenotePositions_layout (g : Geometry) (turns : nat) (d : Page) :
  viewportWidthBreakpoint_matches g = false ->
  firstFullWidthBlock_offsetTop g <> None ->
  wellFormed (footnoteRefs_length g) d ->
  updateSidenotePositions g turns d
  = match correctOverlapsFrom g (proscribedVerticalRanges g) turns 0 (prepared g d) [] with
    | (Success, d3, log) => (Success, showColumns d3, log)
    | stopped => stopped
    end.
Proof.
  intros Hv Hf wf. unfold updateSidenotePositions. rewrite Hv.
  destruct (firstFullWidthBlock_offsetTop g); [|congruence].
  destruct (prepared_spec g d wf) as (E & _). unfold prepared.
  destruct (updateSidenotesInCollapseBlocks g d) as [c d1]. cbn [fst snd] in *.
  subst c. reflexivity.
Qed.

(** Whatever the way it ends, a call leaves a well-formed page
    well-formed. *)
Lemma updateSidenotePositions_wellFormed (g : Geometry) (turns : nat) (d : Page) :
  wellFormed (footnoteRefs_length g) d ->
  wellFormed (footnoteRefs_length g) (snd (fst (updateSidenotePositions g turns d))).
Proof.
  intros wf. unfold updateSidenotePositions.
  destruct (viewportWidthBreakpoint_matches g); [exact wf|].
  destruct (firstFullWidthBlock_offsetTop g); [|exact wf].
  destruct (prepared_spec g d wf) as (E & _ & _ & _ & _ & _ & wf2). unfold prepared in wf2.
  destruct (updateSidenotesInCollapseBlocks g d) as [c d1]. cbn [fst snd] in *. subst c.
  destruct (correctOverlapsFrom g (proscribedVerticalRanges g) turns 0 (initialLayout g d1) [])
    as [[o d3] log] eqn:Eloop.
  destruct (correctOverlapsFrom_touches g _ turns 0 _ [] o d3 log wf2 Eloop) as (Hs & _).
  pose proof (wellFormed_sameContainers _ _ _ Hs wf2) as wf3.
  destruct o; cbn [fst snd]; try exact wf3.
  apply (wellFormed_lists _ d3); try reflexivity. exact wf3.
Qed.

(** *** Visibility of the columns *)

Lemma resolveOverlapBelow_visibility (g : Geometry) (ranges : list Range) (i : nat)
      (room : Room) (nx next : option nat) (fp : Range) (d : Page) :
  sameVisibility d (snd (resolveOverlapBelow g ranges i room nx next fp d)).
Proof.
  unfold resolveOverlapBelow.
  repeat match goal with
         | |- context [if ?c then _ else _] => destruct c
         | |- context [match ?x with Some _ => _ | None => _ end] =>
             lazymatch x with
             | context [match _ with _ => _ end] => fail
             | _ => destruct x
             end
         end; split; reflexivity.
Qed.

Lemma correctOverlap_visibility (g : Geometry) (ranges : list Range) (i : nat) (d : Page) :
  sameVisibility d (snd (correctOverlap g ranges i d)).
Proof.
  unfold correctOverlap.
  destruct (inHiddenStorage d i); [split; reflexivity|].
  destruct (roomFor g ranges (sideOf i) (footprintAt g i (offsetTop d i))) as [room nx].
  destruct (_ >? _).
  - destruct nx as [k|]; [destruct (nth_error ranges k)|]; split; reflexivity.
  - destruct (_ >? _); [|apply resolveOverlapBelow_visibility].
    match goal with
    | |- sameVisibility _ (snd (resolveOverlapBelow _ _ _ _ _ _ ?fp ?d1)) =>
        destruct (resolveOverlapBelow_visibility g ranges i room nx
                    (nextElementSibling d i) fp d1) as [A B]
    end.
    split; [rewrite A|rewrite B]; reflexivity.
Qed.

Lemma correctOverlapsFrom_visibility (g : Geometry) (ranges : list Range) (turns : nat) :
  forall i d log,
    sameVisibility d (snd (fst (correctOverlapsFrom g ranges turns i d log))).
Proof.
  induction turns as [|turns IH]; intros i d log; cbn [correctOverlapsFrom].
  - destruct (Nat.leb (footnoteRefs_length g) i); split; reflexivity.
  - destruct (Nat.leb (footnoteRefs_length g) i); [split; reflexivity|].
    pose proof (correctOverlap_visibility g ranges i d) as [A B].
    destruct (correctOverlap g ranges i d) as [how d1]. cbn [snd] in A, B.
    assert (Hrec : forall i', sameVisibility d
              (snd (fst (correctOverlapsFrom g ranges turns i' d1
                           ((i, offsetTop d i, how) :: log))))).
    { intros i'. destruct (IH i' d1 ((i, offsetTop d i, how) :: log)) as [A' B'].
      split; congruence. }
    destruct how; try apply Hrec; split; assumption.
Qed.

Lemma insertBefore_visibility (s : Side) (x ref : nat) (d : Page) :
  sameVisibility d (snd (insertBefore s x ref d)).
Proof.
  unfold insertBefore. destruct (inb ref (children d s)); [|split; reflexivity].
  cbv zeta. destruct (insertBeforeIn x ref (children (detach x d) s));
    [|split; reflexivity].
  cbn [snd]. destruct (shown_withChildren (detach x d) s l) as [A B].
  split; [rewrite A|rewrite B]; reflexivity.
Qed.

Lemma collapseBlocksBody_visibility (g : Geometry) (i : nat) (d : Page) :
  sameVisibility d (snd (collapseBlocksBody g i d)).
Proof.
  unfold collapseBlocksBody.
  destruct (isWithinCollapsedBlock (collapseBlocksAround g i)); [split; reflexivity|].
  destruct (Nat.leb _ _); [|apply insertBefore_visibility].
  cbn [snd]. unfold appendChild.
  destruct (shown_withChildren (detach i d) (sideOf i)
              (children (detach i d) (sideOf i) ++ [i])) as [A B].
  split; [rewrite A|rewrite B]; reflexivity.
Qed.

Lemma forEach_visibility (g : Geometry) (indices : list nat) :
  forall d, sameVisibility d (snd (forEach (collapseBlocksBody g) indices d)).
Proof.
  induction indices as [|i rest IH]; intros d; cbn [forEach]; [split; reflexivity|].
  pose proof (collapseBlocksBody_visibility g i d) as [A B].
  destruct (collapseBlocksBody g i d) as [[|] d1]; cbn [snd] in *; [|split; assumption].
  destruct (IH d1) as [A' B']. split; congruence.
Qed.

Lemma initialLayout_visibility (g : Geometry) (d : Page) :
  sameVisibility d (initialLayout g d).
Proof. destruct (initialLayout_spec g d) as (_ & _ & _ & A & B & _). split; assumption. Qed.

(** *** The room *)

Lemma Qltb_halfwayPoint (r1 r2 : Range) :
  Qltb (halfwayPoint r1) (halfwayPoint r2) = (top r1 + bottom r1 <? top r2 + bottom r2).
Proof.
  unfold Qltb, halfwayPoint, Qle_bool, Qdiv, Qmult, Qinv, inject_Z.
  cbn [Qnum Qden Pos.mul].
  rewrite Z.ltb_antisym. f_equal.
  destruct (Z.leb_spec ((top r2 + bottom r2) * 1 * 2) ((top r1 + bottom r1) * 1 * 2)),
           (Z.leb_spec (top r2 + bottom r2) (top r1 + bottom r1)); try reflexivity; lia.
Qed.

Lemma firstBelowFrom_app (base : nat) (off : Z) (half : Q) (l : list Range) (r : Range) :
  firstBelowFrom base off half (l ++ [r])
  = match firstBelowFrom base off half l with
    | Some x => Some x
    | None => if halfwayBelow off half r then Some ((base + length l)%nat, r) else None
    end.
Proof.
  revert base. induction l as [|a l IH]; intros base; cbn [app firstBelowFrom length].
  - rewrite Nat.add_0_r. reflexivity.
  - destruct (halfwayBelow off half a); [reflexivity|].
    rewrite IH. replace (S base + length l)%nat with (base + S (length l))%nat by lia.
    reflexivity.
Qed.

Lemma skipn_nth_error {A : Type} (j : nat) (l : list A) (x : A) :
  nth_error l j = Some x -> skipn j l = x :: skipn (S j) l.
Proof.
  revert l. induction j as [|j IH]; intros [|a l] E; cbn in *; try discriminate.
  - inversion E. reflexivity.
  - apply IH. exact E.
Qed.

Lemma firstn_nth_error {A : Type} (j : nat) (l : list A) (x : A) :
  nth_error l j = Some x -> firstn (S j) l = firstn j l ++ [x].
Proof.
  revert l. induction j as [|j IH]; intros [|a l] E; cbn in *; try discriminate.
  - inversion E. reflexivity.
  - f_equal. apply IH. exact E.
Qed.

(** The loop that narrows the room, turn by turn: what remains to be
    seen counting up is [skipn j], counting down [firstn (length - j)]. *)
Lemma narrowRoom_scan (ranges : list Range) (off : Z) (half : Q) (turns : nat) :
  forall j room next,
    (j + turns = length ranges)%nat ->
    narrowRoom ranges off half turns j room next
    = (mkRoom
         match lastAbove off half (skipn j ranges) with
         | Some r => bottom r - off
         | None => ceiling room
         end
         match firstBelowFrom 0 off half (firstn turns ranges) with
         | Some (_, r) => top r - off
         | None => floor room
         end,
       match firstBelowFrom 0 off half (firstn turns ranges) with
       | Some (k, _) => Some k
       | None => next
       end).
Proof.
  induction turns as [|turns IH]; intros j room next Hj; cbn [narrowRoom].
  - rewrite skipn_all2 by lia. destruct room. reflexivity.
  - destruct (nth_error ranges j) as [rj|] eqn:Ej;
      [|apply nth_error_None in Ej; lia].
    replace (length ranges - j - 1)%nat with turns by lia.
    destruct (nth_error ranges turns) as [rc|] eqn:Ec;
      [|apply nth_error_None in Ec; lia].
    rewrite (skipn_nth_error j ranges rj Ej), (firstn_nth_error turns ranges rc Ec).
    rewrite firstBelowFrom_app. cbn [lastAbove Nat.add].
    rewrite length_firstn, Nat.min_l by lia.
    fold (halfwayAbove off half rj). fold (halfwayBelow off half rc).
    destruct (halfwayAbove off half rj), (halfwayBelow off half rc);
      rewrite IH by lia; cbn [ceiling floor relativeTo top bottom];
      destruct (lastAbove off half (skipn (S j) ranges));
      destruct (firstBelowFrom 0 off half (firstn turns ranges)) as [[? ?]|];
      reflexivity.
Qed.

Lemma roomFor_scan (g : Geometry) (ranges : list Range) (side : Side) (fp : Range) :
  roomFor g ranges side fp
  = (mkRoom
       match lastAbove (side_offsetTop g side) (halfwayPoint fp) ranges with
       | Some r => bottom r - side_offsetTop g side
       | None => 0
       end
       match firstBelowFrom 0 (side_offsetTop g side) (halfwayPoint fp) ranges with
       | Some (_, r) => top r - side_offsetTop g side
       | None => side_clientHeight g side
       end,
     option_map fst (firstBelowFrom 0 (side_offsetTop g side) (halfwayPoint fp) ranges)).
Proof.
  unfold roomFor. rewrite narrowRoom_scan by lia.
  rewrite firstn_all. cbn [skipn ceiling floor].
  destruct (firstBelowFrom 0 _ _ ranges) as [[k r]|]; reflexivity.
Qed.

Lemma scenarioB_turn (a : Z) (d : Page) :
  sidenoteColumnLeft d = [] -> sidenoteColumnRight d = [0%nat] ->
  hiddenSidenoteStorage d = [] ->
  correctOverlap (scenarioB a) (proscribedVerticalRanges (scenarioB a)) 0 d
  = if styleTop d 0 <? 50
    then (MovedPastRange, setStyleTop 0 260 d)
    else (GivingUp, d).
Proof.
  intros El Er Eh. unfold correctOverlap, inHiddenStorage. rewrite Eh.
  cbn [inb existsb]. rewrite roomFor_scan.
  unfold proscribedVerticalRanges, offsetTop.
  cbn [scenarioB potentiallyOverlappingElements map app side_clientHeight side_offsetTop
       lastAbove firstBelowFrom clientHeight sideOf].
  unfold halfwayAbove, halfwayBelow. rewrite !Qltb_halfwayPoint.
  cbn [relativeTo footprintAt top bottom clientHeight scenarioB].
  change (sidenoteSpacing (scenarioB a)) with 60.
  set (t := styleTop d 0%nat).
  destruct (Z.ltb_spec t 50) as [Ht|Ht].
  - destruct (Z.ltb_spec (t - 60 + (t + 300 + 60)) (200 - 0 + (200 - 0))); [|lia].
    destruct (Z.ltb_spec (200 - 0 + (200 - 0)) (t - 60 + (t + 300 + 60))); [lia|].
    cbn [option_map fst ceiling floor top bottom nth_error].
    match goal with |- context [?x >? ?y] => destruct (Z.gtb_spec x y); [|lia] end.
    reflexivity.
  - destruct (Z.ltb_spec (t - 60 + (t + 300 + 60)) (200 - 0 + (200 - 0))); [lia|].
    destruct (Z.ltb_spec (200 - 0 + (200 - 0)) (t - 60 + (t + 300 + 60)));
      cbn [option_map fst ceiling floor top bottom nth_error];
      match goal with |- context [?x >? ?y] => destruct (Z.gtb_spec x y); [|lia] end;
      reflexivity.
Qed.

Lemma scenarioB_gives_up (a : Z) (turns : nat) :
  exists d' log,
    updateSidenotePositions (scenarioB a) (2 + turns) (constructSidenotes 1)
    = (GaveUp, d', log).
Proof.
  rewrite updateSidenotePositions_layout;
    [|reflexivity|discriminate|apply constructSidenotes_wellFormed].
  destruct (prepared_spec (scenarioB a) (constructSidenotes 1)
              (constructSidenotes_wellFormed 1)) as (_ & Hc & Hh & _ & _ & Ht & _).
  pose proof (Hc ColumnLeft) as El. pose proof (Hc ColumnRight) as Er.
  cbn in El, Er, Hh.
  set (d2 := prepared (scenarioB a) (constructSidenotes 1)) in *.
  cbn [Nat.add correctOverlapsFrom scenarioB footnoteRefs_length Nat.leb].
  rewrite (scenarioB_turn a d2 El Er Hh).
  destruct (styleTop d2 0 <? 50).
  - rewrite (scenarioB_turn a (setStyleTop 0 260 d2) El Er Hh).
    rewrite styleTop_setStyleTop_same. cbn. eauto.
  - eauto.
Qed.

(** *** Claims on the columns and their visibility *)

(** A call that completes its second loop shows both columns; any other
    leaves their visibility as it was. *)
Lemma updateSidenotePositions_visibility (g : Geometry) (turns : nat) (d : Page) :
  let '(o, d', _) := updateSidenotePositions g turns d in
  match o with
  | Success => leftColumnShown d' = true /\ rightColumnShown d' = true
  | _ => sameVisibility d d'
  end.
Proof.
  unfold updateSidenotePositions.
  destruct (viewportWidthBreakpoint_matches g); [split; reflexivity|].
  destruct (firstFullWidthBlock_offsetTop g); [|split; reflexivity].
  pose proof (forEach_visibility g (seq 0 (footnoteRefs_length g)) d) as [A1 B1].
  fold (updateSidenotesInCollapseBlocks g d) in A1, B1.
  destruct (updateSidenotesInCollapseBlocks g d) as [[|] d1]; cbn [snd] in A1, B1;
    [|split; assumption].
  pose proof (initialLayout_visibility g d1) as [A2 B2].
  pose proof (correctOverlapsFrom_visibility g (proscribedVerticalRanges g) turns 0
                (initialLayout g d1) []) as [A3 B3].
  destruct (correctOverlapsFrom g (proscribedVerticalRanges g) turns 0
              (initialLayout g d1) []) as [[o d3] log].
  cbn [fst snd] in A3, B3.
  destruct o; try (split; congruence). split; reflexivity.
Qed.

(** C7. The columns are shown by a call of [updateSidenotePositions]
    whose second loop runs to its end, and by no other: a call that ends
    in any other way (footnotes mode, giving up, an exception, or not yet
    ended) leaves the visibility of both columns as it found it. In
    Scenario B (one sidenote 300 high, columns 200 high, no obstacle but
    the bottom of the column), wherever the citation is, the call gives up
    and the columns that [constructSidenotes] created hidden stay hidden. *)
Theorem columns_shown_only_by_success :
  (forall g turns d,
      let '(o, d', _) := updateSidenotePositions g turns d in
      match o with
      | Success => leftColumnShown d' = true /\ rightColumnShown d' = true
      | _ => sameVisibility d d'
      end)
  /\ (forall citationTop turns,
         let '(o, d', _) :=
           updateSidenotePositions (scenarioB citationTop) (2 + turns) (constructSidenotes 1) in
         o = GaveUp /\ leftColumnShown d' = false /\ rightColumnShown d' = false).
Proof.
  split; [exact updateSidenotePositions_visibility|].
  intros a turns.
  pose proof (updateSidenotePositions_visibility (scenarioB a) (2 + turns)%nat
                (constructSidenotes 1)) as General.
  destruct (scenarioB_gives_up a turns) as (d' & log & E).
  rewrite E in *. destruct General as [A B].
  split; [reflexivity|]. split; [rewrite A|rewrite B]; reflexivity.
Qed.

(** C10. A call of [updateSidenotePositions] does not change the
    position of a sidenote that is in the hidden storage once the
    sidenotes are reclassified (its citation is within a collapsed block):
    neither the first loop nor the second assigns its [style.top]. *)
Theorem stored_sidenotes_keep_their_position
        (g : Geometry) (turns : nat) (d : Page) (i : nat) :
  wellFormed (footnoteRefs_length g) d ->
  inHiddenStorage (snd (updateSidenotesInCollapseBlocks g d)) i = true ->
  styleTop (prepared g d) i = styleTop d i
  /\ styleTop (snd (fst (updateSidenotePositions g turns d))) i = styleTop d i.
Proof.
  intros wf Hin.
  destruct (prepared_spec g d wf) as (_ & Hc & Hh & _ & _ & Ht & wf2).
  destruct (updateSidenotesInCollapseBlocks_spec g d wf) as (d1 & E1 & _ & Hh1 & _).
  rewrite E1 in Hin. cbn [snd] in Hin.
  rewrite (inHiddenStorage_stored g d1 i Hh1) in Hin.
  assert (Hinit : styleTop (prepared g d) i = styleTop d i).
  { rewrite Ht. apply andb_true_iff in Hin. destruct Hin as [-> ->]. reflexivity. }
  split; [exact Hinit|].
  unfold updateSidenotePositions.
  destruct (viewportWidthBreakpoint_matches g); [reflexivity|].
  destruct (firstFullWidthBlock_offsetTop g); [|reflexivity].
  unfold prepared in *. rewrite E1 in *. cbn [snd] in *.
  destruct (correctOverlapsFrom g (proscribedVerticalRanges g) turns 0 (initialLayout g d1) [])
    as [[o d3] log] eqn:Eloop.
  destruct (correctOverlapsFrom_touches g _ turns 0 _ [] o d3 log wf2 Eloop) as (_ & Hk & _).
  assert (Hd3 : styleTop d3 i = styleTop d i).
  { rewrite Hk; [exact Hinit|]. right; left.
    rewrite (inHiddenStorage_stored g _ i Hh). exact Hin. }
  destruct o; exact Hd3.
Qed.

Lemma samplePage_wellFormed : wellFormed 5 samplePage.
Proof.
  exact (updateSidenotePositions_wellFormed (sampleGeometry false) 30 (constructSidenotes 5)
           (constructSidenotes_wellFormed 5)).
Qed.

Lemma stored_sidenotes_keep_their_position_witness :
  wellFormed 5 samplePage
  /\ inHiddenStorage (snd (updateSidenotesInCollapseBlocks (sampleGeometry true) samplePage)) 2
     = true
  /\ styleTop (prepared (sampleGeometry true) samplePage) 2 = styleTop samplePage 2
  /\ styleTop (snd (fst (updateSidenotePositions (sampleGeometry true) 30 samplePage))) 2
     = styleTop samplePage 2.
Proof.
  split; [exact samplePage_wellFormed|]. split; [vm_compute; reflexivity|].
  exact (stored_sidenotes_keep_their_position (sampleGeometry true) 30 samplePage 2
           samplePage_wellFormed eq_refl).
Defined.

(** C3, as stated, fails: the first sidenote (index 1, odd) is put in the
    right column and the second (index 2, even) in the left one, by
    [constructSidenotes] and again when put back by
    [updateSidenotesInCollapseBlocks]. *)
Lemma odd_index_is_not_left :
  Nat.odd 1 = true
  /\ In 0%nat (sidenoteColumnRight (constructSidenotes 5))
  /\ ~ In 0%nat (sidenoteColumnLeft (constructSidenotes 5))
  /\ Nat.even 2 = true
  /\ In 1%nat (sidenoteColumnLeft (constructSidenotes 5))
  /\ ~ In 1%nat (sidenoteColumnRight (constructSidenotes 5))
  /\ In 0%nat (sidenoteColumnRight
                 (snd (updateSidenotesInCollapseBlocks (sampleGeometry true) samplePage)))
  /\ ~ In 0%nat (sidenoteColumnLeft
                   (snd (updateSidenotesInCollapseBlocks (sampleGeometry true) samplePage))).
Proof.
  vm_compute. repeat split; auto; intros H; repeat destruct H as [H|H]; try discriminate; auto.
Qed.

(** C3, amended. The column of a sidenote is a function of the parity of
    its index (1-based): an odd index puts it in the right column and an
    even index in the left column, when [constructSidenotes] creates it
    and when [updateSidenotesInCollapseBlocks] puts a sidenote whose
    citation is not within a collapsed block back in a column. *)
Theorem column_by_parity (g : Geometry) (d : Page) (i : nat) :
  wellFormed (footnoteRefs_length g) d ->
  (i < footnoteRefs_length g)%nat ->
  let index := S i in
  let constructed := constructSidenotes (footnoteRefs_length g) in
  let reclassified := snd (updateSidenotesInCollapseBlocks g d) in
  (Nat.odd index = true ->
     In i (sidenoteColumnRight constructed) /\ ~ In i (sidenoteColumnLeft constructed)
     /\ (collapsed g i = false ->
           In i (sidenoteColumnRight reclassified)
           /\ ~ In i (sidenoteColumnLeft reclassified)))
  /\ (Nat.even index = true ->
        In i (sidenoteColumnLeft constructed) /\ ~ In i (sidenoteColumnRight constructed)
        /\ (collapsed g i = false ->
              In i (sidenoteColumnLeft reclassified)
              /\ ~ In i (sidenoteColumnRight reclassified))).
Proof.
  intros wf Hi index constructed reclassified.
  assert (Hcon : forall s, In i (children constructed s) <-> sideOf i = s).
  { intros s. unfold constructed. rewrite constructSidenotes_spec.
    rewrite <- onSide_iff.
    destruct s; cbn [children sidenoteColumnLeft sidenoteColumnRight];
      rewrite filter_In, in_seq; intuition lia. }
  destruct (updateSidenotesInCollapseBlocks_spec g d wf) as (d1 & E & Hc & _).
  assert (Hrec : collapsed g i = false ->
                 forall s, In i (children reclassified s) <-> sideOf i = s).
  { intros Hcol s. unfold reclassified. rewrite E. cbn [snd]. rewrite Hc.
    unfold displayedOn. rewrite filter_In, in_seq, Hcol, <- onSide_iff.
    cbn [negb andb]. intuition lia. }
  assert (Hside : forall s s', sideOf i = s -> s' <> s ->
            In i (children constructed s) /\ ~ In i (children constructed s')
            /\ (collapsed g i = false ->
                  In i (children reclassified s) /\ ~ In i (children reclassified s'))).
  { intros s s' Hs Hne. split; [apply Hcon, Hs|]. split.
    - rewrite Hcon. congruence.
    - intros Hcol. split; [apply (Hrec Hcol), Hs|]. rewrite (Hrec Hcol). congruence. }
  split; intros Hpar.
  - apply (Hside ColumnRight ColumnLeft); [|discriminate].
    apply sideOf_even. unfold index in Hpar. rewrite Nat.odd_succ in Hpar. exact Hpar.
  - apply (Hside ColumnLeft ColumnRight); [|discriminate].
    apply sideOf_odd. unfold index in Hpar. rewrite Nat.even_succ in Hpar. exact Hpar.
Qed.

Lemma column_by_parity_witness :
  let reclassified :=
    snd (updateSidenotesInCollapseBlocks (sampleGeometry true) samplePage) in
  wellFormed 5 samplePage /\ (3 < 5)%nat
  /\ Nat.even 4 = true /\ collapsed (sampleGeometry true) 3 = false
  /\ In 3%nat (sidenoteColumnLeft (constructSidenotes 5))
  /\ ~ In 3%nat (sidenoteColumnRight (constructSidenotes 5))
  /\ In 3%nat (sidenoteColumnLeft reclassified)
  /\ ~ In 3%nat (sidenoteColumnRight reclassified).
Proof.
  cbv zeta. split; [exact samplePage_wellFormed|]. split; [lia|].
  split; [reflexivity|]. split; [reflexivity|].
  destruct (column_by_parity (sampleGeometry true) samplePage 3 samplePage_wellFormed
              ltac:(cbn; lia)) as [_ Heven].
  destruct (Heven eq_refl) as (A & B & C).
  destruct (C eq_refl) as (D & E).
  split; [exact A|]. split; [exact B|]. split; [exact D|exact E].
Defined.

(** *** Order of the columns *)

Lemma nextIn_app (i : nat) (l1 l2 : list nat) :
  ~ In i l1 -> nextIn i (l1 ++ i :: l2) = hd_error l2.
Proof.
  induction l1 as [|a l1 IH]; intros Hn; cbn [app nextIn].
  - rewrite Nat.eqb_refl. reflexivity.
  - destruct (Nat.eqb_spec a i) as [->|_].
    + exfalso. apply Hn. left. reflexivity.
    + apply IH. intros H. apply Hn. right. exact H.
Qed.

Lemma nextIn_filter_seq (f : nat -> bool) (n i : nat) :
  (i < n)%nat -> f i = true ->
  nextIn i (filter f (seq 0 n)) = hd_error (filter f (seq (S i) (n - S i))).
Proof.
  intros Hi Hf.
  replace n with (i + S (n - S i))%nat at 1 by lia.
  rewrite seq_app, filter_app. cbn [seq filter Nat.add]. rewrite Hf.
  apply nextIn_app. intros H. apply filter_seq_below in H. lia.
Qed.

(** C9. On a well-formed page [updateSidenotesInCollapseBlocks] completes
    and keeps the columns in the order of the indices: afterwards every
    sidenote whose citation is within a collapsed block is in the hidden
    storage and in no column; every other sidenote is in the column of
    its parity, and its next sibling there is the next displayed sidenote
    of that column (the least greater index of the same parity whose
    citation is not within a collapsed block), or it is the last child
    when there is none; and the children of each column are in increasing
    order of index. *)
Theorem reclassification_keeps_column_order (g : Geometry) (d : Page) :
  wellFormed (footnoteRefs_length g) d ->
  let n := footnoteRefs_length g in
  let d' := snd (updateSidenotesInCollapseBlocks g d) in
  fst (updateSidenotesInCollapseBlocks g d) = Normal
  /\ (forall i, (i < n)%nat -> collapsed g i = true ->
        In i (hiddenSidenoteStorage d') /\ forall s, ~ In i (children d' s))
  /\ (forall i, (i < n)%nat -> collapsed g i = false ->
        In i (children d' (sideOf i))
        /\ ~ In i (hiddenSidenoteStorage d')
        /\ nextElementSibling d' i
           = hd_error (filter (fun j => negb (collapsed g j) && onSide (sideOf i) j)
                              (seq (S i) (n - S i))))
  /\ (forall s, StronglySorted lt (children d' s)).
Proof.
  intros wf n d'.
  destruct (updateSidenotesInCollapseBlocks_spec g d wf) as (d1 & E & Hc & Hh & _).
  unfold d'. rewrite E. cbn [fst snd]. clear d'.
  pose proof (wellFormed_of_lists g d1 Hc Hh) as wf1. fold n in Hc, Hh, wf1.
  split; [reflexivity|]. split; [|split].
  - intros i Hi Hcol. split.
    + rewrite Hh. apply filter_In. split; [apply in_seq; lia|exact Hcol].
    + intros s. rewrite Hc. intros H. apply filter_In in H. destruct H as [_ H].
      rewrite Hcol in H. discriminate.
  - intros i Hi Hcol.
    assert (Hin : In i (children d1 (sideOf i))).
    { rewrite Hc. apply filter_In. split; [apply in_seq; lia|].
      rewrite Hcol, onSide_sideOf. reflexivity. }
    split; [exact Hin|]. split; [exact (wf_one_parent _ _ wf1 _ _ Hin)|].
    unfold nextElementSibling.
    destruct (siblingsOf_displayed n d1 i wf1 Hi) as [Es _].
    { apply inb_not_In. exact (wf_one_parent _ _ wf1 _ _ Hin). }
    rewrite Es, Hc. unfold displayedOn. apply nextIn_filter_seq; [exact Hi|].
    rewrite Hcol, onSide_sideOf. reflexivity.
  - intros s. apply (wf_sorted _ _ wf1).
Qed.

Lemma reclassification_keeps_column_order_witness :
  wellFormed 5 samplePage
  /\ fst (updateSidenotesInCollapseBlocks (sampleGeometry true) samplePage) = Normal
  /\ (forall i, (i < 5)%nat -> collapsed (sampleGeometry true) i = true ->
        In i (hiddenSidenoteStorage
                (snd (updateSidenotesInCollapseBlocks (sampleGeometry true) samplePage)))
        /\ forall s, ~ In i (children
                (snd (updateSidenotesInCollapseBlocks (sampleGeometry true) samplePage)) s))
  /\ (forall i, (i < 5)%nat -> collapsed (sampleGeometry true) i = false ->
        In i (children
                (snd (updateSidenotesInCollapseBlocks (sampleGeometry true) samplePage))
                (sideOf i))
        /\ ~ In i (hiddenSidenoteStorage
                (snd (updateSidenotesInCollapseBlocks (sampleGeometry true) samplePage)))
        /\ nextElementSibling
             (snd (updateSidenotesInCollapseBlocks (sampleGeometry true) samplePage)) i
           = hd_error (filter (fun j => negb (collapsed (sampleGeometry true) j)
                                        && onSide (sideOf i) j)
                              (seq (S i) (5 - S i))))
  /\ (forall s, StronglySorted lt
                  (children
                     (snd (updateSidenotesInCollapseBlocks (sampleGeometry true) samplePage)) s)).
Proof.
  split; [exact samplePage_wellFormed|].
  exact (reclassification_keeps_column_order (sampleGeometry true) samplePage
           samplePage_wellFormed).
Defined.

(** *** The room and the ranges *)

Lemma halfwayAbove_spec (off : Z) (fp r : Range) :
  halfwayAbove off (halfwayPoint fp) r
  = (top r + bottom r - 2 * off <? top fp + bottom fp).
Proof.
  unfold halfwayAbove. rewrite Qltb_halfwayPoint. cbn [relativeTo top bottom].
  destruct (Z.ltb_spec (top r - off + (bottom r - off)) (top fp + bottom fp)),
           (Z.ltb_spec (top r + bottom r - 2 * off) (top fp + bottom fp));
    reflexivity || lia.
Qed.

Lemma halfwayBelow_spec (off : Z) (fp r : Range) :
  halfwayBelow off (halfwayPoint fp) r
  = (top fp + bottom fp <? top r + bottom r - 2 * off).
Proof.
  unfold halfwayBelow. rewrite Qltb_halfwayPoint. cbn [relativeTo top bottom].
  destruct (Z.ltb_spec (top fp + bottom fp) (top r - off + (bottom r - off))),
           (Z.ltb_spec (top fp + bottom fp) (top r + bottom r - 2 * off));
    reflexivity || lia.
Qed.

Lemma lastAbove_split (off : Z) (half : Q) (ranges : list Range) (r : Range) :
  lastAbove off half ranges = Some r ->
  exists l1 l2, ranges = l1 ++ r :: l2 /\ halfwayAbove off half r = true
                /\ forall r', In r' l2 -> halfwayAbove off half r' = false.
Proof.
  induction ranges as [|a l IH]; cbn [lastAbove]; [discriminate|].
  destruct (lastAbove off half l) as [r0|] eqn:El.
  - intros E. inversion E; subst. destruct (IH eq_refl) as (l1 & l2 & -> & Hr & Hl2).
    exists (a :: l1), l2. repeat split; assumption.
  - destruct (halfwayAbove off half a) eqn:Ha; [|discriminate].
    intros E. inversion E; subst. exists [], l. split; [reflexivity|]. split; [exact Ha|].
    clear IH. induction l as [|b l IHl]; intros r' Hr'; [contradiction|].
    cbn [lastAbove] in El. destruct (lastAbove off half l) eqn:El'; [discriminate|].
    destruct (halfwayAbove off half b) eqn:Hb; [discriminate|].
    destruct Hr' as [<-|Hr']; [exact Hb|]. apply IHl; [reflexivity|exact Hr'].
Qed.

Lemma lastAbove_none (off : Z) (half : Q) (ranges : list Range) :
  lastAbove off half ranges = None ->
  forall r, In r ranges -> halfwayAbove off half r = false.
Proof.
  induction ranges as [|a l IH]; cbn [lastAbove]; intros E r Hr; [contradiction|].
  destruct (lastAbove off half l); [discriminate|].
  destruct (halfwayAbove off half a) eqn:Ha; [discriminate|].
  destruct Hr as [<-|Hr]; [exact Ha|]. apply IH; [reflexivity|exact Hr].
Qed.

Lemma firstBelowFrom_split (base : nat) (off : Z) (half : Q) (ranges : list Range)
      (k : nat) (r : Range) :
  firstBelowFrom base off half ranges = Some (k, r) ->
  exists l1 l2, ranges = l1 ++ r :: l2 /\ k = (base + length l1)%nat
                /\ halfwayBelow off half r = true
                /\ forall r', In r' l1 -> halfwayBelow off half r' = false.
Proof.
  revert base. induction ranges as [|a l IH]; intros base; cbn [firstBelowFrom];
    [discriminate|].
  destruct (halfwayBelow off half a) eqn:Ha.
  - intros E. inversion E; subst. exists [], l. cbn [length app].
    repeat split; [lia|exact Ha|intros r' []].
  - intros E. destruct (IH _ E) as (l1 & l2 & -> & -> & Hr & Hl1).
    exists (a :: l1), l2. cbn [length app]. repeat split; [lia|exact Hr|].
    intros r' [<-|Hr']; [exact Ha|apply Hl1, Hr'].
Qed.

Lemma firstBelowFrom_none (base : nat) (off : Z) (half : Q) (ranges : list Range) :
  firstBelowFrom base off half ranges = None ->
  forall r, In r ranges -> halfwayBelow off half r = false.
Proof.
  revert base. induction ranges as [|a l IH]; intros base; cbn [firstBelowFrom];
    intros E r Hr; [contradiction|].
  destruct (halfwayBelow off half a) eqn:Ha; [discriminate|].
  destruct Hr as [<-|Hr]; [exact Ha|]. apply (IH _ E), Hr.
Qed.

Lemma inVerticalOrder_app (l1 l2 : list Range) (r : Range) :
  inVerticalOrder (l1 ++ r :: l2) ->
  (forall r', In r' l1 -> bottom r' <= bottom r)
  /\ (forall r', In r' l2 -> top r <= top r').
Proof.
  intros [Hw Hs]. rewrite Forall_forall in Hw.
  assert (Hr : top r <= bottom r) by (apply Hw, in_or_app; right; left; reflexivity).
  induction l1 as [|a l1 IH]; cbn [app] in *.
  - inversion Hs as [|? ? _ Hall]; subst. rewrite Forall_forall in Hall.
    split; [intros r' []|]. intros r' Hr'. specialize (Hall r' Hr'). lia.
  - inversion Hs as [|? ? Hs' Hall]; subst. rewrite Forall_forall in Hall.
    destruct (IH (fun x Hx => Hw x (or_intror Hx)) Hs') as [H1 H2].
    split; [|exact H2]. intros r' [<-|Hr'].
    + assert (bottom a <= top r) by (apply Hall, in_or_app; right; left; reflexivity). lia.
    + apply H1, Hr'.
Qed.

(** C5, as stated, fails: the figure between 300 and 400 is the nearest
    range whose halfway point is above that of the footprint (330 to 550)
    of the sidenote, but the ceiling of the room is the bottom of the
    margin note listed after it, 200, and the room, from 200 to 1000,
    contains the figure: it is not free of obstacles, and the sidenote is
    left across the figure by a call that succeeds. *)
Lemma room_of_unordered_ranges :
  let g := unorderedGeometry in
  let ranges := proscribedVerticalRanges g in
  let d := prepared g (constructSidenotes 1) in
  let fp := footprintAt g 0 (offsetTop d 0) in
  ranges = [mkRange 300 400; mkRange 100 200; mkRange 1000 1000]
  /\ fp = mkRange 330 550
  /\ roomFor g ranges (sideOf 0) fp = (mkRoom 200 1000, Some 2%nat)
  /\ ~ clearOf (side_offsetTop g (sideOf 0)) (mkRoom 200 1000) (mkRange 300 400)
  /\ (let '(o, d', _) := updateSidenotePositions g 10 (constructSidenotes 1) in
      o = Success /\ styleTop d' 0 = 390).
Proof.
  cbv zeta. split; [reflexivity|]. split; [reflexivity|]. split; [vm_compute; reflexivity|].
  split; [|vm_compute; split; reflexivity].
  unfold clearOf. cbn. lia.
Qed.

(** What the loop that narrows the room leaves, without the halves: the
    ceiling is taken from the last range in the order of the list whose
    halfway point is above that of the footprint, the floor from the
    first whose halfway point is below it. *)
Lemma room_scanned (g : Geometry) (ranges : list Range) (side : Side) (fp : Range) :
  let off := side_offsetTop g side in
  let room := fst (roomFor g ranges side fp) in
  let next := snd (roomFor g ranges side fp) in
  let above r := top r + bottom r - 2 * off < top fp + bottom fp in
  let below r := top fp + bottom fp < top r + bottom r - 2 * off in
  ((exists l1 r l2, ranges = l1 ++ r :: l2 /\ above r
                    /\ (forall r', In r' l2 -> ~ above r')
                    /\ ceiling room = bottom r - off)
   \/ ((forall r, In r ranges -> ~ above r) /\ ceiling room = 0))
  /\ ((exists l1 r l2, ranges = l1 ++ r :: l2 /\ below r
                       /\ (forall r', In r' l1 -> ~ below r')
                       /\ floor room = top r - off /\ next = Some (length l1))
      \/ ((forall r, In r ranges -> ~ below r)
          /\ floor room = side_clientHeight g side /\ next = None)).
Proof.
  intros off room next above below.
  assert (Ha : forall r, halfwayAbove off (halfwayPoint fp) r = true <-> above r).
  { intros r. rewrite halfwayAbove_spec. unfold above. apply Z.ltb_lt. }
  assert (Hb : forall r, halfwayBelow off (halfwayPoint fp) r = true <-> below r).
  { intros r. rewrite halfwayBelow_spec. unfold below. apply Z.ltb_lt. }
  assert (Hna : forall r, halfwayAbove off (halfwayPoint fp) r = false -> ~ above r).
  { intros r H A. apply Ha in A. congruence. }
  assert (Hnb : forall r, halfwayBelow off (halfwayPoint fp) r = false -> ~ below r).
  { intros r H B. apply Hb in B. congruence. }
  unfold room, next. rewrite roomFor_scan. fold off. cbn [fst snd ceiling floor].
  split.
  - destruct (lastAbove off (halfwayPoint fp) ranges) as [ra|] eqn:Ea.
    + apply lastAbove_split in Ea. destruct Ea as (a1 & a2 & Era & Hra & Ha2).
      left. exists a1, ra, a2. split; [exact Era|]. split; [apply Ha, Hra|].
      split; [intros r' Hr'; apply Hna, Ha2, Hr'|reflexivity].
    + right. split; [|reflexivity]. intros r Hr. apply Hna.
      exact (lastAbove_none _ _ _ Ea r Hr).
  - destruct (firstBelowFrom 0 off (halfwayPoint fp) ranges) as [[k rb]|] eqn:Eb;
      cbn [option_map fst].
    + apply firstBelowFrom_split in Eb.
      destruct Eb as (b1 & b2 & Erb & Hk & Hrb & Hb1). cbn [Nat.add] in Hk.
      left. exists b1, rb, b2. split; [exact Erb|]. split; [apply Hb, Hrb|].
      split; [intros r' Hr'; apply Hnb, Hb1, Hr'|]. split; [reflexivity|congruence].
    + right. split; [|split; reflexivity]. intros r Hr. apply Hnb.
      exact (firstBelowFrom_none _ _ _ _ Eb r Hr).
Qed.

(** When the ranges are listed in vertical order, every range whose
    halfway point is not that of the footprint is clear of the room. *)
Lemma room_clear_of_ranges (g : Geometry) (ranges : list Range) (side : Side) (fp : Range) :
  inVerticalOrder ranges ->
  forall r, In r ranges ->
            ~ (top r + bottom r - 2 * side_offsetTop g side = top fp + bottom fp) ->
            clearOf (side_offsetTop g side) (fst (roomFor g ranges side fp)) r.
Proof.
  intros Hord r Hr Hne.
  destruct (room_scanned g ranges side fp) as [Hceil Hfloor]. cbv zeta in *.
  set (off := side_offsetTop g side) in *.
  set (room := fst (roomFor g ranges side fp)) in *.
  unfold clearOf.
  assert (Hcase : top r + bottom r - 2 * off < top fp + bottom fp
                  \/ top fp + bottom fp < top r + bottom r - 2 * off) by lia.
  destruct Hcase as [Hc|Hc]; [left|right].
  - destruct Hceil as [(l1 & ra & l2 & Era & Hra & Hl2 & ->)|[Hnone _]];
      [|exfalso; exact (Hnone r Hr Hc)].
    pose proof Hord as Hord'. rewrite Era in Hord'.
    destruct (inVerticalOrder_app _ _ _ Hord') as [H1 _].
    rewrite Era in Hr. apply in_app_or in Hr. destruct Hr as [Hr|[<-|Hr]].
    + specialize (H1 r Hr). lia.
    + lia.
    + exfalso. exact (Hl2 r Hr Hc).
  - destruct Hfloor as [(l1 & rb & l2 & Erb & Hrb & Hl1 & -> & _)|[Hnone _]];
      [|exfalso; exact (Hnone r Hr Hc)].
    pose proof Hord as Hord'. rewrite Erb in Hord'.
    destruct (inVerticalOrder_app _ _ _ Hord') as [_ H2].
    rewrite Erb in Hr. apply in_app_or in Hr. destruct Hr as [Hr|[<-|Hr]].
    + exfalso. exact (Hl1 r Hr Hc).
    + lia.
    + specialize (H2 r Hr). lia.
Qed.

(** C5, amended. For each sidenote treated by the second loop, the
    ceiling of its room is the bottom, in the coordinates of the column, of
    the last range in the order of the list whose halfway point is
    strictly above the halfway point of the footprint (0 when there is
    none), and the floor is the top of the first range in the order of
    the list whose halfway point is strictly below it (the height of the
    column when there is none), whose index is recorded as the next range
    after the sidenote. When the list is in vertical order, without
    overlap between ranges, every range whose halfway point is not that
    of the footprint lies at or above the ceiling or at or below the
    floor. *)
Theorem room_from_list_order (g : Geometry) (ranges : list Range) (side : Side) (fp : Range) :
  let off := side_offsetTop g side in
  let room := fst (roomFor g ranges side fp) in
  let next := snd (roomFor g ranges side fp) in
  let above r := top r + bottom r - 2 * off < top fp + bottom fp in
  let below r := top fp + bottom fp < top r + bottom r - 2 * off in
  ((exists l1 r l2, ranges = l1 ++ r :: l2 /\ above r
                    /\ (forall r', In r' l2 -> ~ above r')
                    /\ ceiling room = bottom r - off)
   \/ ((forall r, In r ranges -> ~ above r) /\ ceiling room = 0))
  /\ ((exists l1 r l2, ranges = l1 ++ r :: l2 /\ below r
                       /\ (forall r', In r' l1 -> ~ below r')
                       /\ floor room = top r - off /\ next = Some (length l1))
      \/ ((forall r, In r ranges -> ~ below r)
          /\ floor room = side_clientHeight g side /\ next = None))
  /\ (inVerticalOrder ranges ->
      forall r, In r ranges -> ~ (top r + bottom r - 2 * off = top fp + bottom fp) ->
                clearOf off room r).
Proof.
  intros off room next above below.
  destruct (room_scanned g ranges side fp) as [Hceil Hfloor].
  split; [exact Hceil|]. split; [exact Hfloor|].
  apply room_clear_of_ranges.
Qed.

Lemma room_from_list_order_witness :
  let g := sampleGeometry false in
  let ranges := proscribedVerticalRanges g in
  let fp := footprintAt g 2 900 in
  let figure := mkRange 900 1100 in
  inVerticalOrder ranges /\ In figure ranges
  /\ ~ (top figure + bottom figure - 2 * side_offsetTop g ColumnRight = top fp + bottom fp)
  /\ fst (roomFor g ranges ColumnRight fp) = mkRoom 0 900
  /\ clearOf (side_offsetTop g ColumnRight) (fst (roomFor g ranges ColumnRight fp)) figure.
Proof.
  cbv zeta.
  assert (Hord : inVerticalOrder (proscribedVerticalRanges (sampleGeometry false))).
  { split; repeat constructor; cbn; lia. }
  assert (Hin : In (mkRange 900 1100) (proscribedVerticalRanges (sampleGeometry false))).
  { left. reflexivity. }
  assert (Hne : ~ (top (mkRange 900 1100) + bottom (mkRange 900 1100)
                   - 2 * side_offsetTop (sampleGeometry false) ColumnRight
                   = top (footprintAt (sampleGeometry false) 2 900)
                     + bottom (footprintAt (sampleGeometry false) 2 900))).
  { cbn. lia. }
  split; [exact Hord|]. split; [exact Hin|]. split; [exact Hne|].
  split; [vm_compute; reflexivity|].
  exact (proj2 (proj2 (room_from_list_order (sampleGeometry false)
                         (proscribedVerticalRanges (sampleGeometry false))
                         ColumnRight (footprintAt (sampleGeometry false) 2 900)))
               Hord (mkRange 900 1100) Hin Hne).
Defined.

(** *** The second loop on a raised column *)

Lemma raisedColumn_turn (d : Page) :
  sidenoteColumnLeft d = [] -> sidenoteColumnRight d = [0%nat] ->
  hiddenSidenoteStorage d = [] ->
  styleTop d 0 < 650 ->
  correctOverlap raisedColumnGeometry (proscribedVerticalRanges raisedColumnGeometry) 0 d
  = (MovedPastRange, setStyleTop 0 260 d).
Proof.
  intros El Er Eh Ht. unfold correctOverlap, inHiddenStorage. rewrite Eh.
  cbn [inb existsb]. rewrite roomFor_scan.
  unfold proscribedVerticalRanges, offsetTop.
  cbn [raisedColumnGeometry potentiallyOverlappingElements map app side_clientHeight
       side_offsetTop side_rectTop lastAbove firstBelowFrom clientHeight sideOf top bottom].
  rewrite !halfwayAbove_spec, !halfwayBelow_spec.
  cbn [footprintAt top bottom clientHeight raisedColumnGeometry].
  change (sidenoteSpacing raisedColumnGeometry) with 60.
  set (t := styleTop d 0%nat) in *.
  repeat match goal with
         | |- context [?x <? ?y] => destruct (Z.ltb_spec x y); try lia
         end.
  cbn [option_map fst ceiling floor top bottom nth_error].
  match goal with |- context [?x >? ?y] => destruct (Z.gtb_spec x y); [|lia] end.
  reflexivity.
Qed.

Lemma raisedColumn_never_ends (turns : nat) :
  forall d log,
    sidenoteColumnLeft d = [] -> sidenoteColumnRight d = [0%nat] ->
    hiddenSidenoteStorage d = [] ->
    styleTop d 0 < 650 ->
    fst (fst (correctOverlapsFrom raisedColumnGeometry
                (proscribedVerticalRanges raisedColumnGeometry) turns 0 d log))
    = StillRunning.
Proof.
  induction turns as [|turns IH]; intros d log El Er Eh Ht; cbn [correctOverlapsFrom];
    cbn [raisedColumnGeometry footnoteRefs_length Nat.leb]; [reflexivity|].
  rewrite (raisedColumn_turn d El Er Eh Ht).
  apply IH; try assumption. rewrite styleTop_setStyleTop_same. lia.
Qed.

(** Why the bound on the turns supposes that no column has a negative
    [offsetTop]: with columns raised by 1000 above their offset parent,
    the sidenote that does not fit above the figure is moved to 260,
    which the loop measures against the figure shifted by the offset of
    the column and finds above the figure again; whatever the number of
    turns allowed, the call is still running. *)
Lemma raised_column_loops_forever (turns : nat) :
  fst (fst (updateSidenotePositions raisedColumnGeometry turns (constructSidenotes 1)))
  = StillRunning.
Proof.
  rewrite updateSidenotePositions_layout;
    [|reflexivity|discriminate|apply constructSidenotes_wellFormed].
  assert (H : fst (fst (correctOverlapsFrom raisedColumnGeometry
                          (proscribedVerticalRanges raisedColumnGeometry) turns 0
                          (prepared raisedColumnGeometry (constructSidenotes 1)) []))
              = StillRunning).
  { apply raisedColumn_never_ends; reflexivity. }
  destruct (correctOverlapsFrom _ _ turns 0 _ []) as [[o d3] log]. cbn [fst] in H.
  subst o. reflexivity.
Qed.

(** *** The second loop ends when no column is raised *)

Lemma plausible_ranges (g : Geometry) :
  plausible g -> Forall (fun r => top r <= bottom r) (proscribedVerticalRanges g).
Proof.
  intros (_ & _ & He). unfold proscribedVerticalRanges. apply Forall_app. split.
  - rewrite Forall_forall in *. intros r Hr. apply in_map_iff in Hr.
    destruct Hr as (e & <- & He'). specialize (He e He'). cbn [top bottom]. lia.
  - constructor; [cbn; lia|constructor].
Qed.

Lemma next_range_is_below (g : Geometry) (ranges : list Range) (side : Side) (fp : Range)
      (k : nat) (r : Range) :
  snd (roomFor g ranges side fp) = Some k -> nth_error ranges k = Some r ->
  In r ranges /\ halfwayBelow (side_offsetTop g side) (halfwayPoint fp) r = true.
Proof.
  rewrite roomFor_scan. cbn [snd]. intros Hk Hr.
  destruct (firstBelowFrom 0 _ _ ranges) as [[k' r']|] eqn:E; [|discriminate].
  cbn in Hk. inversion Hk; subst k'.
  apply firstBelowFrom_split in E. destruct E as (l1 & l2 & -> & -> & Hb & _).
  cbn [Nat.add] in Hr. rewrite nth_error_app2, Nat.sub_diag in Hr by lia.
  cbn in Hr. inversion Hr; subst r'. split; [|exact Hb].
  apply in_or_app. right. left. reflexivity.
Qed.

Lemma filter_length_lt {A : Type} (f f' : A -> bool) (l : list A) (x : A) :
  In x l -> f x = true -> f' x = false ->
  (forall y, In y l -> f' y = true -> f y = true) ->
  (length (filter f' l) < length (filter f l))%nat.
Proof.
  intros Hx Hfx Hf'x Himp.
  assert (Hle : forall l', (forall y, In y l' -> f' y = true -> f y = true) ->
                           (length (filter f' l') <= length (filter f l'))%nat).
  { induction l' as [|a l' IH]; intros H; cbn [filter length]; [lia|].
    specialize (IH (fun y Hy => H y (or_intror Hy))).
    destruct (f' a) eqn:E'.
    - rewrite (H a (or_introl eq_refl) E'). cbn [length]. lia.
    - destruct (f a); cbn [length]; lia. }
  induction l as [|a l IH]; [contradiction|]. cbn [filter].
  destruct Hx as [->|Hx].
  - rewrite Hfx, Hf'x. cbn [length].
    specialize (Hle l (fun y Hy => Himp y (or_intror Hy))). lia.
  - specialize (IH Hx (fun y Hy => Himp y (or_intror Hy))).
    destruct (f' a) eqn:E'.
    + rewrite (Himp a (or_introl eq_refl) E'). cbn [length]. lia.
    + destruct (f a); cbn [length]; lia.
Qed.

(** Moving a sidenote below the next range after it takes it down, and
    leaves strictly fewer ranges below it. *)
Lemma moved_past_range (g : Geometry) (ranges : list Range) (i : nat) (t : Z)
      (k : nat) (r : Range) :
  0 <= side_offsetTop g (sideOf i) -> 0 <= clientHeight g i ->
  Forall (fun r => top r <= bottom r) ranges ->
  snd (roomFor g ranges (sideOf i) (footprintAt g i t)) = Some k ->
  nth_error ranges k = Some r ->
  t + sidenoteSpacing g <= bottom r + sidenoteSpacing g
  /\ (pending g ranges i (bottom r + sidenoteSpacing g) < pending g ranges i t)%nat.
Proof.
  intros Hoff Hh Hw Hk Hr.
  destruct (next_range_is_below g ranges (sideOf i) _ k r Hk Hr) as [Hin Hb].
  rewrite Forall_forall in Hw. pose proof (Hw r Hin) as Hwr.
  rewrite halfwayBelow_spec in Hb. apply Z.ltb_lt in Hb.
  cbn [footprintAt top bottom] in Hb. unfold sidenoteSpacing, px in *.
  split; [lia|].
  unfold pending. apply (filter_length_lt _ _ ranges r Hin).
  - rewrite halfwayBelow_spec. apply Z.ltb_lt. cbn [footprintAt top bottom].
    unfold sidenoteSpacing, px. lia.
  - rewrite halfwayBelow_spec. apply Z.ltb_ge. cbn [footprintAt top bottom].
    unfold sidenoteSpacing, px. lia.
  - intros y _. rewrite !halfwayBelow_spec, !Z.ltb_lt. cbn [footprintAt top bottom].
    unfold sidenoteSpacing, px. lia.
Qed.

Lemma pending_bound (g : Geometry) (ranges : list Range) (i : nat) (t : Z) :
  (pending g ranges i t <= length ranges)%nat.
Proof. unfold pending. apply filter_length_le. Qed.

Lemma correctOverlapsFrom_ends (g : Geometry) :
  plausible g ->
  let ranges := proscribedVerticalRanges g in
  let n := footnoteRefs_length g in
  forall turns i d log,
    wellFormed n d ->
    ((i < n)%nat ->
     (pending g ranges i (styleTop d i) + 1 + (n - 1 - i) * (length ranges + 1) <= turns)%nat) ->
    fst (fst (correctOverlapsFrom g ranges turns i d log)) <> StillRunning.
Proof.
  intros Hp ranges n.
  pose proof (plausible_ranges g Hp) as Hw. destruct Hp as (Hoff & Hh & _).
  fold ranges in Hw. set (L := length ranges).
  assert (Hadv : forall i t turns,
             (i < n)%nat ->
             (pending g ranges i t + 1 + (n - 1 - i) * (L + 1) <= S turns)%nat ->
             forall t', (S i < n)%nat ->
             (pending g ranges (S i) t' + 1 + (n - 1 - S i) * (L + 1) <= turns)%nat).
  { intros i t turns Hi Hb t' Hsi.
    pose proof (pending_bound g ranges (S i) t') as Hpb. fold L in Hpb.
    replace (n - 1 - i)%nat with (S (n - 1 - S i)) in Hb by lia.
    rewrite Nat.mul_succ_l in Hb. lia. }
  induction turns as [|turns IH]; intros i d log wf Hb; cbn [correctOverlapsFrom]; fold n.
  - destruct (Nat.leb_spec n i) as [Hi|Hi]; [discriminate|]. specialize (Hb Hi). lia.
  - destruct (Nat.leb_spec n i) as [Hi|Hi]; [discriminate|]. specialize (Hb Hi).
    destruct (correctOverlap g ranges i d) as [how d'] eqn:Eturn.
    destruct (correctOverlap_touches n g ranges i d how d' wf Hi Eturn) as [Hs _].
    pose proof (wellFormed_sameContainers _ _ _ Hs wf) as wf'.
    assert (Hnext : fst (fst (correctOverlapsFrom g ranges turns (S i) d'
                                ((i, offsetTop d i, how) :: log))) <> StillRunning).
    { apply IH; [exact wf'|]. intros Hsi. eapply Hadv; eassumption. }
    destruct (inHiddenStorage d i) eqn:Hhid.
    { rewrite correctOverlap_hidden in Eturn by exact Hhid.
      inversion Eturn; subst. exact Hnext. }
    destruct (correctOverlap_cases n g ranges i d how d' wf Hi Hhid Eturn) as [_ Ht].
    unfold turnOutcome in Ht.
    assert (Hagain : forall k r,
               snd (roomFor g ranges (sideOf i) (footprintAt g i (styleTop d i))) = Some k ->
               nth_error ranges k = Some r ->
               styleTop d' i = bottom r + sidenoteSpacing g ->
               fst (fst (correctOverlapsFrom g ranges turns i d'
                           ((i, offsetTop d i, how) :: log))) <> StillRunning).
    { intros k r Hk Hr Et. apply IH; [exact wf'|]. intros _. rewrite Et.
      destruct (moved_past_range g ranges i (styleTop d i) k r (Hoff _) (Hh _) Hw Hk Hr)
        as [_ Hlt].
      lia. }
    destruct how; try exact Hnext; try discriminate.
    + destruct Ht as (_ & _ & k & r & Hk & Hr & Et). exact (Hagain k r Hk Hr Et).
    + destruct Ht as (_ & _ & k & r & Hk & Hr & Et). exact (Hagain k r Hk Hr Et).
Qed.

(** When no column is raised above its offset parent the second loop
    ends within a number of turns bounded by the number of sidenotes
    times the number of ranges plus one. *)
Lemma second_loop_ends (g : Geometry) (d : Page) (turns : nat) :
  plausible g -> wellFormed (footnoteRefs_length g) d ->
  (footnoteRefs_length g * (length (proscribedVerticalRanges g) + 1) <= turns)%nat ->
  fst (fst (updateSidenotePositions g turns d)) <> StillRunning.
Proof.
  intros Hp wf Hturns. unfold updateSidenotePositions.
  destruct (viewportWidthBreakpoint_matches g); [discriminate|].
  destruct (firstFullWidthBlock_offsetTop g); [|discriminate].
  destruct (prepared_spec g d wf) as (E & _ & _ & _ & _ & _ & wf2). unfold prepared in wf2.
  destruct (updateSidenotesInCollapseBlocks g d) as [c d1]. cbn [fst snd] in *. subst c.
  pose proof (correctOverlapsFrom_ends g Hp turns 0 (initialLayout g d1) [] wf2) as H.
  cbv zeta in H.
  destruct (correctOverlapsFrom g (proscribedVerticalRanges g) turns 0 (initialLayout g d1) [])
    as [[o d3] log].
  cbn [fst] in H.
  assert (Ho : o <> StillRunning).
  { apply H. intros Hn.
    pose proof (pending_bound g (proscribedVerticalRanges g) 0
                  (styleTop (initialLayout g d1) 0)) as Hpb.
    set (L := length (proscribedVerticalRanges g)) in *.
    set (n := footnoteRefs_length g) in *.
    replace n with (S (n - 1 - 0)) in Hturns by lia.
    rewrite Nat.mul_succ_l in Hturns. lia. }
  destruct o; cbn [fst]; congruence.
Qed.

Lemma sampleGeometry_plausible (thirdCollapsed : bool) :
  plausible (sampleGeometry thirdCollapsed).
Proof.
  split; [|split].
  - intros s. cbn. lia.
  - intros i. cbn. lia.
  - repeat constructor. cbn. lia.
Qed.

(** *** The number of turns of the second loop *)






(** *** The second loop reads the containers and the displayed positions only *)

Lemma agreeOn_setStyleTop (V : nat -> Prop) (i : nat) (v : Z) (d e : Page) :
  agreeOn V d e -> agreeOn V (setStyleTop i v d) (setStyleTop i v e).
Proof.
  intros (El & Er & Eh & Et). repeat split; try assumption.
  intros j Hj. rewrite !styleTop_setStyleTop, (Et j Hj). reflexivity.
Qed.

Lemma agreeOn_siblings (V : nat -> Prop) (d e : Page) (i : nat) :
  agreeOn V d e ->
  nextElementSibling e i = nextElementSibling d i
  /\ previousElementSibling e i = previousElementSibling d i
  /\ inHiddenStorage e i = inHiddenStorage d i.
Proof.
  intros (El & Er & Eh & _).
  unfold nextElementSibling, previousElementSibling, siblingsOf, inHiddenStorage.
  rewrite El, Er, Eh. repeat split.
Qed.

Lemma resolveOverlapBelow_agree (V : nat -> Prop) (g : Geometry) (ranges : list Range)
      (i : nat) (room : Room) (nx next : option nat) (fp : Range) (d e : Page) :
  agreeOn V d e -> V i ->
  (forall b, next = Some b -> V b) ->
  (forall a, previousElementSibling d i = Some a -> V a) ->
  fst (resolveOverlapBelow g ranges i room nx next fp e)
  = fst (resolveOverlapBelow g ranges i room nx next fp d)
  /\ agreeOn V (snd (resolveOverlapBelow g ranges i room nx next fp d))
               (snd (resolveOverlapBelow g ranges i room nx next fp e)).
Proof.
  intros Hs Vi Vn Vp. pose proof Hs as (_ & _ & _ & Et).
  destruct (agreeOn_siblings V d e i Hs) as (_ & Ep & _).
  unfold resolveOverlapBelow, offsetTop. rewrite Ep.
  assert (Eown : match next with
                 | Some b => bottom fp - styleTop e b
                 | None => -1
                 end
                 = match next with
                   | Some b => bottom fp - styleTop d b
                   | None => -1
                   end).
  { destruct next as [b|]; [rewrite (Et b (Vn b eq_refl))|]; reflexivity. }
  rewrite Eown.
  assert (Ehr : match previousElementSibling d i with
                | Some a => Z.min (top fp - ceiling room)
                                  (top fp - (styleTop e a + clientHeight g a))
                | None => top fp - ceiling room
                end
                = match previousElementSibling d i with
                  | Some a => Z.min (top fp - ceiling room)
                                    (top fp - (styleTop d a + clientHeight g a))
                  | None => top fp - ceiling room
                  end).
  { destruct (previousElementSibling d i) as [a|]; [rewrite (Et a (Vp a eq_refl))|];
      reflexivity. }
  rewrite Ehr. cbv zeta.
  destruct (_ <=? 0); [split; [reflexivity|exact Hs]|].
  destruct (_ >=? _).
  { cbn [fst snd]. split; [reflexivity|]. rewrite (Et i Vi). apply agreeOn_setStyleTop, Hs. }
  destruct (_ <? _).
  { destruct nx as [k|]; [destruct (nth_error ranges k)|]; cbn [fst snd];
      (split; [reflexivity|]); try exact Hs. apply agreeOn_setStyleTop, Hs. }
  destruct next as [b|]; [|split; [reflexivity|exact Hs]].
  destruct nx as [k|]; [|split; [reflexivity|exact Hs]].
  destruct (nth_error ranges k); [|split; [reflexivity|exact Hs]].
  destruct (_ >? _); [split; [reflexivity|exact Hs]|].
  cbn [fst snd]. split; [reflexivity|].
  rewrite (Et i Vi).
  match goal with
  | |- agreeOn V (setStyleTop b (parseInt g (styleTop ?d1 b) + ?v) ?d1)
                 (setStyleTop b (parseInt g (styleTop ?e1 b) + ?v) ?e1) =>
      assert (H1 : agreeOn V d1 e1) by (apply agreeOn_setStyleTop, Hs);
      destruct H1 as (A1 & A2 & A3 & A4); rewrite (A4 b (Vn b eq_refl));
      apply agreeOn_setStyleTop; repeat split; assumption
  end.
Qed.

Lemma correctOverlap_agree (V : nat -> Prop) (g : Geometry) (ranges : list Range)
      (i : nat) (d e : Page) :
  agreeOn V d e ->
  (inHiddenStorage d i = false ->
   V i /\ (forall b, nextElementSibling d i = Some b -> V b)
   /\ (forall a, previousElementSibling d i = Some a -> V a)) ->
  fst (correctOverlap g ranges i e) = fst (correctOverlap g ranges i d)
  /\ agreeOn V (snd (correctOverlap g ranges i d)) (snd (correctOverlap g ranges i e)).
Proof.
  intros Hs HV. pose proof Hs as (_ & _ & _ & Et).
  destruct (agreeOn_siblings V d e i Hs) as (En & _ & Eh).
  unfold correctOverlap, offsetTop. rewrite En, Eh.
  destruct (inHiddenStorage d i); [split; [reflexivity|exact Hs]|].
  destruct (HV eq_refl) as (Vi & Vn & Vp). rewrite (Et i Vi).
  destruct (roomFor g ranges (sideOf i) (footprintAt g i (styleTop d i))) as [room nx].
  destruct (_ >? _).
  { destruct nx as [k|]; [destruct (nth_error ranges k)|]; cbn [fst snd];
      (split; [reflexivity|]); try exact Hs. apply agreeOn_setStyleTop, Hs. }
  destruct (_ >? _).
  - apply resolveOverlapBelow_agree; try assumption. apply agreeOn_setStyleTop, Hs.
  - apply resolveOverlapBelow_agree; assumption.
Qed.

Lemma displayed_sameContainers (g : Geometry) (d d' : Page) (i : nat) :
  sameContainers d d' -> displayed g d i -> displayed g d' i.
Proof.
  intros Hs [Hi Hh]. split; [exact Hi|].
  rewrite (proj2 (proj2 (sameContainers_siblings d d' i Hs))). exact Hh.
Qed.

Lemma agreeOn_weaken (V W : nat -> Prop) (d e : Page) :
  (forall i, W i -> V i) -> agreeOn V d e -> agreeOn W d e.
Proof. intros H (El & Er & Eh & Et). repeat split; auto. Qed.

(** From two pages with the same containers and the same positions of
    the displayed sidenotes the second loop ends the same way and leaves
    the same positions of the displayed sidenotes. *)
Lemma correctOverlapsFrom_agree (g : Geometry) (ranges : list Range) (turns : nat) :
  forall i d e log1 log2,
    wellFormed (footnoteRefs_length g) d ->
    agreeOn (displayed g d) d e ->
    fst (fst (correctOverlapsFrom g ranges turns i e log2))
    = fst (fst (correctOverlapsFrom g ranges turns i d log1))
    /\ agreeOn (displayed g d)
               (snd (fst (correctOverlapsFrom g ranges turns i d log1)))
               (snd (fst (correctOverlapsFrom g ranges turns i e log2))).
Proof.
  induction turns as [|turns IH]; intros i d e log1 log2 wf Hs; cbn [correctOverlapsFrom].
  - destruct (Nat.leb (footnoteRefs_length g) i); split; try reflexivity; exact Hs.
  - destruct (Nat.leb_spec (footnoteRefs_length g) i) as [Hi|Hi];
      [split; [reflexivity|exact Hs]|].
    assert (HV : inHiddenStorage d i = false ->
                 displayed g d i
                 /\ (forall b, nextElementSibling d i = Some b -> displayed g d b)
                 /\ (forall a, previousElementSibling d i = Some a -> displayed g d a)).
    { intros Hh. split; [split; assumption|]. split.
      - intros b Hb.
        destruct (nextElementSibling_displayed _ d i b wf Hi Hh Hb) as (_ & H2 & _ & H4).
        split; assumption.
      - intros a Ha.
        destruct (previousElementSibling_displayed _ d i a wf Hi Hh Ha) as (H1 & _ & H3).
        split; [lia|assumption]. }
    destruct (correctOverlap_agree _ g ranges i d e Hs HV) as [Eh Hs'].
    destruct (correctOverlap g ranges i d) as [how d1] eqn:Ed.
    destruct (correctOverlap g ranges i e) as [how2 e1] eqn:Ee.
    cbn [fst snd] in Eh, Hs'. subst how2.
    destruct (correctOverlap_touches _ g ranges i d how d1 wf Hi Ed) as [Hc _].
    pose proof (wellFormed_sameContainers _ _ _ Hc wf) as wf1.
    assert (Hrec : forall i' l1 l2,
               fst (fst (correctOverlapsFrom g ranges turns i' e1 l2))
               = fst (fst (correctOverlapsFrom g ranges turns i' d1 l1))
               /\ agreeOn (displayed g d)
                          (snd (fst (correctOverlapsFrom g ranges turns i' d1 l1)))
                          (snd (fst (correctOverlapsFrom g ranges turns i' e1 l2)))).
    { intros i' l1 l2.
      assert (Hs1 : agreeOn (displayed g d1) d1 e1).
      { apply (agreeOn_weaken (displayed g d)); [|exact Hs'].
        intros j Hj. apply (displayed_sameContainers g d1 d); [|exact Hj].
        destruct Hc as (A & B & C & D & E). repeat split; congruence. }
      destruct (IH i' d1 e1 l1 l2 wf1 Hs1) as [Ho Ha]. split; [exact Ho|].
      apply (agreeOn_weaken (displayed g d1)); [|exact Ha].
      intros j Hj. apply (displayed_sameContainers g d d1 j Hc Hj). }
    destruct how; try (apply Hrec); split; try reflexivity; exact Hs'.
Qed.

Lemma displayed_prepared (g : Geometry) (d : Page) (i : nat) :
  wellFormed (footnoteRefs_length g) d ->
  displayed g (prepared g d) i
  <-> (i < footnoteRefs_length g)%nat /\ collapsed g i = false.
Proof.
  intros wf. destruct (prepared_spec g d wf) as (_ & _ & Hh & _).
  unfold displayed. rewrite (inHiddenStorage_stored g _ i Hh).
  destruct (Nat.ltb_spec i (footnoteRefs_length g)); cbn [andb]; intuition (lia || congruence).
Qed.

(** A call keeps the position of every sidenote that is not displayed. *)
Lemma positions_kept (g : Geometry) (turns : nat) (d : Page) (i : nat) :
  wellFormed (footnoteRefs_length g) d ->
  ~ displayed g (prepared g d) i ->
  styleTop (snd (fst (updateSidenotePositions g turns d))) i = styleTop d i.
Proof.
  intros wf Hnd.
  destruct (prepared_spec g d wf) as (E & _ & Hh & _ & _ & Ht & wf2).
  assert (Hcase : (footnoteRefs_length g <= i)%nat \/ inHiddenStorage (prepared g d) i = true).
  { unfold displayed in Hnd. destruct (inHiddenStorage (prepared g d) i); [right; reflexivity|].
    left. destruct (Nat.le_gt_cases (footnoteRefs_length g) i); [assumption|].
    exfalso. apply Hnd. split; [assumption|reflexivity]. }
  assert (Hinit : styleTop (prepared g d) i = styleTop d i).
  { rewrite Ht. destruct Hcase as [Hi|Hi].
    - destruct (Nat.ltb_spec i (footnoteRefs_length g)); [lia|reflexivity].
    - rewrite (inHiddenStorage_stored g _ i Hh) in Hi.
      apply andb_true_iff in Hi. destruct Hi as [-> ->]. reflexivity. }
  unfold updateSidenotePositions.
  destruct (viewportWidthBreakpoint_matches g); [reflexivity|].
  destruct (firstFullWidthBlock_offsetTop g); [|reflexivity].
  unfold prepared in *.
  destruct (updateSidenotesInCollapseBlocks g d) as [c d1]. cbn [fst snd] in *. subst c.
  destruct (correctOverlapsFrom g (proscribedVerticalRanges g) turns 0 (initialLayout g d1) [])
    as [[o d3] log] eqn:Eloop.
  destruct (correctOverlapsFrom_touches g _ turns 0 _ [] o d3 log wf2 Eloop) as (_ & Hk & _).
  assert (Hd3 : styleTop d3 i = styleTop d i).
  { rewrite Hk; [exact Hinit|]. destruct Hcase; auto. }
  destruct o; exact Hd3.
Qed.

(** The outcome of a call and the positions it leaves to the displayed
    sidenotes do not depend on the positions found on the page. *)
Lemma layout_ignores_previous_positions (g : Geometry) (turns : nat) (d e : Page) :
  viewportWidthBreakpoint_matches g = false ->
  firstFullWidthBlock_offsetTop g <> None ->
  wellFormed (footnoteRefs_length g) d ->
  wellFormed (footnoteRefs_length g) e ->
  fst (fst (updateSidenotePositions g turns e)) = fst (fst (updateSidenotePositions g turns d))
  /\ forall i, (i < footnoteRefs_length g)%nat -> collapsed g i = false ->
               styleTop (snd (fst (updateSidenotePositions g turns e))) i
               = styleTop (snd (fst (updateSidenotePositions g turns d))) i.
Proof.
  intros Hv Hf wfd wfe.
  rewrite !updateSidenotePositions_layout by assumption.
  destruct (prepared_spec g d wfd) as (_ & Hcd & Hhd & _ & _ & Htd & wfp).
  destruct (prepared_spec g e wfe) as (_ & Hce & Hhe & _ & _ & Hte & _).
  assert (Hs : agreeOn (displayed g (prepared g d)) (prepared g d) (prepared g e)).
  { split; [exact (eq_trans (Hce ColumnLeft) (eq_sym (Hcd ColumnLeft)))|].
    split; [exact (eq_trans (Hce ColumnRight) (eq_sym (Hcd ColumnRight)))|].
    split; [congruence|].
    intros i Hi. apply (displayed_prepared g d i wfd) in Hi. destruct Hi as [Hi Hc].
    rewrite Htd, Hte, Hc. destruct (Nat.ltb_spec i (footnoteRefs_length g)); [|lia].
    reflexivity. }
  destruct (correctOverlapsFrom_agree g (proscribedVerticalRanges g) turns 0
              (prepared g d) (prepared g e) [] [] wfp Hs) as [Ho Ha].
  destruct (correctOverlapsFrom g (proscribedVerticalRanges g) turns 0 (prepared g d) [])
    as [[o d3] logd].
  destruct (correctOverlapsFrom g (proscribedVerticalRanges g) turns 0 (prepared g e) [])
    as [[o2 e3] loge].
  cbn [fst snd] in Ho, Ha. subst o2.
  assert (Ht : forall i, (i < footnoteRefs_length g)%nat -> collapsed g i = false ->
                         styleTop e3 i = styleTop d3 i).
  { intros i Hi Hc. apply Ha. apply (displayed_prepared g d i wfd). split; assumption. }
  destruct o; cbn [fst snd]; split; try reflexivity; exact Ht.
Qed.

(** C8. A second call of [updateSidenotePositions], with the geometry
    and the states of the collapse blocks unchanged, ends as the first
    did and leaves every sidenote, displayed or stored, at the position
    the first call left it. *)
Theorem second_call_changes_no_position (g : Geometry) (turns : nat) (d : Page) :
  wellFormed (footnoteRefs_length g) d ->
  let first := updateSidenotePositions g turns d in
  let second := updateSidenotePositions g turns (snd (fst first)) in
  fst (fst second) = fst (fst first)
  /\ forall i, styleTop (snd (fst second)) i = styleTop (snd (fst first)) i.
Proof.
  intros wf first second.
  pose proof (updateSidenotePositions_wellFormed g turns d wf) as wf1. fold first in wf1.
  destruct (viewportWidthBreakpoint_matches g) eqn:Hv.
  { unfold second, first, updateSidenotePositions. rewrite Hv. cbn [fst snd].
    rewrite ?Hv. split; reflexivity. }
  destruct (firstFullWidthBlock_offsetTop g) as [z|] eqn:Hf.
  2:{ unfold second, first, updateSidenotePositions. rewrite Hv, Hf. cbn [fst snd].
      rewrite ?Hv, ?Hf. split; reflexivity. }
  assert (Hf' : firstFullWidthBlock_offsetTop g <> None) by congruence.
  destruct (layout_ignores_previous_positions g turns d (snd (fst first)) Hv Hf' wf wf1)
    as [Ho Ht].
  fold second in Ho, Ht. split; [exact Ho|].
  intros i.
  destruct (Nat.ltb_spec i (footnoteRefs_length g)) as [Hi|Hi];
    [destruct (collapsed g i) eqn:Hc|].
  - unfold second. apply positions_kept; [exact wf1|].
    rewrite (displayed_prepared g _ i wf1). intros [_ H]. congruence.
  - rewrite (Ht i Hi Hc). reflexivity.
  - unfold second. apply positions_kept; [exact wf1|].
    rewrite (displayed_prepared g _ i wf1). intros [H _]. lia.
Qed.

Lemma second_call_changes_no_position_witness :
  wellFormed 5 samplePage
  /\ fst (fst (updateSidenotePositions (sampleGeometry true) 30
                 (snd (fst (updateSidenotePositions (sampleGeometry true) 30 samplePage)))))
     = fst (fst (updateSidenotePositions (sampleGeometry true) 30 samplePage))
  /\ forall i,
       styleTop (snd (fst (updateSidenotePositions (sampleGeometry true) 30
                   (snd (fst (updateSidenotePositions (sampleGeometry true) 30 samplePage)))))) i
       = styleTop (snd (fst (updateSidenotePositions (sampleGeometry true) 30 samplePage))) i.
Proof.
  split; [exact samplePage_wellFormed|].
  exact (second_call_changes_no_position (sampleGeometry true) 30 samplePage
           samplePage_wellFormed).
Defined.

(** *** Giving up *)

Lemma gaveUp_untouched (g : Geometry) (ranges : list Range) (turns : nat) :
  forall i0 d log d' log',
    wellFormed (footnoteRefs_length g) d ->
    correctOverlapsFrom g ranges turns i0 d log = (GaveUp, d', log') ->
    exists i t rest,
      log' = (i, t, GivingUp) :: rest
      /\ (i0 <= i < footnoteRefs_length g)%nat
      /\ forall j, (i < j)%nat ->
                   (forall a, (i0 <= a <= i)%nat -> nextElementSibling d a <> Some j) ->
                   styleTop d' j = styleTop d j.
Proof.
  induction turns as [|turns IH]; intros i0 d log d' log' wf E; cbn [correctOverlapsFrom] in E.
  - destruct (Nat.leb (footnoteRefs_length g) i0); discriminate.
  - destruct (Nat.leb_spec (footnoteRefs_length g) i0) as [Hi|Hi]; [discriminate|].
    destruct (correctOverlap g ranges i0 d) as [how d1] eqn:Eturn.
    destruct (correctOverlap_touches _ g ranges i0 d how d1 wf Hi Eturn) as [Hs _].
    pose proof (wellFormed_sameContainers _ _ _ Hs wf) as wf1.
    assert (Hkept : forall j, (i0 < j)%nat -> nextElementSibling d i0 <> Some j ->
                              styleTop d1 j = styleTop d j).
    { intros j Hj Hn. destruct (inHiddenStorage d i0) eqn:Hh.
      - rewrite correctOverlap_hidden in Eturn by exact Hh. inversion Eturn; subst.
        reflexivity.
      - destruct (correctOverlap_cases _ g ranges i0 d how d1 wf Hi Hh Eturn) as [_ Ht].
        apply (turnOutcome_kept _ _ _ _ _ _ Ht); [lia|exact Hn]. }
    assert (Hrec : forall i1, (i0 <= i1)%nat ->
               correctOverlapsFrom g ranges turns i1 d1 ((i0, offsetTop d i0, how) :: log)
               = (GaveUp, d', log') ->
               exists i t rest,
                 log' = (i, t, GivingUp) :: rest
                 /\ (i0 <= i < footnoteRefs_length g)%nat
                 /\ forall j, (i < j)%nat ->
                      (forall a, (i0 <= a <= i)%nat -> nextElementSibling d a <> Some j) ->
                      styleTop d' j = styleTop d j).
    { intros i1 Hi1 E1. destruct (IH i1 d1 _ d' log' wf1 E1) as (i & t & rest & El & Hr & Hj).
      exists i, t, rest. split; [exact El|]. split; [lia|].
      intros j Hij Hn. rewrite Hj.
      - apply Hkept; [lia|]. apply Hn. lia.
      - exact Hij.
      - intros a Ha. rewrite (proj1 (sameContainers_siblings d d1 a Hs)). apply Hn. lia. }
    destruct how; try (apply (Hrec (S i0)); [lia|exact E]);
      try (apply (Hrec i0); [lia|exact E]); try discriminate.
    inversion E; subst. exists i0, (offsetTop d i0), log.
    split; [reflexivity|]. split; [lia|]. intros j Hj Hn. apply Hkept; [exact Hj|].
    apply Hn. lia.
Qed.

(** The second relocation, taken when the sidenote overlaps the floor
    of its room beyond its headroom, does not test that a range was found
    below the sidenote as the first does: with a sidenote that reaches
    past the end of its column and whose previous sibling leaves it 40 of
    headroom, the call ends on an exception, the columns not shown. *)
Lemma floor_overlap_without_range_throws :
  let '(o, d', log) := updateSidenotePositions lowSidenoteGeometry 10 (constructSidenotes 3) in
  o = Threw
  /\ log = [(2%nat, 900, TypeError); (1%nat, 100, NeedsNoAdjustment);
            (0%nat, 500, NeedsNoAdjustment)]
  /\ leftColumnShown d' = false /\ rightColumnShown d' = false.
Proof. vm_compute. repeat split; reflexivity. Qed.

(** C2, as stated, fails: the sample page, laid out, is laid out again
    after its second sidenote (left column) has grown beyond the height
    of the columns. The call gives up; the overflowing sidenote is not at
    its previous position, 500, but at 5060, below the end of its column;
    and the right column is not laid out: its sidenote [sn3], which the
    previous layout had at 740, above the figure, is left at its default
    position, 900, across the figure (900 to 1100). *)
Lemma giving_up_keeps_no_previous_layout :
  let previous := samplePage in
  let '(o, d', _) := updateSidenotePositions tallSidenoteGeometry 30 previous in
  o = GaveUp
  /\ sideOf 1 = ColumnLeft /\ styleTop previous 1 = 500 /\ styleTop d' 1 = 5060
  /\ sideOf 2 = ColumnRight /\ styleTop previous 2 = 740 /\ styleTop d' 2 = 900
  /\ In (mkRange 900 1100) (proscribedVerticalRanges tallSidenoteGeometry).
Proof. vm_compute. repeat split; auto. Qed.

(** C2, amended. When the engine gives up on a sidenote, the whole call
    returns at once, for both columns: the visibility of the columns is
    left as it was; every displayed sidenote after the overflowing one, in
    either column, that is not the next sibling of a sidenote already
    treated is left at its default position, not laid out; and the
    positions left to the displayed sidenotes are those assigned by this
    call so far, whatever the positions of the previous layout were. *)
Theorem giving_up_ends_the_whole_call (g : Geometry) (turns : nat) (d d' : Page)
        (log : list (nat * Z * Disposition)) :
  wellFormed (footnoteRefs_length g) d ->
  updateSidenotePositions g turns d = (GaveUp, d', log) ->
  sameVisibility d d'
  /\ (exists i t rest,
         log = (i, t, GivingUp) :: rest
         /\ forall j, (i < j < footnoteRefs_length g)%nat -> collapsed g j = false ->
                      (forall a, (a <= i)%nat -> nextElementSibling d' a <> Some j) ->
                      styleTop d' j = defaultTop g j)
  /\ (forall e, wellFormed (footnoteRefs_length g) e ->
                fst (fst (updateSidenotePositions g turns e)) = GaveUp
                /\ forall j, (j < footnoteRefs_length g)%nat -> collapsed g j = false ->
                             styleTop (snd (fst (updateSidenotePositions g turns e))) j
                             = styleTop d' j).
Proof.
  intros wf E.
  assert (Hv : viewportWidthBreakpoint_matches g = false).
  { unfold updateSidenotePositions in E.
    destruct (viewportWidthBreakpoint_matches g); [discriminate|reflexivity]. }
  assert (Hf : firstFullWidthBlock_offsetTop g <> None).
  { unfold updateSidenotePositions in E. rewrite Hv in E.
    destruct (firstFullWidthBlock_offsetTop g); [discriminate|discriminate]. }
  split; [|split].
  - pose proof (updateSidenotePositions_visibility g turns d) as H. rewrite E in H. exact H.
  - rewrite updateSidenotePositions_layout in E by assumption.
    destruct (prepared_spec g d wf) as (_ & _ & _ & _ & _ & Ht & wf2).
    destruct (correctOverlapsFrom g (proscribedVerticalRanges g) turns 0 (prepared g d) [])
      as [[o d3] log3] eqn:Eloop.
    assert (o = GaveUp /\ d3 = d' /\ log3 = log) as (-> & -> & ->).
    { destruct o; inversion E; auto. }
    destruct (gaveUp_untouched g _ turns 0 _ [] d' log wf2 Eloop)
      as (i & t & rest & El & Hr & Hj).
    destruct (correctOverlapsFrom_touches g _ turns 0 _ [] _ _ _ wf2 Eloop) as (Hs & _).
    exists i, t, rest. split; [exact El|].
    intros j Hij Hc Hn. rewrite Hj; [|lia|].
    + rewrite Ht, Hc. destruct (Nat.ltb_spec j (footnoteRefs_length g)); [reflexivity|lia].
    + intros a Ha. rewrite <- (proj1 (sameContainers_siblings _ _ a Hs)). apply Hn. lia.
  - intros e wfe.
    destruct (layout_ignores_previous_positions g turns d e Hv Hf wf wfe) as [Ho Hp].
    rewrite E in Ho, Hp. cbn [fst snd] in Ho, Hp. split; assumption.
Qed.

Lemma giving_up_ends_the_whole_call_witness :
  let g := tallSidenoteGeometry in
  let d' := snd (fst (updateSidenotePositions g 30 samplePage)) in
  let log := snd (updateSidenotePositions g 30 samplePage) in
  wellFormed 5 samplePage
  /\ updateSidenotePositions g 30 samplePage = (GaveUp, d', log)
  /\ sameVisibility samplePage d'
  /\ (exists i t rest,
         log = (i, t, GivingUp) :: rest
         /\ forall j, (i < j < 5)%nat -> collapsed g j = false ->
                      (forall a, (a <= i)%nat -> nextElementSibling d' a <> Some j) ->
                      styleTop d' j = defaultTop g j)
  /\ (forall e, wellFormed 5 e ->
                fst (fst (updateSidenotePositions g 30 e)) = GaveUp
                /\ forall j, (j < 5)%nat -> collapsed g j = false ->
                             styleTop (snd (fst (updateSidenotePositions g 30 e))) j
                             = styleTop d' j).
Proof.
  cbv zeta. split; [exact samplePage_wellFormed|].
  assert (E : updateSidenotePositions tallSidenoteGeometry 30 samplePage
              = (GaveUp, snd (fst (updateSidenotePositions tallSidenoteGeometry 30 samplePage)),
                 snd (updateSidenotePositions tallSidenoteGeometry 30 samplePage))).
  { vm_compute. reflexivity. }
  split; [exact E|].
  exact (giving_up_ends_the_whole_call tallSidenoteGeometry 30 samplePage
           (snd (fst (updateSidenotePositions tallSidenoteGeometry 30 samplePage)))
           (snd (updateSidenotePositions tallSidenoteGeometry 30 samplePage))
           samplePage_wellFormed E).
Defined.

(** *** Default positions *)

Lemma correctOverlap_settled (g : Geometry) (ranges : list Range) (i : nat) (d : Page) :
  inHiddenStorage d i = false ->
  let fp := footprintAt g i (styleTop d i) in
  let room := fst (roomFor g ranges (sideOf i) fp) in
  ceiling room <= top fp -> bottom fp <= floor room ->
  (forall b, nextElementSibling d i = Some b -> bottom fp <= styleTop d b) ->
  correctOverlap g ranges i d = (NeedsNoAdjustment, d).
Proof.
  intros Hh fp room Hc Hf Hn. unfold correctOverlap. rewrite Hh. unfold offsetTop.
  fold fp. unfold room in *. destruct (roomFor g ranges (sideOf i) fp) as [rm nx].
  cbn [fst] in *. cbv zeta.
  destruct (Z.gtb_spec (bottom fp - top fp) (floor rm - ceiling rm)); [lia|].
  destruct (Z.gtb_spec (ceiling rm - top fp) 0); [lia|].
  unfold resolveOverlapBelow, offsetTop. cbv zeta.
  match goal with |- context [?x <=? 0] => destruct (Z.leb_spec x 0) as [|Hlt] end;
    [reflexivity|].
  exfalso. destruct (nextElementSibling d i) as [b|]; [specialize (Hn b eq_refl)|]; lia.
Qed.

Lemma correctOverlapsFrom_settled (g : Geometry) (ranges : list Range) (turns : nat) :
  forall i d log,
    (forall j, (i <= j < footnoteRefs_length g)%nat -> inHiddenStorage d j = false ->
       let fp := footprintAt g j (styleTop d j) in
       let room := fst (roomFor g ranges (sideOf j) fp) in
       ceiling room <= top fp /\ bottom fp <= floor room
       /\ forall b, nextElementSibling d j = Some b -> bottom fp <= styleTop d b) ->
    (footnoteRefs_length g - i <= turns)%nat ->
    exists log', correctOverlapsFrom g ranges turns i d log = (Success, d, log').
Proof.
  induction turns as [|turns IH]; intros i d log Hall Hturns; cbn [correctOverlapsFrom].
  - destruct (Nat.leb_spec (footnoteRefs_length g) i); [eauto|lia].
  - destruct (Nat.leb_spec (footnoteRefs_length g) i) as [Hi|Hi]; [eauto|].
    destruct (inHiddenStorage d i) eqn:Hh.
    + rewrite correctOverlap_hidden by exact Hh.
      apply IH; [|lia]. intros j Hj. apply Hall. lia.
    + destruct (Hall i ltac:(lia) Hh) as (Hc & Hf & Hn).
      rewrite (correctOverlap_settled g ranges i d Hh Hc Hf Hn).
      apply IH; [|lia]. intros j Hj. apply Hall. lia.
Qed.

(** C4, as stated, fails. With the citation 96 below the top of the
    column the first loop puts the sidenote at 100, four pixels lower, and
    there it stays. With the citation 50 above the top of the column it
    puts the sidenote at -46: nothing clamps the default position. With
    the citation 26 below the top of the column, and neither an obstacle
    nor a neighbour, the call moves the sidenote from its default
    position, 30, to 60. With the citation 96.5 pixels below the top of
    the column the first loop puts the sidenote at 101 pixels, not at
    100.5. *)
Lemma default_position_is_not_the_anchor_offset :
  let anchorOffset g := footnoteRef_rectTop g 0 - side_rectTop g (sideOf 0) in
  let start := constructSidenotes 1 in
  let final g := snd (fst (updateSidenotePositions g 5 start)) in
  (anchorOffset (loneSidenoteGeometry 96) = 96
   /\ styleTop (prepared (loneSidenoteGeometry 96) start) 0 = 100
   /\ styleTop (final (loneSidenoteGeometry 96)) 0 = 100)
  /\ (anchorOffset (loneSidenoteGeometry (-50)) = -50
      /\ styleTop (prepared (loneSidenoteGeometry (-50)) start) 0 = -46)
  /\ (potentiallyOverlappingElements (loneSidenoteGeometry 26) = []
      /\ nextElementSibling (prepared (loneSidenoteGeometry 26) start) 0 = None
      /\ previousElementSibling (prepared (loneSidenoteGeometry 26) start) 0 = None
      /\ styleTop (prepared (loneSidenoteGeometry 26) start) 0 = 30
      /\ fst (fst (updateSidenotePositions (loneSidenoteGeometry 26) 5 start)) = Success
      /\ styleTop (final (loneSidenoteGeometry 26)) 0 = 60)
  /\ (layoutUnit halfPixelGeometry = 2%positive
      /\ anchorOffset halfPixelGeometry = 193
      /\ styleTop (prepared halfPixelGeometry start) 0 = px halfPixelGeometry 101).
Proof. vm_compute. repeat split; reflexivity. Qed.

(** *** Sidenotes that keep their default position *)

(** [Math.round] gives a whole number of pixels, within half a pixel of
    its argument; a half goes up. *)
Lemma Math_round_spec (g : Geometry) (x : Z) :
  exists pixels, Math_round g x = px g pixels
                 /\ - Z.pos (layoutUnit g) <= 2 * (x - px g pixels) < Z.pos (layoutUnit g).
Proof.
  unfold Math_round, px. set (u := Z.pos (layoutUnit g)).
  exists ((2 * x + u) / (2 * u)).
  assert (Hu : 0 < u) by (subst u; lia).
  pose proof (Z.div_mod (2 * x + u) (2 * u) ltac:(lia)) as Hd.
  pose proof (Z.mod_pos_bound (2 * x + u) (2 * u) ltac:(lia)) as Hm.
  split; [reflexivity|]. lia.
Qed.


Lemma correctOverlapsFrom_keeps_default (g : Geometry) (d : Page) (i : nat) :
  wellFormed (footnoteRefs_length g) d ->
  (i < footnoteRefs_length g)%nat -> collapsed g i = false ->
  (forall a, (a <= i)%nat -> sideOf a = sideOf i -> collapsed g a = false ->
             unconstrainedAtDefault g d a) ->
  forall turns j p log,
    sameContainers (prepared g d) p ->
    atDefaultFrom g i j p ->
    styleTop (snd (fst (correctOverlapsFrom g (proscribedVerticalRanges g) turns j p log))) i
    = defaultTop g i.
Proof.
  intros wf Hi Hc Hfree.
  destruct (prepared_spec g d wf) as (_ & _ & Hst & _ & _ & _ & wf0).
  set (ranges := proscribedVerticalRanges g). set (n := footnoteRefs_length g) in *.
  assert (Hhid : forall p a, sameContainers (prepared g d) p -> (a < n)%nat ->
                             inHiddenStorage p a = collapsed g a).
  { intros p a Hs Ha.
    rewrite (proj2 (proj2 (sameContainers_siblings _ _ a Hs))).
    rewrite (inHiddenStorage_stored g _ a Hst). fold n.
    destruct (Nat.ltb_spec a n); [reflexivity|lia]. }
  induction turns as [|turns IH]; intros j p log Hs Hinv; cbn [correctOverlapsFrom]; fold n.
  - destruct (Nat.leb n j); cbn [fst snd]; exact (proj1 Hinv).
  - destruct (Nat.leb_spec n j) as [Hj|Hj]; [cbn [fst snd]; exact (proj1 Hinv)|].
    pose proof (wellFormed_sameContainers _ _ _ Hs wf0) as wfp.
    destruct (correctOverlap g ranges j p) as [how p'] eqn:Eturn.
    destruct (correctOverlap_touches n g ranges j p how p' wfp Hj Eturn) as [Hs' Hbelow].
    pose proof (sameContainers_trans _ _ _ Hs Hs') as Hs2.
    (* the sidenotes of the column of [i] from [j] on are not moved *)
    assert (Hsame : (forall a, (j <= a)%nat -> (a < n)%nat -> sideOf a = sideOf i ->
                               collapsed g a = false -> styleTop p' a = styleTop p a)
                    \/ (i < j)%nat ->
                    atDefaultFrom g i j p' /\ atDefaultFrom g i (S j) p').
    { intros [Hk|Hlt].
      - destruct Hinv as [I1 I2]. split; split.
        + destruct (Nat.le_gt_cases j i) as [Hle|Hgt].
          * rewrite (Hk i Hle Hi eq_refl Hc). exact I1.
          * rewrite (Hbelow i (or_introl Hgt)). exact I1.
        + intros Hle a Ha Han Hside Hca. rewrite (Hk a Ha Han Hside Hca).
          apply I2; assumption.
        + destruct (Nat.le_gt_cases j i) as [Hle|Hgt].
          * rewrite (Hk i Hle Hi eq_refl Hc). exact I1.
          * rewrite (Hbelow i (or_introl Hgt)). exact I1.
        + intros Hle a Ha Han Hside Hca. rewrite (Hk a ltac:(lia) Han Hside Hca).
          apply I2; try assumption; lia.
      - destruct Hinv as [I1 _].
        split; (split; [rewrite (Hbelow i (or_introl Hlt)); exact I1|lia]). }
    assert (Hgoal : atDefaultFrom g i j p' /\ atDefaultFrom g i (S j) p').
    { destruct (Nat.le_gt_cases j i) as [Hle|Hgt]; [|apply Hsame; right; exact Hgt].
      destruct (inHiddenStorage p j) eqn:Hhj.
      { rewrite correctOverlap_hidden in Eturn by exact Hhj. inversion Eturn; subst.
        apply Hsame. left. reflexivity. }
      destruct (Side_eq_dec (sideOf j) (sideOf i)) as [Hside|Hside].
      - (* a sidenote of the column of [i], at or before [i] *)
        rewrite (Hhid p j Hs Hj) in Hhj.
        destruct (Hfree j Hle Hside Hhj) as (Hceil & Hfloor & Hnext).
        destruct Hinv as [I1 I2].
        pose proof (I2 Hle j (Nat.le_refl j) Hj Hside Hhj) as Ej.
        assert (Eset : correctOverlap g ranges j p = (NeedsNoAdjustment, p)).
        { apply correctOverlap_settled.
          - rewrite (Hhid p j Hs Hj). exact Hhj.
          - rewrite Ej. exact Hceil.
          - rewrite Ej. exact Hfloor.
          - intros b Hb. rewrite Ej.
            pose proof Hb as Hb0.
            rewrite (proj1 (sameContainers_siblings _ _ j Hs)) in Hb0.
            assert (Hhp : inHiddenStorage p j = false) by (rewrite (Hhid p j Hs Hj); exact Hhj).
            destruct (nextElementSibling_displayed n p j b wfp Hj Hhp Hb)
              as (Hjb & Hbn & Hbside & Hbh).
            rewrite (Hhid p b Hs Hbn) in Hbh.
            rewrite (I2 Hle b ltac:(lia) Hbn ltac:(congruence) Hbh).
            apply Hnext. exact Hb0. }
        rewrite Eset in Eturn. inversion Eturn; subst.
        apply Hsame. left. reflexivity.
      - (* a sidenote of the other column *)
        destruct (correctOverlap_cases n g ranges j p how p' wfp Hj Hhj Eturn) as [_ Ht].
        pose proof (turnOutcome_kept g ranges j p how p' Ht) as Hk.
        apply Hsame. left. intros a Ha Han Haside Hca. apply Hk.
        + intros ->. congruence.
        + intros Hn.
          destruct (nextElementSibling_displayed n p j a wfp Hj Hhj Hn) as (_ & _ & Hx & _).
          congruence. }
    destruct Hgoal as [Hagain Hnext].
    destruct how; cbn [fst snd];
      try (apply IH; [exact Hs2|exact Hnext]);
      try (apply IH; [exact Hs2|exact Hagain]);
      exact (proj1 Hagain).
Qed.

Lemma previousIn_app (a b : nat) (l1 l2 : list nat) :
  ~ In b l1 -> b <> a -> previousIn b (l1 ++ a :: b :: l2) = Some a.
Proof.
  induction l1 as [|x l1 IH]; intros Hn Hne.
  - cbn. rewrite Nat.eqb_refl. reflexivity.
  - destruct l1 as [|y l1].
    + specialize (IH (fun H => match H with end) Hne). cbn in IH |- *.
      destruct (Nat.eqb_spec a b); [congruence|exact IH].
    + change (previousIn b ((x :: y :: l1) ++ a :: b :: l2))
        with (if Nat.eqb y b then Some x else previousIn b ((y :: l1) ++ a :: b :: l2)).
      destruct (Nat.eqb_spec y b) as [->|_]; [exfalso; apply Hn; right; left; reflexivity|].
      apply IH; [|exact Hne]. intros H. apply Hn. right. exact H.
Qed.

Lemma sorted_split (l1 l2 : list nat) (x : nat) :
  StronglySorted lt (l1 ++ x :: l2) ->
  (forall y, In y l1 -> (y < x)%nat) /\ (forall y, In y l2 -> (x < y)%nat).
Proof.
  induction l1 as [|a l1 IH]; cbn [app]; intros Hs.
  - inversion Hs as [|? ? _ Hall]; subst. rewrite Forall_forall in Hall.
    split; [intros y []|exact Hall].
  - inversion Hs as [|? ? Hs' Hall]; subst. rewrite Forall_forall in Hall.
    destruct (IH Hs') as [H1 H2]. split; [|exact H2].
    intros y [<-|Hy]; [|apply H1, Hy].
    apply Hall. apply in_or_app. right. left. reflexivity.
Qed.

Lemma next_then_previous (a b : nat) (l : list nat) :
  StronglySorted lt l -> nextIn a l = Some b -> previousIn b l = Some a.
Proof.
  intros Hs E. destruct (nextIn_split a b l E) as (l1 & l2 & -> & _).
  pose proof (sorted_adjacent _ _ _ _ Hs) as Hab.
  destruct (sorted_split _ _ _ Hs) as [H1 _].
  apply previousIn_app; [|lia]. intros Hb. specialize (H1 b Hb). lia.
Qed.

Lemma next_then_previous_sibling (n : nat) (d : Page) (a b : nat) :
  wellFormed n d -> (a < n)%nat -> inHiddenStorage d a = false ->
  nextElementSibling d a = Some b -> previousElementSibling d b = Some a.
Proof.
  intros wf Ha Hh E.
  destruct (nextElementSibling_displayed n d a b wf Ha Hh E) as (_ & Hb & Hside & Hhb).
  unfold nextElementSibling in E. unfold previousElementSibling.
  destruct (siblingsOf_displayed n d a wf Ha Hh) as [Ea _].
  destruct (siblingsOf_displayed n d b wf Hb Hhb) as [Eb _].
  rewrite Ea in E. rewrite Eb, Hside.
  apply next_then_previous; [apply (wf_sorted _ _ wf)|exact E].
Qed.

(** Only the turn that moves a sidenote up and pushes the next one down
    assigns the position of another sidenote. *)
Lemma turnOutcome_kept_unless_pushed (g : Geometry) (ranges : list Range) (i : nat)
      (d : Page) (how : Disposition) (d' : Page) :
  turnOutcome g ranges i d how d' -> how <> MovedUpAndPushedNext ->
  othersKept i None d d'.
Proof.
  unfold turnOutcome. intros H Hne. destruct how; try contradiction; try (apply H).
  destruct H as (_ & _ & ->). intros j _ _. reflexivity.
Qed.

(** While no turn of its previous sibling pushes it down, a displayed
    sidenote that is unconstrained at its default position is there when
    the second loop stops. *)
Lemma correctOverlapsFrom_keeps_unpushed (g : Geometry) (d : Page) (i : nat) :
  wellFormed (footnoteRefs_length g) d ->
  (i < footnoteRefs_length g)%nat -> collapsed g i = false ->
  unconstrainedAtDefault g d i ->
  forall turns j p log o p' log',
    correctOverlapsFrom g (proscribedVerticalRanges g) turns j p log = (o, p', log') ->
    sameContainers (prepared g d) p ->
    styleTop p i = defaultTop g i ->
    ((j <= i)%nat ->
     forall b, nextElementSibling (prepared g d) i = Some b -> styleTop p b = defaultTop g b) ->
    (forall a t, nextElementSibling (prepared g d) a = Some i ->
                 ~ In (a, t, MovedUpAndPushedNext) log') ->
    styleTop p' i = defaultTop g i.
Proof.
  intros wf Hi Hc (Hceil & Hfloor & Hnext).
  destruct (prepared_spec g d wf) as (_ & _ & Hst & _ & _ & _ & wf0).
  set (ranges := proscribedVerticalRanges g) in *. set (n := footnoteRefs_length g) in *.
  assert (Hhid : forall p a, sameContainers (prepared g d) p -> (a < n)%nat ->
                             inHiddenStorage p a = collapsed g a).
  { intros p a Hs Ha.
    rewrite (proj2 (proj2 (sameContainers_siblings _ _ a Hs))).
    rewrite (inHiddenStorage_stored g _ a Hst). fold n.
    destruct (Nat.ltb_spec a n); [reflexivity|lia]. }
  induction turns as [|turns IH]; intros j p log o p' log' E Hs I1 I2 Hlog;
    cbn [correctOverlapsFrom] in E; fold n in E.
  - destruct (Nat.leb n j); inversion E; subst; exact I1.
  - destruct (Nat.leb_spec n j) as [Hj|Hj]; [inversion E; subst; exact I1|].
    pose proof (wellFormed_sameContainers _ _ _ Hs wf0) as wfp.
    destruct (correctOverlap g ranges j p) as [how p1] eqn:Eturn.
    destruct (correctOverlap_touches n g ranges j p how p1 wfp Hj Eturn) as [Hs' Hbelow].
    pose proof (sameContainers_trans _ _ _ Hs Hs') as Hs2.
    (* the turn is in the log with which the loop stops *)
    assert (Hin : In (j, offsetTop p j, how) log').
    { destruct how;
        try (inversion E; subst; left; reflexivity);
        match type of E with
        | correctOverlapsFrom _ _ _ ?j' _ _ = _ =>
            destruct (correctOverlapsFrom_touches g ranges turns j' p1 _ o p' log'
                        (wellFormed_sameContainers _ _ _ Hs' wfp) E) as (_ & _ & new & ->);
            apply in_or_app; right; left; reflexivity
        end. }
    (* the turn leaves sidenote [i] and, up to its own turn, its next
       sibling where they are *)
    assert (Hkeep : styleTop p1 i = defaultTop g i
                    /\ ((j < i)%nat ->
                        forall b, nextElementSibling (prepared g d) i = Some b ->
                                  styleTop p1 b = defaultTop g b)).
    { destruct (Nat.lt_trichotomy j i) as [Hlt|[ -> |Hgt]].
      - destruct (inHiddenStorage p j) eqn:Hhj.
        { rewrite correctOverlap_hidden in Eturn by exact Hhj. inversion Eturn; subst.
          split; [exact I1|]. intros _. apply I2. lia. }
        destruct (correctOverlap_cases n g ranges j p how p1 wfp Hj Hhj Eturn) as [_ Ht].
        assert (Hnj : nextElementSibling (prepared g d) j = nextElementSibling p j).
        { symmetry. apply (sameContainers_siblings _ _ j Hs). }
        assert (Hpushed : how = MovedUpAndPushedNext \/ how <> MovedUpAndPushedNext).
        { destruct how; (left; reflexivity) || (right; discriminate). }
        assert (Hhi0 : inHiddenStorage (prepared g d) i = false).
        { rewrite (Hhid _ i (sameContainers_refl _) Hi). exact Hc. }
        destruct Hpushed as [ -> |Hne].
        + (* the turn pushes the next sibling of [j], which is not [i] *)
          pose proof (turnOutcome_kept g ranges j p _ p1 Ht) as Hk.
          split.
          * rewrite <- I1. apply Hk; [lia|]. intros Hn. rewrite <- Hnj in Hn.
            exact (Hlog j _ Hn Hin).
          * intros _ b Hb. rewrite <- (I2 ltac:(lia) b Hb).
            destruct (nextElementSibling_displayed n _ i b wf0 Hi Hhi0 Hb) as (Hib & _).
            apply Hk; [lia|].
            intros Hn. rewrite <- Hnj in Hn.
            assert (Hhj0 : inHiddenStorage (prepared g d) j = false).
            { rewrite <- Hhj. symmetry. apply (sameContainers_siblings _ _ j Hs). }
            pose proof (next_then_previous_sibling n _ j b wf0 Hj Hhj0 Hn) as P1.
            pose proof (next_then_previous_sibling n _ i b wf0 Hi Hhi0 Hb) as P2.
            rewrite P1 in P2. injection P2 as P2. lia.
        + pose proof (turnOutcome_kept_unless_pushed g ranges j p how p1 Ht Hne) as Hk.
          split.
          * rewrite <- I1. apply Hk; [lia|discriminate].
          * intros _ b Hb. rewrite <- (I2 ltac:(lia) b Hb).
            destruct (nextElementSibling_displayed n _ i b wf0 Hi Hhi0 Hb) as (Hib & _).
            apply Hk; [lia|discriminate].
      - (* the turn of [i] *)
        assert (Hhi : inHiddenStorage p i = false) by (rewrite (Hhid p i Hs Hi); exact Hc).
        assert (Eset : correctOverlap g ranges i p = (NeedsNoAdjustment, p)).
        { apply correctOverlap_settled.
          - exact Hhi.
          - rewrite I1. exact Hceil.
          - rewrite I1. exact Hfloor.
          - intros b Hb. rewrite I1.
            rewrite (proj1 (sameContainers_siblings _ _ i Hs)) in Hb.
            rewrite (I2 (Nat.le_refl i) b Hb). apply Hnext. exact Hb. }
        rewrite Eset in Eturn. inversion Eturn; subst.
        split; [exact I1|lia].
      - split; [|lia]. rewrite (Hbelow i (or_introl Hgt)). exact I1. }
    destruct Hkeep as [K1 K2].
    assert (Hrec : forall j', (j' = j \/ j' = S j) ->
                   correctOverlapsFrom g ranges turns j' p1
                     ((j, offsetTop p j, how) :: log) = (o, p', log') ->
                   (j' = j -> how = MovedPastRange \/ how = MovedToNextSpace) ->
                   styleTop p' i = defaultTop g i).
    { intros j' Hj' E' Hretry. apply (IH j' p1 _ o p' log' E' Hs2 K1); [|exact Hlog].
      intros Hle. destruct (Nat.lt_trichotomy j i) as [Hlt|[ -> |Hgt]].
      - apply K2. exact Hlt.
      - (* a retry of [i] itself does not occur: its turn needs no adjustment *)
        destruct Hj' as [ -> | -> ]; [|lia].
        assert (Hhi : inHiddenStorage p i = false) by (rewrite (Hhid p i Hs Hi); exact Hc).
        assert (Eset : correctOverlap g ranges i p = (NeedsNoAdjustment, p)).
        { apply correctOverlap_settled.
          - exact Hhi.
          - rewrite I1. exact Hceil.
          - rewrite I1. exact Hfloor.
          - intros b Hb. rewrite I1.
            rewrite (proj1 (sameContainers_siblings _ _ i Hs)) in Hb.
            rewrite (I2 (Nat.le_refl i) b Hb). apply Hnext. exact Hb. }
        rewrite Eset in Eturn. inversion Eturn; subst.
        destruct (Hretry eq_refl); discriminate.
      - destruct Hj' as [ -> | -> ]; lia. }
    destruct how;
      try (inversion E; subst; exact K1);
      try (apply (Hrec (S j)); [right; reflexivity|exact E|lia]);
      try (apply (Hrec j); [left; reflexivity|exact E|intros _; auto]).
Qed.

(** C4, amended. In a call on a wide viewport and a well-formed page
    with a full-width block, which is one that reaches the two loops,
    every displayed sidenote is, at the start of the second loop, at its
    default position: the offset of its citation from the top of its
    column plus 4 pixels, rounded to the nearest whole pixel (a half
    going up), and not clamped. A displayed sidenote ends
    the call at that position, however the call ends and whatever is
    done to the other sidenotes, when neither an obstacle nor a
    neighbour constrains it: its footprint, at the default position, lies
    between the ceiling and the floor of its room, the top of the column
    being the ceiling when no range is above, and ends at or above the
    default position of its next sibling; and no turn of its previous
    sibling pushes it down (lines 541-550). No such turn occurs, in
    particular, when every displayed sidenote before it in its column is
    unconstrained at its default position too. *)
Theorem unconstrained_sidenote_keeps_its_default (g : Geometry) (turns : nat) (d : Page)
        (i : nat) :
  wellFormed (footnoteRefs_length g) d ->
  viewportWidthBreakpoint_matches g = false ->
  firstFullWidthBlock_offsetTop g <> None ->
  (i < footnoteRefs_length g)%nat -> collapsed g i = false ->
  let anchorOffset := footnoteRef_rectTop g i - side_rectTop g (sideOf i) in
  let log := snd (updateSidenotePositions g turns d) in
  (styleTop (prepared g d) i = Math_round g (anchorOffset + px g 4)
   /\ exists pixels,
        styleTop (prepared g d) i = px g pixels
        /\ - Z.pos (layoutUnit g) <= 2 * (anchorOffset + px g 4 - px g pixels)
           < Z.pos (layoutUnit g))
  /\ (unconstrainedAtDefault g d i ->
      (forall a t, nextElementSibling (prepared g d) a = Some i ->
                   ~ In (a, t, MovedUpAndPushedNext) log) ->
      styleTop (snd (fst (updateSidenotePositions g turns d))) i
      = styleTop (prepared g d) i)
  /\ ((forall a, (a <= i)%nat -> sideOf a = sideOf i -> collapsed g a = false ->
                 unconstrainedAtDefault g d a) ->
      styleTop (snd (fst (updateSidenotePositions g turns d))) i
      = styleTop (prepared g d) i).
Proof.
  intros wf Hv Hb Hi Hc anchorOffset log.
  destruct (prepared_spec g d wf) as (_ & _ & _ & _ & _ & Htop & _).
  assert (E : styleTop (prepared g d) i = defaultTop g i).
  { rewrite Htop. destruct (Nat.ltb_spec i (footnoteRefs_length g)) as [_|]; [|lia].
    rewrite Hc. reflexivity. }
  split; [|split].
  - split; [exact E|]. rewrite E. apply Math_round_spec.
  - intros Hfree Hlog. rewrite E. subst log.
    rewrite (updateSidenotePositions_layout g turns d Hv Hb wf) in *.
    destruct (correctOverlapsFrom g (proscribedVerticalRanges g) turns 0 (prepared g d) [])
      as [[o d3] log3] eqn:E3.
    assert (Hlog3 : forall a t, nextElementSibling (prepared g d) a = Some i ->
                                ~ In (a, t, MovedUpAndPushedNext) log3).
    { intros a t Ha. specialize (Hlog a t Ha). destruct o; exact Hlog. }
    assert (Hd3 : styleTop d3 i = defaultTop g i).
    { apply (correctOverlapsFrom_keeps_unpushed g d i wf Hi Hc Hfree turns 0 (prepared g d) []
               o d3 log3 E3 (sameContainers_refl _) E); [|exact Hlog3].
      intros _ b Hn.
      destruct (prepared_spec g d wf) as (_ & _ & Hst & _ & _ & _ & wf0).
      assert (Hhi : inHiddenStorage (prepared g d) i = false).
      { rewrite (inHiddenStorage_stored g _ i Hst), Hc. apply andb_false_r. }
      destruct (nextElementSibling_displayed _ _ i b wf0 Hi Hhi Hn) as (_ & Hbn & _ & Hbh).
      rewrite (inHiddenStorage_stored g _ b Hst) in Hbh.
      rewrite Htop. destruct (Nat.ltb_spec b (footnoteRefs_length g)) as [_|]; [|lia].
      cbn [andb] in Hbh. rewrite Hbh. reflexivity. }
    destruct o; exact Hd3.
  - intros Hfree. rewrite E.
    rewrite (updateSidenotePositions_layout g turns d Hv Hb wf).
    pose proof (correctOverlapsFrom_keeps_default g d i wf Hi Hc Hfree turns 0 (prepared g d) []
                  (sameContainers_refl _)) as H.
    destruct (correctOverlapsFrom g (proscribedVerticalRanges g) turns 0 (prepared g d) [])
      as [[o d3] log3].
    cbn [fst snd] in H.
    assert (Hd3 : styleTop d3 i = defaultTop g i).
    { apply H. split; [exact E|]. intros _ a _ Ha _ Hca.
      rewrite Htop. destruct (Nat.ltb_spec a (footnoteRefs_length g)) as [_|]; [|lia].
      rewrite Hca. reflexivity. }
    destruct o; exact Hd3.
Qed.

Lemma unconstrained_sidenote_keeps_its_default_witness :
  let g := sampleGeometry false in
  let d := constructSidenotes 5 in
  let d' := snd (fst (updateSidenotePositions g 30 d)) in
  (styleTop (prepared g d) 0 = Math_round g (96 - 0 + px g 4)
   /\ exists pixels,
        styleTop (prepared g d) 0 = px g pixels
        /\ - Z.pos (layoutUnit g) <= 2 * (96 - 0 + px g 4 - px g pixels)
           < Z.pos (layoutUnit g))
  /\ styleTop d' 0 = styleTop (prepared g d) 0
  /\ styleTop d' 4 = styleTop (prepared g d) 4
  /\ (styleTop (prepared g d) 2 = 900 /\ styleTop d' 2 = 740).
Proof.
  destruct (unconstrained_sidenote_keeps_its_default
              (sampleGeometry false) 30 (constructSidenotes 5) 0
              (constructSidenotes_wellFormed 5) eq_refl
              ltac:(discriminate) ltac:(cbn; lia) eq_refl) as (H1 & _ & H2).
  destruct (unconstrained_sidenote_keeps_its_default
              (sampleGeometry false) 30 (constructSidenotes 5) 4
              (constructSidenotes_wellFormed 5) eq_refl
              ltac:(discriminate) ltac:(cbn; lia) eq_refl) as (_ & H3 & _).
  split; [exact H1|]. split; [|split; [|split; vm_compute; reflexivity]].
  - (* the first sidenote: nothing before it in its column *)
    apply H2.
    intros a Ha _ _. assert (a = 0%nat) as -> by lia.
    unfold unconstrainedAtDefault.
    split; [|split].
    + vm_compute. discriminate.
    + vm_compute. discriminate.
    + intros b Hb.
      assert (E : nextElementSibling (prepared (sampleGeometry false) (constructSidenotes 5)) 0
                  = Some 2%nat) by (vm_compute; reflexivity).
      rewrite E in Hb. injection Hb as <-. vm_compute. discriminate.
  - (* the fifth: the third, before it, is moved up by its own turn and
       pushes nothing *)
    apply H3.
    + unfold unconstrainedAtDefault.
      split; [|split].
      * vm_compute. discriminate.
      * vm_compute. discriminate.
      * intros b Hb.
        assert (E : nextElementSibling (prepared (sampleGeometry false) (constructSidenotes 5)) 4
                    = None) by (vm_compute; reflexivity).
        rewrite E in Hb. discriminate Hb.
    + intros a t _.
      assert (E : snd (updateSidenotePositions (sampleGeometry false) 30 (constructSidenotes 5))
                  = [(4%nat, 1700, NeedsNoAdjustment); (3%nat, 1300, NeedsNoAdjustment);
                     (2%nat, 900, MovedUp); (1%nat, 500, NeedsNoAdjustment);
                     (0%nat, 100, NeedsNoAdjustment)]) by (vm_compute; reflexivity).
      rewrite E. intros [H|[H|[H|[H|[H|[]]]]]]; discriminate H.
Defined.

(** *** A successful call that leaves sidenotes one over the other *)

(** The engine keeps the spacing between the bottom of a sidenote and
    the top of the next, not between their footprints. In Scenario A of
    the specification the call succeeds and leaves the first sidenote at
    60 and the third, next in the right column, at 60 + 100 + 60 = 220,
    as the scenario expects: the footprint of the first ends at 220,
    that of the third begins at 160. *)
Lemma spacing_is_kept_between_sidenotes :
  let '(o, d', _) := updateSidenotePositions scenarioA 10 (constructSidenotes 3) in
  o = Success
  /\ sidenoteColumnRight d' = [0%nat; 2%nat]
  /\ styleTop d' 0 = 60 /\ styleTop d' 2 = 220
  /\ bottom (footprintAt scenarioA 0 (styleTop d' 0)) = 220
  /\ top (footprintAt scenarioA 2 (styleTop d' 2)) = 160.
Proof. vm_compute. repeat split; reflexivity. Qed.

(** C1, not met by the code. On a page whose measurements are plausible,
    all in whole pixels, with nothing but the sidenotes in the margins, a
    call completes successfully and leaves two displayed sidenotes of the
    right column one over the other. The first sidenote, 500 high, is at
    60 and the third, 400 high, at 400; the columns are 1000 high. On its
    turn the first overlaps the third and has no headroom; the third
    would not fit below it (620 + 400 + 60 is more than 1000), so the
    turn leaves the first in place, for the third to be moved on its own
    turn. The turn of the third finds it within its room and with no next
    sibling, and leaves it in place too: the call shows the columns with
    the first sidenote from 60 to 560 and the third from 400 to 800. *)
Theorem successful_layout_leaves_sidenotes_overlapping :
  let g := crowdedGeometry in
  let d' := snd (fst (updateSidenotePositions g 10 (constructSidenotes 3))) in
  plausible g
  /\ potentiallyOverlappingElements g = []
  /\ updateSidenotePositions g 10 (constructSidenotes 3)
     = (Success, d',
        [(2%nat, 400, NeedsNoAdjustment); (1%nat, 60, NeedsNoAdjustment);
         (0%nat, 60, LeftInPlace)])
  /\ sidenoteColumnRight d' = [0%nat; 2%nat]
  /\ rightColumnShown d' = true
  /\ (styleTop d' 0 = 60 /\ clientHeight g 0 = 500)
  /\ (styleTop d' 2 = 400 /\ clientHeight g 2 = 400)
  /\ footprintAt g 0 (styleTop d' 0) = mkRange 0 620
  /\ footprintAt g 2 (styleTop d' 2) = mkRange 340 860
  /\ ~ bottom (footprintAt g 0 (styleTop d' 0)) <= top (footprintAt g 2 (styleTop d' 2))
  /\ styleTop d' 2 < styleTop d' 0 + clientHeight g 0.
Proof.
  cbv zeta. split.
  - split; [|split].
    + intros s. cbn. lia.
    + intros i. cbn. destruct i as [|[|i]]; lia.
    + constructor.
  - vm_compute. repeat split; try reflexivity. intros H. apply H. reflexivity.
Qed.

(** *** Calls that return *)

(** More turns than the loop needs change nothing. *)
Lemma correctOverlapsFrom_more_turns (g : Geometry) (ranges : list Range) (extra : nat) :
  forall turns i d log,
    fst (fst (correctOverlapsFrom g ranges turns i d log)) <> StillRunning ->
    correctOverlapsFrom g ranges (turns + extra) i d log
    = correctOverlapsFrom g ranges turns i d log.
Proof.
  induction turns as [|turns IH]; intros i d log H.
  - cbn [correctOverlapsFrom] in H.
    destruct (Nat.leb (footnoteRefs_length g) i) eqn:E.
    + destruct extra; cbn [Nat.add correctOverlapsFrom]; rewrite E; reflexivity.
    + exfalso. apply H. reflexivity.
  - cbn [Nat.add correctOverlapsFrom] in *.
    destruct (Nat.leb (footnoteRefs_length g) i); [reflexivity|].
    destruct (correctOverlap g ranges i d) as [how d'].
    destruct how; try reflexivity; apply IH; exact H.
Qed.

Lemma updateSidenotePositions_more_turns (g : Geometry) (d : Page) (turns extra : nat) :
  fst (fst (updateSidenotePositions g turns d)) <> StillRunning ->
  updateSidenotePositions g (turns + extra) d = updateSidenotePositions g turns d.
Proof.
  unfold updateSidenotePositions.
  destruct (viewportWidthBreakpoint_matches g); [reflexivity|].
  destruct (firstFullWidthBlock_offsetTop g); [|reflexivity].
  destruct (updateSidenotesInCollapseBlocks g d) as [[|] d1]; [|reflexivity].
  intros H. rewrite correctOverlapsFrom_more_turns; [reflexivity|].
  destruct (correctOverlapsFrom g (proscribedVerticalRanges g) turns 0 (initialLayout g d1) [])
    as [[o d3] log].
  destruct o; cbn [fst] in *; congruence.
Qed.

(** X1. On a page whose measurements are plausible, a call of
    [updateSidenotePositions] returns: there is one result, which is not
    that of a loop still running, that the call gives for every bound on
    the number of turns of the second loop from the number of sidenotes
    times the number of ranges plus one (the ranges being the overlapping
    elements and the bottom of the right column). *)
Theorem layout_returns_on_plausible_pages (g : Geometry) (d : Page) :
  plausible g -> wellFormed (footnoteRefs_length g) d ->
  exists o d' log,
    o <> StillRunning
    /\ forall turns,
        (footnoteRefs_length g * (length (potentiallyOverlappingElements g) + 2) <= turns)%nat ->
        updateSidenotePositions g turns d = (o, d', log).
Proof.
  intros Hp wf.
  set (bound := (footnoteRefs_length g * (length (potentiallyOverlappingElements g) + 2))%nat).
  assert (Hb : (footnoteRefs_length g * (length (proscribedVerticalRanges g) + 1) <= bound)%nat).
  { unfold bound, proscribedVerticalRanges. rewrite length_app, length_map. cbn [length].
    apply Nat.mul_le_mono_l. lia. }
  pose proof (second_loop_ends g d bound Hp wf Hb) as He.
  destruct (updateSidenotePositions g bound d) as [[o d'] log] eqn:E.
  exists o, d', log. split; [exact He|].
  intros turns Ht. replace turns with (bound + (turns - bound))%nat by lia.
  rewrite updateSidenotePositions_more_turns; [exact E|]. rewrite E. exact He.
Qed.

Lemma layout_returns_on_plausible_pages_witness :
  exists o d' log,
    o <> StillRunning
    /\ forall turns,
        (5 * (1 + 2) <= turns)%nat ->
        updateSidenotePositions (sampleGeometry false) turns (constructSidenotes 5)
        = (o, d', log).
Proof.
  apply (layout_returns_on_plausible_pages (sampleGeometry false) (constructSidenotes 5)).
  - apply sampleGeometry_plausible.
  - apply (constructSidenotes_wellFormed 5).
Defined.

(** *** Exceptions *)

Lemma roomFor_next_in_range (g : Geometry) (ranges : list Range) (side : Side) (fp : Range)
      (k : nat) :
  snd (roomFor g ranges side fp) = Some k -> exists r, nth_error ranges k = Some r.
Proof.
  intros H. destruct (room_scanned g ranges side fp) as [_ [Hb|Hb]]; cbv zeta in Hb.
  - destruct Hb as (l1 & r & l2 & El & _ & _ & _ & En). rewrite H in En.
    inversion En; subst. exists r. rewrite nth_error_app2 by lia.
    rewrite Nat.sub_diag. reflexivity.
  - destruct Hb as (_ & _ & En). congruence.
Qed.

Lemma roomFor_none_below (g : Geometry) (ranges : list Range) (side : Side) (fp : Range) :
  snd (roomFor g ranges side fp) = None ->
  forall r, In r ranges ->
            top r + bottom r - 2 * side_offsetTop g side <= top fp + bottom fp.
Proof.
  intros H r Hr. destruct (room_scanned g ranges side fp) as [_ [Hb|Hb]]; cbv zeta in Hb.
  - destruct Hb as (l1 & r0 & l2 & _ & _ & _ & _ & En). congruence.
  - destruct Hb as (Hn & _ & _). specialize (Hn r Hr). lia.
Qed.

Lemma resolveOverlapBelow_throws (g : Geometry) (ranges : list Range) (i : nat)
      (room : Room) (nx : option nat) (next : option nat) (fp : Range) (d d' : Page) :
  (forall k, nx = Some k -> exists r, nth_error ranges k = Some r) ->
  resolveOverlapBelow g ranges i room nx next fp d = (TypeError, d') ->
  nx = None /\ d' = d.
Proof.
  intros Hk. unfold resolveOverlapBelow.
  set (overlapWithFloor := bottom fp - floor room).
  set (overlapWithNextSidenote :=
         match next with Some n => bottom fp - offsetTop d n | None => -1 end).
  set (overlapBelow := Z.max overlapWithNextSidenote overlapWithFloor).
  set (headroom := match previousElementSibling d i with
                   | Some previous => _
                   | None => _
                   end).
  destruct (Z.leb_spec overlapBelow 0) as [|Hpos]; [discriminate|].
  destruct (Z.geb_spec headroom overlapBelow) as [|Hlow]; [discriminate|].
  destruct (Z.ltb_spec headroom overlapWithFloor) as [Hf|Hf].
  - destruct nx as [k|]; [|intros E; inversion E; split; reflexivity].
    destruct (Hk k eq_refl) as [r Hr]. rewrite Hr. discriminate.
  - destruct next as [b|].
    + destruct nx as [k|]; [|intros E; inversion E; split; reflexivity].
      destruct (Hk k eq_refl) as [r Hr]. rewrite Hr.
      destruct (_ >? top r); discriminate.
    + exfalso. subst overlapBelow overlapWithNextSidenote. lia.
Qed.

Lemma correctOverlap_throws (n : nat) (g : Geometry) (ranges : list Range) (i : nat)
      (d d' : Page) :
  correctOverlap g ranges i d = (TypeError, d') ->
  inHiddenStorage d i = false
  /\ snd (roomFor g ranges (sideOf i) (footprintAt g i (styleTop d i))) = None.
Proof.
  unfold correctOverlap, offsetTop.
  destruct (inHiddenStorage d i); [discriminate|]. intros E. split; [reflexivity|].
  pose proof (roomFor_next_in_range g ranges (sideOf i) (footprintAt g i (styleTop d i)))
    as Hk.
  destruct (roomFor g ranges (sideOf i) (footprintAt g i (styleTop d i))) as [room nx].
  cbn [snd] in *.
  destruct (_ >? _).
  - destruct nx as [k|]; [|reflexivity].
    destruct (Hk k eq_refl) as [r Hr]. rewrite Hr in E. discriminate.
  - destruct (_ >? 0);
      apply resolveOverlapBelow_throws in E; try exact Hk; apply E.
Qed.

Lemma correctOverlap_gives_up (g : Geometry) (ranges : list Range) (i : nat) (d d' : Page) :
  correctOverlap g ranges i d = (GivingUp, d') ->
  let room := roomFor g ranges (sideOf i) (footprintAt g i (styleTop d i)) in
  inHiddenStorage d i = false
  /\ snd room = None
  /\ clientHeight g i + 2 * sidenoteSpacing g > floor (fst room) - ceiling (fst room)
  /\ d' = d.
Proof.
  unfold correctOverlap, offsetTop.
  destruct (inHiddenStorage d i); [discriminate|]. intros E. cbv zeta.
  split; [reflexivity|].
  destruct (roomFor g ranges (sideOf i) (footprintAt g i (styleTop d i))) as [room nx].
  cbn [fst snd] in *.
  destruct (Z.gtb_spec (bottom (footprintAt g i (styleTop d i))
                        - top (footprintAt g i (styleTop d i)))
                       (floor room - ceiling room)) as [Hfit|Hfit].
  - destruct nx as [k|].
    + destruct (nth_error ranges k); discriminate.
    + inversion E; subst. split; [reflexivity|].
      split; [cbn [footprintAt top bottom] in Hfit; lia|reflexivity].
  - exfalso. unfold resolveOverlapBelow in E.
    destruct (_ >? 0) in E;
      repeat match type of E with
             | (if ?c then _ else _) = _ => destruct c
             | match ?c with _ => _ end = _ => destruct c
             end; discriminate.
Qed.

(** The turn on which the second loop stops early. *)
Lemma stopped_on_last_turn (g : Geometry) (ranges : list Range) (turns : nat) :
  forall i0 d log o d' log',
    wellFormed (footnoteRefs_length g) d ->
    correctOverlapsFrom g ranges turns i0 d log = (o, d', log') ->
    o = GaveUp \/ o = Threw ->
    exists i d1 how rest,
      log' = (i, styleTop d1 i, how) :: rest
      /\ (i < footnoteRefs_length g)%nat
      /\ sameContainers d d1
      /\ correctOverlap g ranges i d1 = (how, d')
      /\ (o = GaveUp /\ how = GivingUp \/ o = Threw /\ how = TypeError).
Proof.
  induction turns as [|turns IH]; intros i0 d log o d' log' wf E Ho;
    cbn [correctOverlapsFrom] in E.
  - destruct (Nat.leb (footnoteRefs_length g) i0); inversion E; subst;
      destruct Ho; discriminate.
  - destruct (Nat.leb_spec (footnoteRefs_length g) i0) as [Hi|Hi].
    { inversion E; subst. destruct Ho; discriminate. }
    destruct (correctOverlap g ranges i0 d) as [how d1] eqn:Eturn.
    destruct (correctOverlap_touches _ g ranges i0 d how d1 wf Hi Eturn) as [Hs _].
    pose proof (wellFormed_sameContainers _ _ _ Hs wf) as wf1.
    assert (Hrec : forall i1,
               correctOverlapsFrom g ranges turns i1 d1 ((i0, offsetTop d i0, how) :: log)
               = (o, d', log') ->
               exists i d2 how' rest,
                 log' = (i, styleTop d2 i, how') :: rest
                 /\ (i < footnoteRefs_length g)%nat
                 /\ sameContainers d d2
                 /\ correctOverlap g ranges i d2 = (how', d')
                 /\ (o = GaveUp /\ how' = GivingUp \/ o = Threw /\ how' = TypeError)).
    { intros i1 E1.
      destruct (IH i1 d1 _ o d' log' wf1 E1 Ho) as (i & d2 & how' & rest & El & Hl & Hs2 & Et & Hh).
      exists i, d2, how', rest. repeat (split; [assumption|]).
      split; [exact (sameContainers_trans _ _ _ Hs Hs2)|]. split; assumption. }
    destruct how; try (apply (Hrec (S i0)); exact E); try (apply (Hrec i0); exact E);
      inversion E; subst; exists i0, d; eexists; exists log;
      (split; [reflexivity|]); (split; [exact Hi|]); (split; [apply sameContainers_refl|]);
      (split; [exact Eturn|]); [left|right]; split; reflexivity.
Qed.

(** What a call that has reached the second loop started it from. *)
Lemma updateSidenotePositions_stopped (g : Geometry) (turns : nat) (d d' : Page)
      (log : list (nat * Z * Disposition)) (o : Outcome) :
  wellFormed (footnoteRefs_length g) d ->
  updateSidenotePositions g turns d = (o, d', log) ->
  o = GaveUp \/ o = Threw ->
  (o = Threw /\ firstFullWidthBlock_offsetTop g = None /\ log = [] /\ d' = d)
  \/ exists i d1 how rest,
      log = (i, styleTop d1 i, how) :: rest
      /\ (i < footnoteRefs_length g)%nat
      /\ collapsed g i = false
      /\ correctOverlap g (proscribedVerticalRanges g) i d1 = (how, d')
      /\ (o = GaveUp /\ how = GivingUp \/ o = Threw /\ how = TypeError).
Proof.
  intros wf E Ho. unfold updateSidenotePositions in E.
  destruct (viewportWidthBreakpoint_matches g).
  { inversion E; subst. destruct Ho; discriminate. }
  destruct (firstFullWidthBlock_offsetTop g) eqn:Eb.
  2:{ inversion E; subst. left. repeat split; reflexivity. }
  destruct (prepared_spec g d wf) as (En & _ & Hh & _ & _ & _ & wf2). unfold prepared in *.
  destruct (updateSidenotesInCollapseBlocks g d) as [c d1]. cbn [fst snd] in *. subst c.
  destruct (correctOverlapsFrom g (proscribedVerticalRanges g) turns 0 (initialLayout g d1) [])
    as [[o3 d3] log3] eqn:E3.
  assert (Eo : o3 = o /\ log3 = log /\ (o3 = Success \/ d3 = d')).
  { destruct o3; inversion E; subst; repeat split; auto. }
  destruct Eo as (-> & -> & [ -> | -> ]); [destruct Ho; discriminate|].
  right.
  destruct (stopped_on_last_turn g _ turns 0 _ [] o d' log wf2 E3 Ho)
    as (i & d2 & how & rest & El & Hi & Hs & Et & Hhow).
  exists i, d2, how, rest. repeat (split; [assumption|]). split; [|split; assumption].
  assert (Hhid : inHiddenStorage d2 i = false).
  { destruct Hhow as [[_ ->]|[_ ->]].
    - apply (correctOverlap_gives_up g _ i d2 d' Et).
    - apply (correctOverlap_throws (footnoteRefs_length g) g _ i d2 d' Et). }
  rewrite (proj2 (proj2 (sameContainers_siblings _ _ i Hs))) in Hhid.
  rewrite (inHiddenStorage_stored g _ i Hh) in Hhid.
  destruct (Nat.ltb_spec i (footnoteRefs_length g)); [|lia]. exact Hhid.
Qed.

(** X2. A call of [updateSidenotePositions] on a wide viewport and a
    well-formed page, in which the reclassification of the sidenotes
    completes, as it does when every collapse block has its disclosure
    button, ends on an exception only before it has moved anything, when
    no block of the body is full-width, or in the second loop on a
    displayed sidenote below which the loop found no range: the halfway
    point of every proscribed range, the bottom of the right column among
    them, is at or above the halfway point of the sidenote's footprint,
    so that the sidenote's middle is at or below the bottom of the right
    column. *)
Theorem layout_throws_only_below_every_range (g : Geometry) (turns : nat) (d d' : Page)
        (log : list (nat * Z * Disposition)) :
  wellFormed (footnoteRefs_length g) d ->
  fst (updateSidenotesInCollapseBlocks g d) = Normal ->
  updateSidenotePositions g turns d = (Threw, d', log) ->
  (firstFullWidthBlock_offsetTop g = None /\ log = [] /\ d' = d)
  \/ exists i t rest,
      log = (i, t, TypeError) :: rest
      /\ (i < footnoteRefs_length g)%nat
      /\ collapsed g i = false
      /\ (forall r, In r (proscribedVerticalRanges g) ->
            top r + bottom r - 2 * side_offsetTop g (sideOf i)
            <= 2 * t + clientHeight g i)
      /\ 2 * (side_clientHeight g ColumnRight - side_offsetTop g (sideOf i))
         <= 2 * t + clientHeight g i.
Proof.
  intros wf _ E.
  destruct (updateSidenotePositions_stopped g turns d d' log Threw wf E (or_intror eq_refl))
    as [(_ & H)|(i & d1 & how & rest & El & Hi & Hc & Et & Hhow)]; [left; exact H|right].
  destruct Hhow as [[Hx _]|[_ ->]]; [discriminate|].
  exists i, (styleTop d1 i), rest. repeat (split; [assumption|]).
  destruct (correctOverlap_throws (footnoteRefs_length g) g _ i d1 d' Et) as [_ Hn].
  assert (Hall : forall r, In r (proscribedVerticalRanges g) ->
            top r + bottom r - 2 * side_offsetTop g (sideOf i)
            <= 2 * styleTop d1 i + clientHeight g i).
  { intros r Hr. pose proof (roomFor_none_below g _ _ _ Hn r Hr) as H.
    cbn [footprintAt top bottom] in H. lia. }
  split; [exact Hall|].
  specialize (Hall (mkRange (side_clientHeight g ColumnRight) (side_clientHeight g ColumnRight))).
  cbn [top bottom] in Hall. 
  assert (In (mkRange (side_clientHeight g ColumnRight) (side_clientHeight g ColumnRight))
             (proscribedVerticalRanges g)).
  { unfold proscribedVerticalRanges. apply in_or_app. right. left. reflexivity. }
  specialize (Hall H). lia.
Qed.

Lemma layout_throws_only_below_every_range_witness :
  exists i t rest,
    [(2%nat, 900, TypeError); (1%nat, 100, NeedsNoAdjustment); (0%nat, 500, NeedsNoAdjustment)]
    = (i, t, TypeError) :: rest
    /\ (i < 3)%nat
    /\ collapsed lowSidenoteGeometry i = false
    /\ (forall r, In r (proscribedVerticalRanges lowSidenoteGeometry) ->
          top r + bottom r - 2 * side_offsetTop lowSidenoteGeometry (sideOf i)
          <= 2 * t + clientHeight lowSidenoteGeometry i)
    /\ 2 * (side_clientHeight lowSidenoteGeometry ColumnRight
            - side_offsetTop lowSidenoteGeometry (sideOf i))
       <= 2 * t + clientHeight lowSidenoteGeometry i.
Proof.
  assert (E : updateSidenotePositions lowSidenoteGeometry 10 (constructSidenotes 3)
              = (Threw,
                 snd (fst (updateSidenotePositions lowSidenoteGeometry 10 (constructSidenotes 3))),
                 [(2%nat, 900, TypeError); (1%nat, 100, NeedsNoAdjustment);
                  (0%nat, 500, NeedsNoAdjustment)])).
  { vm_compute. reflexivity. }
  destruct (layout_throws_only_below_every_range lowSidenoteGeometry 10 (constructSidenotes 3)
              (snd (fst (updateSidenotePositions lowSidenoteGeometry 10 (constructSidenotes 3))))
              [(2%nat, 900, TypeError); (1%nat, 100, NeedsNoAdjustment);
               (0%nat, 500, NeedsNoAdjustment)]
              (constructSidenotes_wellFormed 3) eq_refl E) as [(H & _)|H].
  - discriminate H.
  - exact H.
Defined.

(** X3. A call of [updateSidenotePositions] gives up only on a
    displayed sidenote below which the loop found no range (the halfway
    point of every proscribed range is at or above the sidenote's), and
    whose height with the spacing of 60 above and below exceeds what is
    left between the ceiling of its room and the bottom of its column. *)
Theorem layout_gives_up_only_on_a_sidenote_too_tall (g : Geometry) (turns : nat) (d d' : Page)
        (log : list (nat * Z * Disposition)) :
  wellFormed (footnoteRefs_length g) d ->
  updateSidenotePositions g turns d = (GaveUp, d', log) ->
  exists i t rest,
    log = (i, t, GivingUp) :: rest
    /\ (i < footnoteRefs_length g)%nat
    /\ collapsed g i = false
    /\ styleTop d' i = t
    /\ (forall r, In r (proscribedVerticalRanges g) ->
          top r + bottom r - 2 * side_offsetTop g (sideOf i)
          <= 2 * t + clientHeight g i)
    /\ clientHeight g i + 2 * sidenoteSpacing g
       > side_clientHeight g (sideOf i)
         - ceiling (fst (roomFor g (proscribedVerticalRanges g) (sideOf i) (footprintAt g i t))).
Proof.
  intros wf E.
  destruct (updateSidenotePositions_stopped g turns d d' log GaveUp wf E (or_introl eq_refl))
    as [(Hx & _)|(i & d1 & how & rest & El & Hi & Hc & Et & Hhow)]; [discriminate|].
  destruct Hhow as [[_ ->]|[Hx _]]; [|discriminate].
  exists i, (styleTop d1 i), rest. repeat (split; [assumption|]).
  destruct (correctOverlap_gives_up g _ i d1 d' Et) as (Hh & Hn & Htall & Ed).
  split; [rewrite Ed; reflexivity|].
  split.
  - intros r Hr. pose proof (roomFor_none_below g _ _ _ Hn r Hr) as H.
    cbn [footprintAt top bottom] in H. lia.
  - destruct (room_scanned g (proscribedVerticalRanges g) (sideOf i)
                (footprintAt g i (styleTop d1 i))) as [_ [Hb|Hb]]; cbv zeta in Hb.
    + destruct Hb as (l1 & r0 & l2 & _ & _ & _ & _ & En). congruence.
    + destruct Hb as (_ & Ef & _). rewrite Ef in Htall. exact Htall.
Qed.

Lemma layout_gives_up_only_on_a_sidenote_too_tall_witness :
  exists i t rest,
    [(0%nat, 100, GivingUp)] = (i, t, GivingUp) :: rest
    /\ (i < 1)%nat
    /\ collapsed (scenarioB 96) i = false
    /\ styleTop (snd (fst (updateSidenotePositions (scenarioB 96) 5 (constructSidenotes 1)))) i
       = t
    /\ (forall r, In r (proscribedVerticalRanges (scenarioB 96)) ->
          top r + bottom r - 2 * side_offsetTop (scenarioB 96) (sideOf i)
          <= 2 * t + clientHeight (scenarioB 96) i)
    /\ clientHeight (scenarioB 96) i + 2 * sidenoteSpacing (scenarioB 96)
       > side_clientHeight (scenarioB 96) (sideOf i)
         - ceiling (fst (roomFor (scenarioB 96) (proscribedVerticalRanges (scenarioB 96))
                           (sideOf i) (footprintAt (scenarioB 96) i t))).
Proof.
  assert (E : updateSidenotePositions (scenarioB 96) 5 (constructSidenotes 1)
              = (GaveUp,
                 snd (fst (updateSidenotePositions (scenarioB 96) 5 (constructSidenotes 1))),
                 [(0%nat, 100, GivingUp)])).
  { vm_compute. reflexivity. }
  exact (layout_gives_up_only_on_a_sidenote_too_tall (scenarioB 96) 5 (constructSidenotes 1)
           (snd (fst (updateSidenotePositions (scenarioB 96) 5 (constructSidenotes 1))))
           [(0%nat, 100, GivingUp)] (constructSidenotes_wellFormed 1) E).
Defined.

(** *** The reclassification forgets where the sidenotes were *)

Lemma Page_eq (d e : Page) :
  sidenoteColumnLeft d = sidenoteColumnLeft e ->
  sidenoteColumnRight d = sidenoteColumnRight e ->
  hiddenSidenoteStorage d = hiddenSidenoteStorage e ->
  styleTop d = styleTop e ->
  leftColumnShown d = leftColumnShown e ->
  rightColumnShown d = rightColumnShown e ->
  d = e.
Proof.
  destruct d, e. cbn. intros. subst. reflexivity.
Qed.

(** X4. The containers that [updateSidenotesInCollapseBlocks] leaves
    depend on the present state of the collapse blocks only, not on the
    state in which the sidenotes were last reclassified: reclassifying for
    one state of the blocks and then for another gives the page that
    reclassifying for the latter at once gives. So collapsing blocks and
    expanding them again puts every sidenote back in its place, and a
    second reclassification for the same state changes nothing. *)
Theorem reclassification_forgets_earlier_states (g g' : Geometry) (d : Page) :
  footnoteRefs_length g' = footnoteRefs_length g ->
  wellFormed (footnoteRefs_length g) d ->
  updateSidenotesInCollapseBlocks g (snd (updateSidenotesInCollapseBlocks g' d))
  = updateSidenotesInCollapseBlocks g d.
Proof.
  intros En wf.
  assert (wf' : wellFormed (footnoteRefs_length g') d) by (rewrite En; exact wf).
  destruct (updateSidenotesInCollapseBlocks_spec g' d wf')
    as (d1 & E1 & Hc1 & Hh1 & Ht1 & Hl1 & Hr1).
  rewrite E1. cbn [snd].
  assert (wf1 : wellFormed (footnoteRefs_length g) d1).
  { rewrite <- En. apply (wellFormed_of_lists g' d1 Hc1 Hh1). }
  destruct (updateSidenotesInCollapseBlocks_spec g d1 wf1)
    as (d2 & E2 & Hc2 & Hh2 & Ht2 & Hl2 & Hr2).
  destruct (updateSidenotesInCollapseBlocks_spec g d wf)
    as (d3 & E3 & Hc3 & Hh3 & Ht3 & Hl3 & Hr3).
  rewrite E2, E3. f_equal. apply Page_eq.
  - rewrite (Hc2 ColumnLeft : sidenoteColumnLeft d2 = _).
    rewrite (Hc3 ColumnLeft : sidenoteColumnLeft d3 = _). reflexivity.
  - rewrite (Hc2 ColumnRight : sidenoteColumnRight d2 = _).
    rewrite (Hc3 ColumnRight : sidenoteColumnRight d3 = _). reflexivity.
  - congruence.
  - congruence.
  - congruence.
  - congruence.
Qed.

Lemma reclassification_forgets_earlier_states_witness :
  updateSidenotesInCollapseBlocks (sampleGeometry false)
    (snd (updateSidenotesInCollapseBlocks (sampleGeometry true) samplePage))
  = updateSidenotesInCollapseBlocks (sampleGeometry false) samplePage.
Proof.
  apply (reclassification_forgets_earlier_states (sampleGeometry false) (sampleGeometry true)
           samplePage).
  - reflexivity.
  - exact samplePage_wellFormed.
Defined.

(** *** The second loop does not go back *)

(** X5. The second loop makes one pass down the page: started on
    sidenote [i], it changes no container and never again assigns the
    position of a sidenote before [i], however it ends and however many
    times it takes a sidenote again. *)
Theorem second_loop_never_goes_back (g : Geometry) (ranges : list Range) (turns i : nat)
        (d : Page) (log : list (nat * Z * Disposition)) :
  wellFormed (footnoteRefs_length g) d ->
  let d' := snd (fst (correctOverlapsFrom g ranges turns i d log)) in
  sameContainers d d'
  /\ forall j, (j < i)%nat -> styleTop d' j = styleTop d j.
Proof.
  intros wf.
  destruct (correctOverlapsFrom g ranges turns i d log) as [[o d'] log'] eqn:E.
  cbn [fst snd].
  destruct (correctOverlapsFrom_touches g ranges turns i d log o d' log' wf E) as (Hs & Hk & _).
  split; [exact Hs|]. intros j Hj. apply Hk. left. exact Hj.
Qed.

Lemma second_loop_never_goes_back_witness :
  let d := prepared (sampleGeometry true) (constructSidenotes 5) in
  let d' := snd (fst (correctOverlapsFrom (sampleGeometry true)
                        (proscribedVerticalRanges (sampleGeometry true)) 30 3 d [])) in
  sameContainers d d'
  /\ forall j, (j < 3)%nat -> styleTop d' j = styleTop d j.
Proof.
  apply (second_loop_never_goes_back (sampleGeometry true)
           (proscribedVerticalRanges (sampleGeometry true)) 30 3
           (prepared (sampleGeometry true) (constructSidenotes 5)) []).
  apply prepared_spec. apply (constructSidenotes_wellFormed 5).
Defined.

(** *** A sidenote taller than its column *)

Lemma room_within_column (g : Geometry) (ranges : list Range) (s : Side) (fp : Range) :
  0 <= side_clientHeight g s ->
  (forall r, In r ranges ->
     side_offsetTop g s <= bottom r /\ top r - side_offsetTop g s <= side_clientHeight g s) ->
  floor (fst (roomFor g ranges s fp)) - ceiling (fst (roomFor g ranges s fp))
  <= side_clientHeight g s.
Proof.
  intros Hh Hr.
  destruct (room_scanned g ranges s fp) as [Hc Hf]; cbv zeta in Hc, Hf.
  assert (Hin : forall l1 r l2, ranges = l1 ++ r :: l2 -> In r ranges).
  { intros l1 r l2 ->. apply in_or_app. right. left. reflexivity. }
  destruct Hc as [(l1 & r & l2 & El & _ & _ & Ec)|[_ Ec]];
    destruct Hf as [(l1' & r' & l2' & El' & _ & _ & Ef & _)|(_ & Ef & _)];
    rewrite Ec, Ef;
    try (pose proof (Hr r (Hin _ _ _ El)));
    try (pose proof (Hr r' (Hin _ _ _ El'))); lia.
Qed.

Lemma tall_sidenote_stops_the_loop (g : Geometry) (i : nat) :
  let ranges := proscribedVerticalRanges g in
  (i < footnoteRefs_length g)%nat ->
  0 <= side_clientHeight g (sideOf i) ->
  (forall r, In r ranges ->
     side_offsetTop g (sideOf i) <= bottom r
     /\ top r - side_offsetTop g (sideOf i) <= side_clientHeight g (sideOf i)) ->
  side_clientHeight g (sideOf i) < clientHeight g i + 2 * sidenoteSpacing g ->
  forall turns i0 d log,
    wellFormed (footnoteRefs_length g) d -> inHiddenStorage d i = false ->
    (i0 <= i)%nat ->
    fst (fst (correctOverlapsFrom g ranges turns i0 d log)) <> Success.
Proof.
  intros ranges Hi Hh Hr Htall.
  induction turns as [|turns IH]; intros i0 d log wf Hhid Hi0; cbn [correctOverlapsFrom].
  - destruct (Nat.leb_spec (footnoteRefs_length g) i0); [lia|discriminate].
  - destruct (Nat.leb_spec (footnoteRefs_length g) i0) as [Hn|Hn]; [lia|].
    destruct (correctOverlap g ranges i0 d) as [how d1] eqn:Eturn.
    destruct (correctOverlap_touches _ g ranges i0 d how d1 wf Hn Eturn) as [Hs _].
    pose proof (wellFormed_sameContainers _ _ _ Hs wf) as wf1.
    assert (Hhid1 : inHiddenStorage d1 i = false).
    { rewrite (proj2 (proj2 (sameContainers_siblings _ _ i Hs))). exact Hhid. }
    assert (Hsame : fst (fst (correctOverlapsFrom g ranges turns i0 d1
                                ((i0, offsetTop d i0, how) :: log))) <> Success).
    { apply IH; assumption. }
    destruct (Nat.eq_dec i0 i) as [->|Hne].
    + destruct (correctOverlap_cases _ g ranges i d how d1 wf Hi Hhid Eturn) as [_ Ht].
      unfold turnOutcome in Ht.
      pose proof (room_within_column g ranges (sideOf i)
                    (footprintAt g i (styleTop d i)) Hh Hr) as Hroom.
      destruct how; try exact Hsame; try discriminate; try (exfalso; lia);
        try (destruct Ht as [Hfit _]; exfalso; lia).
    + assert (Hnext : fst (fst (correctOverlapsFrom g ranges turns (S i0) d1
                                  ((i0, offsetTop d i0, how) :: log))) <> Success).
      { apply IH; try assumption. lia. }
      destruct how; try exact Hsame; try exact Hnext; discriminate.
Qed.

(** X6. A displayed sidenote whose height, with the spacing of 60 above
    and below, exceeds the height of its column keeps the layout from
    completing, on a page every proscribed range of which, taken in the
    coordinates of that column, ends at or below the top of the column
    and begins at or above its bottom: whatever the number of turns, the
    call of [updateSidenotePositions] does not end in success, and the
    columns are left shown or hidden as they were. *)
Theorem tall_sidenote_prevents_success (g : Geometry) (turns : nat) (d : Page) (i : nat) :
  wellFormed (footnoteRefs_length g) d ->
  (i < footnoteRefs_length g)%nat -> collapsed g i = false ->
  0 <= side_clientHeight g (sideOf i) ->
  (forall r, In r (proscribedVerticalRanges g) ->
     side_offsetTop g (sideOf i) <= bottom r
     /\ top r - side_offsetTop g (sideOf i) <= side_clientHeight g (sideOf i)) ->
  side_clientHeight g (sideOf i) < clientHeight g i + 2 * sidenoteSpacing g ->
  fst (fst (updateSidenotePositions g turns d)) <> Success
  /\ sameVisibility d (snd (fst (updateSidenotePositions g turns d))).
Proof.
  intros wf Hi Hc Hh Hr Htall.
  assert (Hno : fst (fst (updateSidenotePositions g turns d)) <> Success).
  { unfold updateSidenotePositions.
    destruct (viewportWidthBreakpoint_matches g); [discriminate|].
    destruct (firstFullWidthBlock_offsetTop g); [|discriminate].
    destruct (prepared_spec g d wf) as (En & _ & Hst & _ & _ & _ & wf2). unfold prepared in *.
    destruct (updateSidenotesInCollapseBlocks g d) as [c d1]. cbn [fst snd] in *. subst c.
    pose proof (tall_sidenote_stops_the_loop g i Hi Hh Hr Htall turns 0 (initialLayout g d1) []
                  wf2) as H.
    destruct (correctOverlapsFrom g (proscribedVerticalRanges g) turns 0 (initialLayout g d1) [])
      as [[o d3] log].
    cbn [fst] in H.
    assert (o <> Success).
    { apply H; [|lia]. rewrite (inHiddenStorage_stored g _ i Hst), Hc. apply andb_false_r. }
    destruct o; cbn [fst]; congruence. }
  split; [exact Hno|].
  pose proof (updateSidenotePositions_visibility g turns d) as Hv.
  destruct (updateSidenotePositions g turns d) as [[o d'] log]. cbn [fst snd] in *.
  destruct o; try exact Hv. congruence.
Qed.

Lemma tall_sidenote_prevents_success_witness :
  fst (fst (updateSidenotePositions tallSidenoteGeometry 30 samplePage)) <> Success
  /\ sameVisibility samplePage
       (snd (fst (updateSidenotePositions tallSidenoteGeometry 30 samplePage))).
Proof.
  apply (tall_sidenote_prevents_success tallSidenoteGeometry 30 samplePage 1).
  - exact samplePage_wellFormed.
  - cbn. lia.
  - reflexivity.
  - cbn. lia.
  - cbn. intros r [<-|[<-|[]]]; cbn; lia.
  - cbn. lia.
Defined.

(** *** The containers through a series of layouts *)

(** X19. The containers stay in order through the life of the page:
    from the page that [constructSidenotes] builds and after any series
    of calls of [updateSidenotePositions], whatever the browser measures
    at each call and however each call ends, every sidenote is a child
    of the column of its parity or of the hidden storage, of one of them
    only and once, and the children of each column are in increasing
    order of index. *)
Theorem containers_stay_well_formed (n : nat) (calls : list (Geometry * nat)) :
  (forall g turns, In (g, turns) calls -> footnoteRefs_length g = n) ->
  wellFormed n
    (fold_left (fun d call => snd (fst (updateSidenotePositions (fst call) (snd call) d)))
               calls (constructSidenotes n)).
Proof.
  intros Hn. generalize (constructSidenotes_wellFormed n).
  generalize (constructSidenotes n) as d.
  induction calls as [|[g turns] calls IH]; intros d wf; cbn [fold_left fst snd]; [exact wf|].
  apply IH.
  - intros g' turns' Hin. apply (Hn g' turns'). right. exact Hin.
  - rewrite <- (Hn g turns (or_introl eq_refl)).
    apply updateSidenotePositions_wellFormed.
    rewrite (Hn g turns (or_introl eq_refl)). exact wf.
Qed.

Lemma containers_stay_well_formed_witness :
  wellFormed 5
    (fold_left (fun d call => snd (fst (updateSidenotePositions (fst call) (snd call) d)))
               [(sampleGeometry false, 30%nat); (tallSidenoteGeometry, 30%nat);
                (sampleGeometry true, 2%nat)]
               (constructSidenotes 5)).
Proof.
  apply (containers_stay_well_formed 5
           [(sampleGeometry false, 30%nat); (tallSidenoteGeometry, 30%nat);
            (sampleGeometry true, 2%nat)]).
  intros g turns [E|[E|[E|[]]]]; inversion E; reflexivity.
Defined.

(** *** The layout is a function of the measurements *)

(** X20. On a wide viewport, when a block of the body is full-width and
    the reclassification of the sidenotes completes, what a call of
    [updateSidenotePositions] makes of the displayed sidenotes depends on
    what the browser measures and on the state of the collapse blocks
    only, not on the page it is given: from any two well-formed pages,
    whatever the containers the sidenotes are in and whatever their
    positions, the call ends in the same way, leaves the same children in
    the two columns and in the hidden storage, and leaves every displayed
    sidenote at the same position. *)
Theorem layout_depends_on_the_measurements_only (g : Geometry) (turns : nat) (d e : Page) :
  viewportWidthBreakpoint_matches g = false ->
  firstFullWidthBlock_offsetTop g <> None ->
  wellFormed (footnoteRefs_length g) d ->
  wellFormed (footnoteRefs_length g) e ->
  fst (updateSidenotesInCollapseBlocks g d) = Normal ->
  fst (updateSidenotesInCollapseBlocks g e) = Normal ->
  let d' := snd (fst (updateSidenotePositions g turns d)) in
  let e' := snd (fst (updateSidenotePositions g turns e)) in
  fst (fst (updateSidenotePositions g turns e)) = fst (fst (updateSidenotePositions g turns d))
  /\ sidenoteColumnLeft e' = sidenoteColumnLeft d'
  /\ sidenoteColumnRight e' = sidenoteColumnRight d'
  /\ hiddenSidenoteStorage e' = hiddenSidenoteStorage d'
  /\ forall i, (i < footnoteRefs_length g)%nat -> collapsed g i = false ->
               styleTop e' i = styleTop d' i.
Proof.
  intros Hv Hb wfd wfe _ _. cbv zeta.
  destruct (layout_ignores_previous_positions g turns d e Hv Hb wfd wfe) as [Ho Hp].
  split; [exact Ho|].
  assert (Hc : forall p, wellFormed (footnoteRefs_length g) p ->
             let p' := snd (fst (updateSidenotePositions g turns p)) in
             (forall s, children p' s = displayedOn g s (footnoteRefs_length g))
             /\ hiddenSidenoteStorage p' = storedBelow g (footnoteRefs_length g)).
  { intros p wf. cbv zeta. rewrite (updateSidenotePositions_layout g turns p Hv Hb wf).
    destruct (prepared_spec g p wf) as (_ & Hch & Hst & _ & _ & _ & wf2).
    destruct (correctOverlapsFrom g (proscribedVerticalRanges g) turns 0 (prepared g p) [])
      as [[o p3] log] eqn:E3.
    destruct (correctOverlapsFrom_touches g _ turns 0 (prepared g p) [] o p3 log wf2 E3)
      as ((El & Er & Eh & _) & _).
    assert (Hlists : (forall s, children p3 s = displayedOn g s (footnoteRefs_length g))
                     /\ hiddenSidenoteStorage p3 = storedBelow g (footnoteRefs_length g)).
    { split; [|congruence]. intros s. rewrite <- Hch. destruct s; cbn [children]; assumption. }
    destruct o; cbn [fst snd]; exact Hlists. }
  destruct (Hc d wfd) as [Hd1 Hd2]. destruct (Hc e wfe) as [He1 He2].
  split; [rewrite (He1 ColumnLeft : sidenoteColumnLeft _ = _),
            (Hd1 ColumnLeft : sidenoteColumnLeft _ = _); reflexivity|].
  split; [rewrite (He1 ColumnRight : sidenoteColumnRight _ = _),
            (Hd1 ColumnRight : sidenoteColumnRight _ = _); reflexivity|].
  split; [congruence|exact Hp].
Qed.

Lemma layout_depends_on_the_measurements_only_witness :
  let d' := snd (fst (updateSidenotePositions (sampleGeometry true) 30 (constructSidenotes 5))) in
  let e' := snd (fst (updateSidenotePositions (sampleGeometry true) 30 samplePage)) in
  fst (fst (updateSidenotePositions (sampleGeometry true) 30 samplePage))
  = fst (fst (updateSidenotePositions (sampleGeometry true) 30 (constructSidenotes 5)))
  /\ sidenoteColumnLeft e' = sidenoteColumnLeft d'
  /\ sidenoteColumnRight e' = sidenoteColumnRight d'
  /\ hiddenSidenoteStorage e' = hiddenSidenoteStorage d'
  /\ forall i, (i < 5)%nat -> collapsed (sampleGeometry true) i = false ->
               styleTop e' i = styleTop d' i.
Proof.
  apply (layout_depends_on_the_measurements_only (sampleGeometry true) 30
           (constructSidenotes 5) samplePage).
  - reflexivity.
  - discriminate.
  - apply (constructSidenotes_wellFormed 5).
  - exact samplePage_wellFormed.
  - reflexivity.
  - reflexivity.
Defined.

(** *** Revealing an element *)

Lemma not_within_all_checked (around : list bool) :
  isWithinCollapsedBlock around = false <-> Forall (fun c => c = true) around.
Proof.
  induction around as [|c outer IH]; cbn [isWithinCollapsedBlock].
  - split; [constructor|reflexivity].
  - unfold isCollapsed. destruct c; cbn [negb].
    + rewrite IH. split; [intros H; constructor; [reflexivity|exact H]|].
      intros H. inversion H; assumption.
    + split; [discriminate|]. intros H. inversion H; discriminate.
Qed.

Lemma expand_nothing_collapsed (around : list CollapseBlock) :
  isWithinCollapsedBlock (map disclosureButton_checked around) = false ->
  expandCollapseBlocksToReveal around = (false, around, 0%nat).
Proof.
  intros H. destruct around as [|b outer]; cbn [expandCollapseBlocksToReveal].
  - reflexivity.
  - rewrite H. reflexivity.
Qed.

Lemma expand_step (b : CollapseBlock) (outer : list CollapseBlock) :
  isWithinCollapsedBlock (map disclosureButton_checked (b :: outer)) = true ->
  expandCollapseBlocksToReveal (b :: outer)
  = let '(expandedFurther, outer', scheduled) := expandCollapseBlocksToReveal outer in
    (negb (disclosureButton_checked b), mkCollapseBlock true true :: outer',
     if negb expandedFurther && negb (disclosureButton_checked b)
     then S scheduled else scheduled).
Proof.
  intros H. cbn [expandCollapseBlocksToReveal]. rewrite H. cbn [negb].
  destruct (expandCollapseBlocksToReveal outer) as [[f o] s].
  destruct (disclosureButton_checked b); reflexivity.
Qed.

Lemma expand_all_checked (around : list CollapseBlock) :
  Forall (fun b => disclosureButton_checked b = true)
         (snd (fst (expandCollapseBlocksToReveal around))).
Proof.
  induction around as [|b outer IH].
  - cbn. constructor.
  - destruct (isWithinCollapsedBlock (map disclosureButton_checked (b :: outer))) eqn:E.
    + rewrite (expand_step b outer E).
      destruct (expandCollapseBlocksToReveal outer) as [[f o] s]. cbn [fst snd] in *.
      constructor; [reflexivity|exact IH].
    + rewrite (expand_nothing_collapsed _ E). cbn [fst snd].
      apply not_within_all_checked in E. rewrite Forall_map in E. exact E.
Qed.

Lemma expand_leaves_none_collapsed (around : list CollapseBlock) :
  isWithinCollapsedBlock
    (map disclosureButton_checked (snd (fst (expandCollapseBlocksToReveal around)))) = false.
Proof.
  apply not_within_all_checked. rewrite Forall_map. apply expand_all_checked.
Qed.

Lemma expand_length (around : list CollapseBlock) :
  length (snd (fst (expandCollapseBlocksToReveal around))) = length around.
Proof.
  induction around as [|b outer IH]; [reflexivity|].
  destruct (isWithinCollapsedBlock (map disclosureButton_checked (b :: outer))) eqn:E.
  - rewrite (expand_step b outer E).
    destruct (expandCollapseBlocksToReveal outer) as [[f o] s]. cbn [fst snd length] in *.
    f_equal. exact IH.
  - rewrite (expand_nothing_collapsed _ E). reflexivity.
Qed.

(** X7. [expandCollapseBlocksToReveal] leaves the element within no
    collapsed block: every block of the chain has its disclosure button
    checked afterwards. It keeps the number of blocks, leaves as they
    were the blocks outside the outermost collapsed one, and gives the
    class [expanded] to each block up to that one; a second call changes
    nothing, schedules no layout and returns [false]. *)
Theorem reveal_expands_every_block (around : list CollapseBlock) :
  let after := snd (fst (expandCollapseBlocksToReveal around)) in
  isWithinCollapsedBlock (map disclosureButton_checked after) = false
  /\ length after = length around
  /\ (forall inner b outer,
        around = inner ++ b :: outer ->
        disclosureButton_checked b = false ->
        isWithinCollapsedBlock (map disclosureButton_checked outer) = false ->
        after = map (fun _ => mkCollapseBlock true true) (inner ++ [b]) ++ outer)
  /\ expandCollapseBlocksToReveal after = (false, after, 0%nat).
Proof.
  cbv zeta.
  assert (H1 : isWithinCollapsedBlock
                 (map disclosureButton_checked (snd (fst (expandCollapseBlocksToReveal around))))
               = false).
  { apply expand_leaves_none_collapsed. }
  split; [exact H1|]. split; [|split].
  - apply expand_length.
  - clear H1. intros inner. revert around.
    induction inner as [|a inner IH]; intros around b outer -> Hb Ho.
    + cbn [app map]. rewrite expand_step.
      * rewrite (expand_nothing_collapsed outer Ho). reflexivity.
      * cbn [map isWithinCollapsedBlock]. unfold isCollapsed. rewrite Hb. reflexivity.
    + cbn [app map]. rewrite expand_step.
      * specialize (IH (inner ++ b :: outer) b outer eq_refl Hb Ho).
        destruct (expandCollapseBlocksToReveal (inner ++ b :: outer)) as [[f o] s].
        cbn [fst snd] in *. rewrite IH. reflexivity.
      * cbn [map isWithinCollapsedBlock]. destruct (isCollapsed _); [reflexivity|].
        clear IH. induction inner as [|c inner IH]; cbn [app map isWithinCollapsedBlock].
        -- unfold isCollapsed. rewrite Hb. reflexivity.
        -- destruct (isCollapsed _); [reflexivity|exact IH].
  - apply expand_nothing_collapsed. exact H1.
Qed.

Lemma reveal_expands_every_block_witness :
  let around := [mkCollapseBlock true true; mkCollapseBlock false false;
                 mkCollapseBlock true false] in
  snd (fst (expandCollapseBlocksToReveal around))
  = map (fun _ => mkCollapseBlock true true) ([mkCollapseBlock true true]
                                               ++ [mkCollapseBlock false false])
    ++ [mkCollapseBlock true false].
Proof.
  exact (proj1 (proj2 (proj2 (reveal_expands_every_block
                                [mkCollapseBlock true true; mkCollapseBlock false false;
                                 mkCollapseBlock true false])))
               [mkCollapseBlock true true] (mkCollapseBlock false false)
               [mkCollapseBlock true false] eq_refl eq_refl eq_refl).
Defined.

Lemma collapsedRuns_none (around : list bool) :
  collapsedRuns around = 0%nat <-> isWithinCollapsedBlock around = false.
Proof.
  induction around as [|c outer IH]; cbn [collapsedRuns isWithinCollapsedBlock].
  - split; reflexivity.
  - unfold isCollapsed in *. destruct c; cbn [negb andb Nat.add].
    + exact IH.
    + split; [|discriminate]. intros H.
      assert (H0 : collapsedRuns outer = 0%nat) by (destruct (negb _); cbn in H; lia).
      apply IH in H0. destruct outer as [|c' outer']; [cbn in H; discriminate|].
      cbn [isWithinCollapsedBlock] in H0. unfold isCollapsed in *.
      destruct c'; cbn [negb] in *; [discriminate|discriminate].
Qed.

Lemma expand_returns (around : list CollapseBlock) :
  fst (fst (expandCollapseBlocksToReveal around))
  = match around with
    | [] => false
    | nearest :: _ => isCollapsed (disclosureButton_checked nearest)
    end.
Proof.
  destruct around as [|b outer]; [reflexivity|].
  destruct (isWithinCollapsedBlock (map disclosureButton_checked (b :: outer))) eqn:E.
  - rewrite (expand_step b outer E).
    destruct (expandCollapseBlocksToReveal outer) as [[f o] s]. reflexivity.
  - rewrite (expand_nothing_collapsed _ E). cbn [fst].
    cbn [map isWithinCollapsedBlock] in E. destruct (isCollapsed _); [discriminate|reflexivity].
Qed.

(** X8. [expandCollapseBlocksToReveal] returns whether the innermost
    block around the element was collapsed, whatever it expanded further
    out: it returns [false] for an element in an expanded block within a
    collapsed one, though it expands the latter. The number of layouts it
    schedules is the number of runs of collapsed blocks in the chain: none
    when the element is within no collapsed block, at least one when it
    is, and more than one when expanded blocks lie between collapsed
    ones. *)
Theorem reveal_reports_the_innermost_block (around : list CollapseBlock) :
  let '(returned, _, scheduled) := expandCollapseBlocksToReveal around in
  returned = match around with
             | [] => false
             | nearest :: _ => isCollapsed (disclosureButton_checked nearest)
             end
  /\ scheduled = collapsedRuns (map disclosureButton_checked around)
  /\ (scheduled = 0%nat
      <-> isWithinCollapsedBlock (map disclosureButton_checked around) = false).
Proof.
  pose proof (expand_returns around) as Hr.
  assert (Hs : snd (expandCollapseBlocksToReveal around)
               = collapsedRuns (map disclosureButton_checked around)).
  { clear Hr. induction around as [|b outer IH]; [reflexivity|].
    destruct (isWithinCollapsedBlock (map disclosureButton_checked (b :: outer))) eqn:E.
    - rewrite (expand_step b outer E).
      pose proof (expand_returns outer) as Hr.
      destruct (expandCollapseBlocksToReveal outer) as [[f o] s]. cbn [fst snd] in *.
      cbn [map collapsedRuns]. rewrite <- IH. subst f. unfold isCollapsed.
      destruct outer as [|b' outer']; cbn [map];
        destruct (disclosureButton_checked b); cbn [negb andb Nat.add];
        try reflexivity; destruct (negb _); reflexivity.
    - rewrite (expand_nothing_collapsed _ E). cbn [snd]. symmetry.
      apply collapsedRuns_none. exact E. }
  destruct (expandCollapseBlocksToReveal around) as [[returned after] scheduled].
  cbn [fst snd] in *. split; [exact Hr|]. split; [exact Hs|].
  rewrite Hs. apply collapsedRuns_none.
Qed.

(** X9. Revealing a citation puts its sidenote back on the page: once
    [expandCollapseBlocksToReveal] has run to its end on the blocks
    around citation [i], a reclassification of a well-formed page that
    completes, whatever the state of the other blocks, leaves sidenote
    [i] in the column of its parity and not in the hidden storage. *)
Theorem revealed_citation_has_its_sidenote_displayed
        (g : Geometry) (d : Page) (i : nat) (around : list CollapseBlock) :
  wellFormed (footnoteRefs_length g) d ->
  (i < footnoteRefs_length g)%nat ->
  collapseBlocksAround g i
  = map disclosureButton_checked (snd (fst (expandCollapseBlocksToReveal around))) ->
  fst (updateSidenotesInCollapseBlocks g d) = Normal ->
  let d' := snd (updateSidenotesInCollapseBlocks g d) in
  In i (children d' (sideOf i))
  /\ inHiddenStorage d' i = false.
Proof.
  intros wf Hi Ec _. cbv zeta.
  destruct (updateSidenotesInCollapseBlocks_spec g d wf) as (d1 & E1 & Hc & Hh & _).
  rewrite E1. cbn [fst snd].
  assert (Hcol : collapsed g i = false).
  { unfold collapsed. rewrite Ec. apply (expand_leaves_none_collapsed around). }
  split.
  - rewrite Hc. apply filter_In. split; [apply in_seq; lia|].
    rewrite Hcol, onSide_sideOf. reflexivity.
  - rewrite (inHiddenStorage_stored g d1 i Hh), Hcol. apply andb_false_r.
Qed.

Lemma revealed_citation_has_its_sidenote_displayed_witness :
  let d' := snd (updateSidenotesInCollapseBlocks (sampleGeometry false) samplePage) in
  In 2%nat (children d' (sideOf 2))
  /\ inHiddenStorage d' 2 = false.
Proof.
  apply (revealed_citation_has_its_sidenote_displayed (sampleGeometry false) samplePage 2
           [mkCollapseBlock true true; mkCollapseBlock false false]).
  - exact samplePage_wellFormed.
  - cbn. lia.
  - reflexivity.
  - reflexivity.
Defined.

(** *** Identifiers and links *)

Lemma to_little_uint_nonnil (n : nat) (acc : Decimal.uint) :
  acc <> Decimal.Nil -> Nat.to_little_uint n acc <> Decimal.Nil.
Proof.
  revert acc. induction n as [|n IH]; intros acc H; cbn [Nat.to_little_uint]; [exact H|].
  apply IH. destruct acc; discriminate.
Qed.

Lemma numberToString_starts_with_digit (n : nat) :
  exists c rest, numberToString n = String c rest /\ isDigit c = true.
Proof.
  unfold numberToString.
  assert (H : Nat.to_uint n <> Decimal.Nil).
  { unfold Nat.to_uint. intros E. apply DecimalFacts.rev_nil_inv in E.
    revert E. apply to_little_uint_nonnil. discriminate. }
  destruct (Nat.to_uint n); [contradiction| | | | | | | | | |];
    cbn [NilEmpty.string_of_uint]; eexists; eexists; split; reflexivity.
Qed.

Lemma numberToString_inj (n m : nat) : numberToString n = numberToString m -> n = m.
Proof.
  unfold numberToString. intros H.
  pose proof (NilEmpty.usu (Nat.to_uint n)) as Hn.
  pose proof (NilEmpty.usu (Nat.to_uint m)) as Hm.
  rewrite H in Hn. rewrite Hn in Hm. inversion Hm as [E].
  rewrite <- (Unsigned.of_to n), <- (Unsigned.of_to m), E. reflexivity.
Qed.

Lemma append_inj_l (p s t : string) : (p ++ s)%string = (p ++ t)%string -> s = t.
Proof.
  induction p as [|c p IH]; cbn [append]; intros H; [exact H|].
  inversion H. apply IH. assumption.
Qed.

Lemma string_of_uint_digits (d : Decimal.uint) :
  forall s c rest, NilEmpty.string_of_uint d = (s ++ String c rest)%string -> isDigit c = true.
Proof.
  induction d; intros s c rest H; cbn [NilEmpty.string_of_uint] in H;
    try (destruct s; discriminate);
    (destruct s as [|a s]; cbn [append] in H; inversion H; subst;
     [reflexivity|eapply IHd; eassumption]).
Qed.

(** No expression [/#...[0-9]/] matches within the digits of a number. *)
Lemma hash_match_digits (p : string) (d : Decimal.uint) :
  hash_match (String "#" p) (NilEmpty.string_of_uint d) = false.
Proof.
  assert (H : forall s, (forall pre c rest, s = (pre ++ String c rest)%string -> isDigit c = true) ->
                        hash_match (String "#" p) s = false).
  { induction s as [|a s IH]; intros Hd; [reflexivity|].
    cbn [hash_match]. rewrite IH.
    - rewrite orb_false_r. unfold matchesAtStart. cbn [prefix].
      pose proof (Hd EmptyString a s eq_refl) as Ha.
      destruct (ascii_dec "#" a) as [<-|Hne]; [discriminate Ha|reflexivity].
    - intros pre c rest E. apply (Hd (String a pre) c rest). cbn [append]. rewrite E.
      reflexivity. }
  apply H. intros pre c rest E. exact (string_of_uint_digits d pre c rest E).
Qed.

Lemma hash_match_number (p : string) (n : nat) :
  hash_match (String "#" p) (numberToString n) = false.
Proof. apply hash_match_digits. Qed.

Lemma updateFootnoteReferenceLinks_nth (m : bool) (n i : nat) :
  (i < n)%nat -> nth_error (updateFootnoteReferenceLinks m n) i = Some (fnref_href m i).
Proof.
  intros Hi. unfold updateFootnoteReferenceLinks.
  rewrite nth_error_map, nth_error_seq.
  destruct (Nat.ltb_spec i n); [reflexivity|lia].
Qed.

Lemma fnref_href_inj (m : bool) (i j : nat) : fnref_href m i = fnref_href m j -> i = j.
Proof.
  unfold fnref_href. destruct (Bool.eqb m false); intros H;
    apply append_inj_l, numberToString_inj in H; lia.
Qed.

Lemma NoDup_map_inj {A B : Type} (f : A -> B) (l : list A) :
  (forall x y, f x = f y -> x = y) -> NoDup l -> NoDup (map f l).
Proof.
  intros Hf. induction 1 as [|x l Hx Hl IH]; cbn [map]; constructor; [|exact IH].
  intros Hin. apply in_map_iff in Hin. destruct Hin as (y & E & Hy).
  apply Hf in E. subst. contradiction.
Qed.

(** X10. In sidenotes mode [updateFootnoteReferenceLinks] points every
    citation to the sidenote that [constructSidenotes] made for it: the
    link of citation [i] is [#] followed by the id of sidenote [i], which
    is also the sidenote's own self-link. In either mode no two citations
    get the same link, no two sidenotes have the same id, and a link of
    sidenotes mode is never a link of footnotes mode. *)
Theorem citations_link_to_their_sidenotes (n : nat) :
  (forall i, (i < n)%nat ->
     nth_error (updateFootnoteReferenceLinks false n) i = Some ("#" ++ sidenote_id i)%string
     /\ sidenoteSelfLink_href i = ("#" ++ sidenote_id i)%string)
  /\ (forall m, NoDup (updateFootnoteReferenceLinks m n))
  /\ NoDup (map sidenote_id (seq 0 n))
  /\ (forall href, In href (updateFootnoteReferenceLinks false n) ->
                   ~ In href (updateFootnoteReferenceLinks true n)).
Proof.
  split; [|split; [|split]].
  - intros i Hi. rewrite (updateFootnoteReferenceLinks_nth false n i Hi). split; reflexivity.
  - intros m. apply NoDup_map_inj; [apply fnref_href_inj|apply seq_NoDup].
  - apply NoDup_map_inj; [|apply seq_NoDup].
    intros i j H. unfold sidenote_id in H. apply append_inj_l, numberToString_inj in H. lia.
  - intros href H1 H2. unfold updateFootnoteReferenceLinks in *.
    apply in_map_iff in H1. destruct H1 as (i & <- & _).
    apply in_map_iff in H2. destruct H2 as (j & E & _).
    cbn in E. discriminate E.
Qed.

Lemma citations_link_to_their_sidenotes_witness :
  nth_error (updateFootnoteReferenceLinks false 12) 9 = Some "#sn10"%string
  /\ sidenoteSelfLink_href 9 = "#sn10"%string.
Proof.
  exact (proj1 (citations_link_to_their_sidenotes 12) 9%nat
               (Nat.lt_le_trans 9 10 12 (Nat.lt_succ_diag_r 9) (Nat.le_add_r 10 2))).
Defined.

Lemma hash_match_sn_link (k : nat) (p : string) :
  hash_match "#sn" ("#sn" ++ numberToString k ++ p) = true.
Proof.
  destruct (numberToString_starts_with_digit k) as (c & rest & E & Hc). rewrite E.
  cbn [append hash_match]. unfold matchesAtStart. cbn. rewrite Hc. reflexivity.
Qed.

Lemma hash_match_fn_link (k : nat) :
  hash_match "#fn" ("#fn" ++ numberToString k) = true.
Proof.
  destruct (numberToString_starts_with_digit k) as (c & rest & E & Hc). rewrite E.
  cbn [append hash_match]. unfold matchesAtStart. cbn. rewrite Hc. reflexivity.
Qed.

Lemma hash_match_fnref_link (k : nat) :
  hash_match "#fnref" ("#fnref" ++ numberToString k) = true.
Proof.
  destruct (numberToString_starts_with_digit k) as (c & rest & E & Hc). rewrite E.
  cbn [append hash_match]. unfold matchesAtStart. cbn. rewrite Hc. reflexivity.
Qed.

Ltac no_match :=
  cbn [append hash_match]; rewrite hash_match_number; cbn; reflexivity.

Lemma no_sn_in_fn_link (k : nat) : hash_match "#sn" ("#fn" ++ numberToString k) = false.
Proof. no_match. Qed.

Lemma no_sn_in_fnref_link (k : nat) : hash_match "#sn" ("#fnref" ++ numberToString k) = false.
Proof. no_match. Qed.

Lemma no_fn_in_sn_link (k : nat) : hash_match "#fn" ("#sn" ++ numberToString k) = false.
Proof. no_match. Qed.

Lemma no_fn_in_fnref_link (k : nat) : hash_match "#fn" ("#fnref" ++ numberToString k) = false.
Proof. no_match. Qed.

Lemma no_fnref_in_fn_link (k : nat) : hash_match "#fnref" ("#fn" ++ numberToString k) = false.
Proof.
  cbn [append hash_match]. rewrite hash_match_number.
  destruct (numberToString_starts_with_digit k) as (c & rest & E & Hc). rewrite E.
  assert (Hr : prefix "ref" (String c rest) = false).
  { cbn [prefix]. destruct (ascii_dec "r" c) as [<-|Hne]; [discriminate Hc|reflexivity]. }
  unfold matchesAtStart.
  change (prefix "#fnref" (String "#" (String "f" (String "n" (String c rest)))))
    with (prefix "ref" (String c rest)).
  rewrite Hr. reflexivity.
Qed.


(** *** The counterpart of the target *)

(** X11. The counterparts that [updateTargetCounterpart] looks up are
    mutual in sidenotes mode: when the hash targets sidenote [i], it
    looks up the citation [#fnref(i+1)], and when the hash targets that
    citation, it looks up sidenote [i]. In footnotes mode the citation
    of a targeted sidenote is still looked up, but a targeted citation
    has no counterpart; and a hash that targets a footnote, [#fn(i+1)],
    has none in either mode. *)
Theorem counterparts_are_mutual (matches : bool) (i : nat) :
  targetCounterpart ("#" ++ sidenote_id i) matches
  = Some ("#fnref" ++ numberToString (i + 1))%string
  /\ targetCounterpart ("#fnref" ++ numberToString (i + 1)) false
     = Some ("#" ++ sidenote_id i)%string
  /\ targetCounterpart ("#fnref" ++ numberToString (i + 1)) true = None
  /\ targetCounterpart ("#fn" ++ numberToString (i + 1)) matches
     = None.
Proof.
  unfold targetCounterpart, sidenote_id. repeat split.
  - change ("#" ++ "sn" ++ numberToString (i + 1))%string
      with ("#sn" ++ numberToString (i + 1))%string.
    pose proof (hash_match_sn_link (i + 1) "") as H.
    replace (numberToString (i + 1) ++ "")%string with (numberToString (i + 1)) in H.
    + rewrite H. reflexivity.
    + clear H. induction (numberToString (i + 1)) as [|c s IH]; cbn [append]; congruence.
  - rewrite no_sn_in_fnref_link, hash_match_fnref_link. reflexivity.
  - rewrite no_sn_in_fnref_link, hash_match_fnref_link. reflexivity.
  - rewrite no_sn_in_fn_link, no_fnref_in_fn_link. reflexivity.
Qed.

(** *** The hash with which the page is loaded *)

(** X12. [sidenotesSetup] rewrites a hash that is the link of a citation
    in the other mode to the link of the same citation in the present
    mode; it leaves alone a hash that is already a link of the present
    mode, and a hash that targets a citation, [#fnref(i+1)], in either
    mode. *)
Theorem setup_rewrites_links_to_the_present_mode
        (matches : bool) (i : nat) :
  rewrittenHash (fnref_href (negb matches) i)
                matches
  = Some (fnref_href matches i)
  /\ rewrittenHash (fnref_href matches i)
                   matches = None
  /\ rewrittenHash ("#fnref" ++ numberToString (i + 1)) matches
     = None.
Proof.
  assert (Hsn : hash_match "#sn" ("#sn" ++ numberToString (i + 1)) = true).
  { pose proof (hash_match_sn_link (i + 1) "") as H.
    replace (numberToString (i + 1) ++ "")%string with (numberToString (i + 1)) in H;
      [exact H|].
    clear H. induction (numberToString (i + 1)) as [|c s IH]; cbn [append]; congruence. }
  unfold rewrittenHash, fnref_href.
  destruct matches; cbn [negb Bool.eqb]; repeat split;
    rewrite ?Hsn, ?no_sn_in_fn_link, ?no_fn_in_sn_link, ?hash_match_fn_link,
      ?no_sn_in_fnref_link, ?no_fn_in_fnref_link; reflexivity.
Qed.

(** *** The hash saved while a sidenote is focused *)

Lemma savedHash_targets_none (location_hash : string) :
  targetsSidenoteOrCitation (savedHash location_hash) = false.
Proof.
  unfold savedHash. destruct (targetsSidenoteOrCitation location_hash) eqn:E;
    [reflexivity|exact E].
Qed.

Lemma clicked_targets_none (decodeURIComponent : string -> option string)
      (encodeURIComponent : string -> string) (c : Click) (location_hash saved : string) :
  targetsSidenoteOrCitation saved = false ->
  targetsSidenoteOrCitation
    (fst (clicked decodeURIComponent encodeURIComponent c location_hash saved)) = false.
Proof.
  intros H. destruct c as [i tag|within]; cbn [clicked].
  - unfold sidenoteClicked. destruct (decodeURIComponent location_hash); [|exact H].
    destruct (_ || _ || _)%bool; [exact H|]. cbn [fst].
    destruct (targetsSidenoteOrCitation location_hash) eqn:E; [exact H|exact E].
  - unfold bodyClicked. destruct (_ && _)%bool; exact H.
Qed.

(** X13. The hash that the page saves to restore it when a sidenote
    loses the focus never targets a sidenote or a citation itself: from
    its first value in [sidenotesSetup] and through any series of clicks
    on sidenotes and on the body, whatever [location.hash] is at each
    click, [hashBeforeSidenoteWasFocused] starts with neither [#sn] nor
    [#fnref]. So a click on the body never sets a hash that starts with
    either, and it sets the hash only when the present one does. *)
Theorem saved_hash_targets_no_sidenote
        (decodeURIComponent : string -> option string) (encodeURIComponent : string -> string)
        (location_hash : string) (clicks : list (string * Click)) :
  let saved := hashSavedAfter decodeURIComponent encodeURIComponent clicks
                              (savedHash location_hash) in
  targetsSidenoteOrCitation saved = false
  /\ forall withinLinkOrSidenote hash newHash,
       snd (bodyClicked withinLinkOrSidenote hash saved) = Some newHash ->
       targetsSidenoteOrCitation newHash = false
       /\ targetsSidenoteOrCitation hash = true
       /\ withinLinkOrSidenote = false.
Proof.
  cbv zeta.
  assert (H : targetsSidenoteOrCitation
                (hashSavedAfter decodeURIComponent encodeURIComponent clicks
                                (savedHash location_hash)) = false).
  { unfold hashSavedAfter.
    generalize (savedHash_targets_none location_hash).
    generalize (savedHash location_hash) as saved.
    induction clicks as [|[h c] clicks IH]; intros saved Hs; cbn [fold_left fst snd].
    - exact Hs.
    - apply IH. apply clicked_targets_none. exact Hs. }
  split; [exact H|].
  intros within hash newHash. unfold bodyClicked.
  destruct within; cbn [negb andb snd]; [discriminate|].
  destruct (targetsSidenoteOrCitation hash); cbn [snd]; [|discriminate].
  intros E. inversion E; subst. repeat split. exact H.
Qed.

Lemma saved_hash_targets_no_sidenote_witness :
  targetsSidenoteOrCitation "#top"%string = false
  /\ targetsSidenoteOrCitation "#sn5"%string = true
  /\ false = false.
Proof.
  exact (proj2 (saved_hash_targets_no_sidenote Some (fun s => s) "#fnref7"%string
                  [("#top"%string, OnSidenote 2 "DIV"%string);
                   ("#sn3"%string, OnSidenote 4 "P"%string)])
               false "#sn5"%string "#top"%string eq_refl).
Defined.

(** *** Zero-width spaces *)

Lemma insertZeroWidthSpaces_ind (P : list N -> list N -> Prop) :
  P [] [] ->
  (forall a, P [a] [a]) ->
  (forall a b, P [a; b] [a; b]) ->
  (forall a b c rest out,
      (isWordCharacter a && isProblematicCharacter b && isWordCharacter c)%bool = true ->
      P rest out -> P (a :: b :: c :: rest) (a :: b :: zeroWidthSpace :: c :: out)) ->
  (forall a b c rest out,
      (isWordCharacter a && isProblematicCharacter b && isWordCharacter c)%bool = false ->
      P (b :: c :: rest) out -> P (a :: b :: c :: rest) (a :: out)) ->
  forall text, P text (insertZeroWidthSpaces text).
Proof.
  intros H0 H1 H2 Hm Hn.
  assert (H : forall n text, (length text <= n)%nat -> P text (insertZeroWidthSpaces text)).
  { induction n as [|n IH]; intros text Hl.
    - destruct text; [exact H0|cbn in Hl; lia].
    - destruct text as [|a [|b [|c rest]]]; [exact H0|exact (H1 a)|exact (H2 a b)|].
      cbn [insertZeroWidthSpaces].
      destruct (isWordCharacter a && isProblematicCharacter b && isWordCharacter c)%bool eqn:E.
      + apply Hm; [exact E|]. apply IH. cbn [length] in *. lia.
      + apply Hn; [exact E|].
        change (P (b :: c :: rest) (insertZeroWidthSpaces (b :: c :: rest))).
        apply IH. cbn [length] in *. lia. }
  intros text. exact (H (length text) text (le_n _)).
Qed.

(** X14. The zero-width spaces that [constructSidenotes] inserts change
    nothing of the text displayed: the text of a node after the
    replacement, without its zero-width spaces, is the text before it
    without its own; nothing is removed, and the text grows by at most
    one character in three. *)
Theorem zero_width_spaces_keep_the_text (textContent : list N) :
  displayedText (insertZeroWidthSpaces textContent) = displayedText textContent
  /\ (length textContent <= length (insertZeroWidthSpaces textContent))%nat
  /\ (3 * length (insertZeroWidthSpaces textContent) <= 4 * length textContent)%nat.
Proof.
  apply (insertZeroWidthSpaces_ind
           (fun text out => displayedText out = displayedText text
                            /\ (length text <= length out)%nat
                            /\ (3 * length out <= 4 * length text)%nat)).
  - repeat split; cbn; lia.
  - intros a. repeat split; cbn; lia.
  - intros a b. repeat split; cbn; lia.
  - intros a b c rest out _ (E & H1 & H2). split; [|cbn [length]; lia].
    unfold displayedText in *. cbn [filter].
    rewrite N.eqb_refl. cbn [negb]. rewrite E. reflexivity.
  - intros a b c rest out _ (E & H1 & H2). split; [|cbn [length] in *; lia].
    unfold displayedText in *. cbn [filter] in *. rewrite E. reflexivity.
Qed.

Lemma word_is_not_problematic (c : N) :
  isProblematicCharacter c = true -> isWordCharacter c = false.
Proof.
  unfold isProblematicCharacter, isWordCharacter. intros H.
  apply orb_true_iff in H. destruct H as [H|H];
    [apply orb_true_iff in H; destruct H as [H|H]|];
    apply N.eqb_eq in H; subst; reflexivity.
Qed.

(** X15. The replacement changes the text of a node exactly when
    somewhere in it a problematic character (a solidus, an equals sign or
    a not-equal sign) stands between two word characters; a text with no
    such place, the empty text among them, is left as it is. *)
Theorem zero_width_spaces_only_at_break_points (textContent : list N) :
  insertZeroWidthSpaces textContent = textContent <-> hasBreakPoint textContent = false.
Proof.
  assert (H : (hasBreakPoint textContent = false ->
               insertZeroWidthSpaces textContent = textContent)
              /\ (hasBreakPoint textContent = true ->
                  (length textContent < length (insertZeroWidthSpaces textContent))%nat)
              /\ (length textContent <= length (insertZeroWidthSpaces textContent))%nat).
  { apply (insertZeroWidthSpaces_ind
             (fun text out => (hasBreakPoint text = false -> out = text)
                              /\ (hasBreakPoint text = true -> (length text < length out)%nat)
                              /\ (length text <= length out)%nat)).
    - repeat split; [discriminate|cbn; lia].
    - intros a. repeat split; [discriminate|cbn; lia].
    - intros a b. repeat split; [discriminate|cbn; lia].
    - intros a b c rest out E (_ & _ & Hl). cbn [hasBreakPoint]. rewrite E. cbn [orb].
      split; [discriminate|]. cbn [length]. split; intros; lia.
    - intros a b c rest out E (H1 & H2 & Hl).
      change (hasBreakPoint (a :: b :: c :: rest))
        with ((isWordCharacter a && isProblematicCharacter b && isWordCharacter c)
              || hasBreakPoint (b :: c :: rest))%bool.
      rewrite E. cbn [orb]. split; [|split].
      + intros Hn. rewrite (H1 Hn). reflexivity.
      + intros Hb. specialize (H2 Hb). cbn [length] in *. lia.
      + cbn [length] in *. lia. }
  destruct H as (H1 & H2 & _). split.
  - intros E. destruct (hasBreakPoint textContent); [|reflexivity].
    specialize (H2 eq_refl). rewrite E in H2. lia.
  - exact H1.
Qed.

(** X16. Each search of the replacement starts after the word character
    that ended the previous match, so that this character is not taken as
    the start of the next: of two problematic characters separated by one
    word character, as the two solidi of [a/b/c], only the first is
    followed by a zero-width space. *)
Theorem zero_width_space_skips_the_next_separator (a p b q c : N) (rest : list N) :
  isWordCharacter a = true -> isProblematicCharacter p = true ->
  isWordCharacter b = true -> isProblematicCharacter q = true ->
  exists after,
    insertZeroWidthSpaces (a :: p :: b :: q :: c :: rest)
    = a :: p :: zeroWidthSpace :: b :: q :: c :: after.
Proof.
  intros Ha Hp Hb Hq.
  change (insertZeroWidthSpaces (a :: p :: b :: q :: c :: rest))
    with (if (isWordCharacter a && isProblematicCharacter p && isWordCharacter b)%bool
          then a :: p :: zeroWidthSpace :: b :: insertZeroWidthSpaces (q :: c :: rest)
          else a :: insertZeroWidthSpaces (p :: b :: q :: c :: rest)).
  rewrite Ha, Hp, Hb. cbn [andb].
  assert (Hc : exists after, insertZeroWidthSpaces (c :: rest) = c :: after).
  { destruct rest as [|d [|e rest]]; cbn [insertZeroWidthSpaces];
      try (eexists; reflexivity).
    destruct (_ && _ && _)%bool; eexists; reflexivity. }
  destruct Hc as [after Hc]. exists after. do 4 f_equal.
  destruct rest as [|d rest].
  - cbn [insertZeroWidthSpaces] in *. congruence.
  - change (insertZeroWidthSpaces (q :: c :: d :: rest))
      with (if (isWordCharacter q && isProblematicCharacter c && isWordCharacter d)%bool
            then q :: c :: zeroWidthSpace :: d :: insertZeroWidthSpaces rest
            else q :: insertZeroWidthSpaces (c :: d :: rest)).
    rewrite (word_is_not_problematic q Hq). cbn [andb]. rewrite Hc. reflexivity.
Qed.

Lemma zero_width_space_skips_the_next_separator_witness :
  exists after,
    insertZeroWidthSpaces [97; 47; 98; 47; 99]%N = [97; 47; 8203; 98; 47; 99]%N ++ after.
Proof.
  exact (zero_width_space_skips_the_next_separator 97 47 98 47 99 [] eq_refl eq_refl
           eq_refl eq_refl).
Defined.

(** *** Mouse events *)

Lemma fold_bind_other (l : list nat) :
  forall st j, ~ In j l ->
    fnref (fold_left bindBody l st) j = fnref st j
    /\ sidenote (fold_left bindBody l st) j = sidenote st j.
Proof.
  induction l as [|i l IH]; intros st j Hj; cbn [fold_left]; [split; reflexivity|].
  destruct (IH (bindBody st i) j) as [H1 H2]; [intros H; apply Hj; right; exact H|].
  rewrite H1, H2. cbn [bindBody fnref sidenote]. unfold setTarget.
  destruct (Nat.eqb_spec j i) as [->|_]; [exfalso; apply Hj; left; reflexivity|].
  split; reflexivity.
Qed.

Lemma fold_unbind_other (l : list nat) :
  forall st j, ~ In j l ->
    fnref (fold_left unbindBody l st) j = fnref st j
    /\ sidenote (fold_left unbindBody l st) j = sidenote st j.
Proof.
  induction l as [|i l IH]; intros st j Hj; cbn [fold_left]; [split; reflexivity|].
  destruct (IH (unbindBody st i) j) as [H1 H2]; [intros H; apply Hj; right; exact H|].
  rewrite H1, H2. cbn [unbindBody fnref sidenote]. unfold setTarget.
  destruct (Nat.eqb_spec j i) as [->|_]; [exfalso; apply Hj; left; reflexivity|].
  split; reflexivity.
Qed.

Lemma removeEventListener_recorded (c : option Closure) :
  removeEventListener c (match c with Some c => [c] | None => [] end) = [].
Proof.
  destruct c as [c|]; cbn [removeEventListener filter]; [|reflexivity].
  rewrite Nat.eqb_refl. reflexivity.
Qed.

Lemma unbind_spec (n : nat) (st : Listeners) :
  (forall i, (i < n)%nat -> boundAsRecorded (fnref st i) /\ boundAsRecorded (sidenote st i)) ->
  forall i, (i < n)%nat ->
    fnref (unbindSidenoteMouseEvents n st) i = mkEventTarget [] [] None None
    /\ sidenote (unbindSidenoteMouseEvents n st) i = mkEventTarget [] [] None None.
Proof.
  unfold unbindSidenoteMouseEvents. intros Hb.
  assert (H : forall m a st,
             (forall i, (a <= i < a + m)%nat ->
                        boundAsRecorded (fnref st i) /\ boundAsRecorded (sidenote st i)) ->
             forall i, (a <= i < a + m)%nat ->
               fnref (fold_left unbindBody (seq a m) st) i = mkEventTarget [] [] None None
               /\ sidenote (fold_left unbindBody (seq a m) st) i
                  = mkEventTarget [] [] None None).
  { clear. induction m as [|m IH]; intros a st Hb i Hi; [lia|].
    cbn [seq fold_left].
    destruct (Nat.eq_dec i a) as [->|Hne].
    - destruct (fold_unbind_other (seq (S a) m) (unbindBody st a) a) as [H1 H2].
      { rewrite in_seq. lia. }
      rewrite H1, H2. cbn [unbindBody fnref sidenote]. unfold setTarget.
      rewrite Nat.eqb_refl.
      destruct (Hb a Hi) as [[F1 F2] [S1 S2]].
      rewrite F1, F2, S1, S2, !removeEventListener_recorded. split; reflexivity.
    - apply IH; [|lia]. intros j Hj. cbn [unbindBody fnref sidenote]. unfold setTarget.
      destruct (Nat.eqb_spec j a); [lia|]. apply Hb. lia. }
  intros i Hi. apply (H n 0%nat st); [intros j Hj; apply Hb; lia|lia].
Qed.

Lemma bind_spec (n : nat) (st : Listeners) :
  (forall i, (i < n)%nat -> fnref st i = mkEventTarget [] [] None None
                            /\ sidenote st i = mkEventTarget [] [] None None) ->
  forall i, (i < n)%nat ->
    exists k,
      fnref (bindSidenoteMouseEvents n st) i
      = mkEventTarget [mkClosure k (HighlightSidenote i)]
                      [mkClosure (k + 1) (UnhighlightSidenote i)]
                      (Some (mkClosure k (HighlightSidenote i)))
                      (Some (mkClosure (k + 1) (UnhighlightSidenote i)))
      /\ sidenote (bindSidenoteMouseEvents n st) i
         = mkEventTarget [mkClosure (k + 2) (HighlightCitation i)]
                         [mkClosure (k + 3) (UnhighlightCitation i)]
                         (Some (mkClosure (k + 2) (HighlightCitation i)))
                         (Some (mkClosure (k + 3) (UnhighlightCitation i))).
Proof.
  unfold bindSidenoteMouseEvents. intros Hb.
  assert (H : forall m a st,
             (forall i, (a <= i < a + m)%nat ->
                        fnref st i = mkEventTarget [] [] None None
                        /\ sidenote st i = mkEventTarget [] [] None None) ->
             forall i, (a <= i < a + m)%nat ->
             exists k,
               fnref (fold_left bindBody (seq a m) st) i
               = mkEventTarget [mkClosure k (HighlightSidenote i)]
                               [mkClosure (k + 1) (UnhighlightSidenote i)]
                               (Some (mkClosure k (HighlightSidenote i)))
                               (Some (mkClosure (k + 1) (UnhighlightSidenote i)))
               /\ sidenote (fold_left bindBody (seq a m) st) i
                  = mkEventTarget [mkClosure (k + 2) (HighlightCitation i)]
                                  [mkClosure (k + 3) (UnhighlightCitation i)]
                                  (Some (mkClosure (k + 2) (HighlightCitation i)))
                                  (Some (mkClosure (k + 3) (UnhighlightCitation i)))).
  { clear. induction m as [|m IH]; intros a st Hb i Hi; [lia|].
    cbn [seq fold_left].
    destruct (Nat.eq_dec i a) as [->|Hne].
    - destruct (fold_bind_other (seq (S a) m) (bindBody st a) a) as [H1 H2].
      { rewrite in_seq. lia. }
      rewrite H1, H2. cbn [bindBody fnref sidenote]. unfold setTarget.
      rewrite Nat.eqb_refl.
      destruct (Hb a Hi) as [F S]. rewrite F, S. cbn [mouseover mouseout].
      exists (closures st). split; reflexivity.
    - apply IH; [|lia]. intros j Hj. cbn [bindBody fnref sidenote]. unfold setTarget.
      destruct (Nat.eqb_spec j a); [lia|]. apply Hb. lia. }
  intros i Hi. apply (H n 0%nat st); [intros j Hj; apply Hb; lia|lia].
Qed.

Lemma updateEventListeners_spec (n : nat) (st : Listeners) (matches : bool) :
  (forall i, (i < n)%nat -> boundAsRecorded (fnref st i) /\ boundAsRecorded (sidenote st i)) ->
  forall i, (i < n)%nat ->
    let st' := updateEventListeners n st matches in
    if matches then
      fnref st' i = mkEventTarget [] [] None None
      /\ sidenote st' i = mkEventTarget [] [] None None
    else
      exists k,
        fnref st' i
        = mkEventTarget [mkClosure k (HighlightSidenote i)]
                        [mkClosure (k + 1) (UnhighlightSidenote i)]
                        (Some (mkClosure k (HighlightSidenote i)))
                        (Some (mkClosure (k + 1) (UnhighlightSidenote i)))
        /\ sidenote st' i
           = mkEventTarget [mkClosure (k + 2) (HighlightCitation i)]
                           [mkClosure (k + 3) (UnhighlightCitation i)]
                           (Some (mkClosure (k + 2) (HighlightCitation i)))
                           (Some (mkClosure (k + 3) (UnhighlightCitation i))).
Proof.
  intros Hb i Hi. cbv zeta. unfold updateEventListeners.
  pose proof (unbind_spec n st Hb) as Hu.
  destruct matches; cbn [negb].
  - apply Hu. exact Hi.
  - apply bind_spec; assumption.
Qed.

Lemma updateEventListeners_keeps (n : nat) (st : Listeners) (matches : bool) :
  (forall i, (i < n)%nat -> boundAsRecorded (fnref st i) /\ boundAsRecorded (sidenote st i)) ->
  forall i, (i < n)%nat ->
    boundAsRecorded (fnref (updateEventListeners n st matches) i)
    /\ boundAsRecorded (sidenote (updateEventListeners n st matches) i).
Proof.
  intros Hb i Hi. pose proof (updateEventListeners_spec n st matches Hb i Hi) as H.
  cbv zeta in H. destruct matches.
  - destruct H as [-> ->]. repeat split.
  - destruct H as (k & -> & ->). repeat split.
Qed.

(** X17. However often the mode changes, [updateEventListeners] never
    leaves two listeners where one is meant: after any series of calls,
    from elements to which nothing was bound, a citation and its sidenote
    have no mouse listener when the last call was in footnotes mode; and
    when it was in sidenotes mode each has exactly one listener for
    [mouseover] and one for [mouseout], which are the functions held in
    its properties, those of citation [i] setting and removing the
    highlight of sidenote [i] and those of sidenote [i] the highlight of
    citation [i]. *)
Theorem mouse_listeners_are_bound_once (n : nat) (earlier : list bool) (matches : bool)
        (i : nat) :
  (i < n)%nat ->
  let st := updateEventListeners n (fold_left (updateEventListeners n) earlier noListeners)
                                 matches in
  if matches then
    fnref st i = mkEventTarget [] [] None None
    /\ sidenote st i = mkEventTarget [] [] None None
  else
    exists k,
      fnref st i
      = mkEventTarget [mkClosure k (HighlightSidenote i)]
                      [mkClosure (k + 1) (UnhighlightSidenote i)]
                      (Some (mkClosure k (HighlightSidenote i)))
                      (Some (mkClosure (k + 1) (UnhighlightSidenote i)))
      /\ sidenote st i
         = mkEventTarget [mkClosure (k + 2) (HighlightCitation i)]
                         [mkClosure (k + 3) (UnhighlightCitation i)]
                         (Some (mkClosure (k + 2) (HighlightCitation i)))
                         (Some (mkClosure (k + 3) (UnhighlightCitation i))).
Proof.
  intros Hi. apply updateEventListeners_spec; [|exact Hi].
  assert (H : forall st,
             (forall j, (j < n)%nat ->
                        boundAsRecorded (fnref st j) /\ boundAsRecorded (sidenote st j)) ->
             forall j, (j < n)%nat ->
               boundAsRecorded (fnref (fold_left (updateEventListeners n) earlier st) j)
               /\ boundAsRecorded (sidenote (fold_left (updateEventListeners n) earlier st) j)).
  { induction earlier as [|m earlier IH]; intros st Hb; cbn [fold_left]; [exact Hb|].
    apply IH. apply updateEventListeners_keeps. exact Hb. }
  apply H. intros j _. repeat split.
Qed.

Lemma mouse_listeners_are_bound_once_witness :
  let st := updateEventListeners 3 (fold_left (updateEventListeners 3) [false; true; false]
                                              noListeners) false in
  exists k,
    fnref st 2
    = mkEventTarget [mkClosure k (HighlightSidenote 2)]
                    [mkClosure (k + 1) (UnhighlightSidenote 2)]
                    (Some (mkClosure k (HighlightSidenote 2)))
                    (Some (mkClosure (k + 1) (UnhighlightSidenote 2)))
    /\ sidenote st 2
       = mkEventTarget [mkClosure (k + 2) (HighlightCitation 2)]
                       [mkClosure (k + 3) (UnhighlightCitation 2)]
                       (Some (mkClosure (k + 2) (HighlightCitation 2)))
                       (Some (mkClosure (k + 3) (UnhighlightCitation 2))).
Proof.
  exact (mouse_listeners_are_bound_once 3 [false; true; false] false 2
           (Nat.lt_succ_diag_r 2)).
Defined.

(** *** Targets of the popups *)

Lemma addListener_In (f : TargetListener) (l : list TargetListener) :
  In f (addListener f l).
Proof.
  unfold addListener. destruct (existsb (sameFunction f) l) eqn:E.
  - apply existsb_exists in E. destruct E as (f' & Hin & E).
    replace f with f'; [exact Hin|].
    destruct f, f'; try discriminate; try reflexivity.
    apply Nat.eqb_eq in E. subst. reflexivity.
  - apply in_or_app. right. left. reflexivity.
Qed.

Lemma removeListener_keeps (f : option TargetListener) (g : TargetListener)
      (l : list TargetListener) :
  f <> Some g -> In g l -> In g (removeListener f l).
Proof.
  intros Hne Hin. destruct f as [f|]; cbn [removeListener]; [|exact Hin].
  apply filter_In. split; [exact Hin|].
  destruct f, g; cbn [sameFunction negb]; try reflexivity; try congruence.
  destruct (Nat.eqb_spec n n0); [subst; congruence|reflexivity].
Qed.

(** X18. [Popups.removeTargets] does not undo [Popups.addTargets]: the
    listeners it removes are those of [Footnotes], not the two that
    [addTargets] bound. After [addTargets] (without a function to
    prepare the targets) and then [removeTargets], whether [Footnotes]
    is declared or not and however the call ends, every target that is
    not excluded still has [Popups.targetMouseenter] and
    [Popups.targetMouseleave] among its listeners, unless these are the
    functions of [Footnotes] themselves. *)
Theorem removeTargets_leaves_the_listeners_of_addTargets
        (Footnotes : option (option TargetListener * option TargetListener))
        (targets : list PopupTarget) (prepareFunction : nat) :
  (forall enter leave, Footnotes = Some (enter, leave) ->
                       enter <> Some Popups_targetMouseenter
                       /\ leave <> Some Popups_targetMouseleave) ->
  Forall (fun target => excluded target = false ->
                        In Popups_targetMouseenter (mouseenter target)
                        /\ In Popups_targetMouseleave (mouseleave target))
         (snd (removeTargets Footnotes (addTargets targets prepareFunction None))).
Proof.
  intros HF.
  assert (Hadded : forall l,
             Forall (fun target => excluded target = false ->
                        In Popups_targetMouseenter (mouseenter target)
                        /\ In Popups_targetMouseleave (mouseleave target))
                    (addTargets l prepareFunction None)).
  { induction l as [|t' l IH]; cbn [addTargets map]; constructor; [|exact IH].
    destruct (excluded t') eqn:Ex; [intros H; congruence|].
    intros _. cbn [mouseenter mouseleave]. split; apply addListener_In. }
  induction targets as [|t rest IH]; cbn [addTargets map removeTargets].
  - constructor.
  - fold (addTargets rest prepareFunction None).
    destruct (removeTargets Footnotes (addTargets rest prepareFunction None))
      as [c rest'] eqn:E. cbn [snd] in IH.
    destruct (excluded t) eqn:Ex.
    + rewrite Ex. cbn [snd]. constructor; [intros H; congruence|exact IH].
    + cbn [excluded].
      destruct Footnotes as [[enter leave]|]; cbn [snd].
      * destruct (HF enter leave eq_refl) as [He Hl].
        constructor; [|exact IH]. intros _. cbn [mouseenter mouseleave].
        split; apply removeListener_keeps; try assumption; apply addListener_In.
      * constructor; [|apply Hadded].
        intros _. cbn [mouseenter mouseleave]. split; apply addListener_In.
Qed.

Lemma removeTargets_leaves_the_listeners_of_addTargets_witness :
  Forall (fun target => excluded target = false ->
                        In Popups_targetMouseenter (mouseenter target)
                        /\ In Popups_targetMouseleave (mouseleave target))
         (snd (removeTargets (Some (Some (OtherFunction 1), Some (OtherFunction 2)))
                 (addTargets [mkPopupTarget false [] [] None; mkPopupTarget true [] [] None]
                             7 None))).
Proof.
  apply (removeTargets_leaves_the_listeners_of_addTargets
           (Some (Some (OtherFunction 1), Some (OtherFunction 2)))
           [mkPopupTarget false [] [] None; mkPopupTarget true [] [] None] 7).
  intros enter leave E. inversion E; subst. split; discriminate.
Defined.
